(** * GitLens view-layer adapters: the grouped SCM view switcher and the
      Launchpad quick-pick wizard

    A shallow embedding of [src/views/scmGroupedView.ts] and of the Launchpad
    command ([LaunchpadCommand], its item-pick step and its helpers), with
    the properties the specification states about them.

    Conventions.  JavaScript [undefined] is [None].  Objects with identity
    (tree views) carry an allocation number.  Calls into collaborators
    (view disposal, the key-value storage, the Launchpad provider) are
    recorded in chronological effect logs, so that "what was called, and in
    which order" is a statement about a list.  Values awaited from a
    collaborator (the categorized items, the connected integrations, the
    state of a cancellation token) are inputs of the function that awaits
    them; [LaunchpadRefresh] follows the awaits of the refresh one by one,
    with the time of each in milliseconds.  Strings hold their text in
    UTF-8; where the code counts the characters of a string, the model
    counts UTF-16 code units, as JavaScript does.

    Left out: the telemetry sink (none of its calls reads or writes the
    storage, the collapsed map or the picker), the cloud connect step, the
    handler of the search box apart from its calls of [updateItems] and of
    the debouncer, and the presentation-only fields of the picker
    entries. *)

From Stdlib Require Import ZArith.
From stdpp Require Import base option list strings gmap pretty.

Open Scope string_scope.
Open Scope list_scope.

(** ** A small state monad for code that mutates [this] *)

Definition St (S A : Type) : Type := S → A * S.

#[global] Instance St_ret {S} : MRet (St S) := λ A a s, (a, s).
#[global] Instance St_bind {S} : MBind (St S) :=
  λ A B k m s, let '(a, s') := m s in k a s'.
Definition st_get {S} : St S S := λ s, (s, s).
Definition st_modify {S} (f : S → S) : St S unit := λ s, (tt, f s).

(** ** The grouped SCM view switcher ([ScmGroupedView]) *)

Module ScmGroupedView.

(** The nine tags of [GroupableTreeViewTypes], as [getView] switches on them. *)
Inductive GroupableTreeViewTypes : Set :=
  | branches | commits | contributors | remotes | repositories
  | searchAndCompare | stashes | tags | worktrees.

#[global] Instance GroupableTreeViewTypes_eq_dec : EqDecision GroupableTreeViewTypes.
Proof. solve_decision. Defined.

(** The nine view classes [getView] instantiates. *)
Inductive ViewClass : Set :=
  | BranchesView | CommitsView | ContributorsView | RemotesView
  | RepositoriesView | SearchAndCompareView | StashesView | TagsView
  | WorktreesView.

#[global] Instance ViewClass_eq_dec : EqDecision ViewClass.
Proof. solve_decision. Defined.

(** A constructed view: [new C(container, grouped)].  [view_id] is the
    allocation number, which gives the object its identity. *)
Record TreeView : Set := mkTreeView {
  view_class : ViewClass;
  view_grouped : bool;
  view_id : nat;
}.

#[global] Instance TreeView_eq_dec : EqDecision TreeView.
Proof. solve_decision. Defined.

(** Modelled from the spec: the [type] property of the nine view classes,
    which are declared outside the excerpt; [TreeViewByType] pairs each tag
    with the class of the same name. *)
Definition class_type (c : ViewClass) : GroupableTreeViewTypes :=
  match c with
  | BranchesView => branches
  | CommitsView => commits
  | ContributorsView => contributors
  | RemotesView => remotes
  | RepositoriesView => repositories
  | SearchAndCompareView => searchAndCompare
  | StashesView => stashes
  | TagsView => tags
  | WorktreesView => worktrees
  end.

Definition view_type (v : TreeView) : GroupableTreeViewTypes :=
  class_type (view_class v).

(** The specification's pairing of the nine tags with the nine view
    constructors, written down independently of [getView] below. *)
Definition corresponding_constructor (t : GroupableTreeViewTypes) : ViewClass :=
  match t with
  | branches => BranchesView
  | commits => CommitsView
  | contributors => ContributorsView
  | remotes => RemotesView
  | repositories => RepositoriesView
  | searchAndCompare => SearchAndCompareView
  | stashes => StashesView
  | tags => TagsView
  | worktrees => WorktreesView
  end.

(** What [setView] does to its collaborators, in order. *)
Inductive Effect : Set :=
  | PersistLastSelected (type : option GroupableTreeViewTypes)
      (* views.lastSelectedScmGroupedView = type *)
  | SetContext (type : option GroupableTreeViewTypes)
      (* setContext('gitlens:views:scm:grouped:view', type) *)
  | Dispose (v : TreeView)
      (* v.dispose() *)
  | Construct (v : TreeView).
      (* new C(container, true) *)

#[global] Instance Effect_eq_dec : EqDecision Effect.
Proof. solve_decision. Defined.

(** The object and the part of the world it touches. *)
Record This : Set := mkThis {
  included : list GroupableTreeViewTypes;
  lastSelectedScmGroupedView : option GroupableTreeViewTypes;
  _view : option TreeView;
  next_id : nat;
  effects : list Effect;
}.

Definition emit (e : Effect) : St This unit :=
  st_modify (λ this, mkThis (included this) (lastSelectedScmGroupedView this)
                            (_view this) (next_id this) (effects this ++ [e])).

Definition set_lastSelectedScmGroupedView (type : option GroupableTreeViewTypes)
  : St This unit :=
  (st_modify (λ this, mkThis (included this) type (_view this) (next_id this)
                             (effects this)) ;;
   emit (PersistLastSelected type)).

Definition set_view (v : option TreeView) : St This unit :=
  st_modify (λ this, mkThis (included this) (lastSelectedScmGroupedView this)
                            v (next_id this) (effects this)).

(** [new C(this.container, true)] *)
Definition new (c : ViewClass) : St This TreeView :=
  (this ← st_get;
   let v := mkTreeView c true (next_id this) in
   st_modify (λ this, mkThis (included this) (lastSelectedScmGroupedView this)
                             (_view this) (S (next_id this)) (effects this)) ;;
   emit (Construct v) ;;
   mret v).

(** [getView]: the nine-way switch.  On [undefined] no case matches and the
    function returns [undefined]. *)
Definition getView (type : option GroupableTreeViewTypes) : St This (option TreeView) :=
  match type with
  | Some branches => (v ← new BranchesView; mret (Some v))
  | Some commits => (v ← new CommitsView; mret (Some v))
  | Some contributors => (v ← new ContributorsView; mret (Some v))
  | Some remotes => (v ← new RemotesView; mret (Some v))
  | Some repositories => (v ← new RepositoriesView; mret (Some v))
  | Some searchAndCompare => (v ← new SearchAndCompareView; mret (Some v))
  | Some stashes => (v ← new StashesView; mret (Some v))
  | Some tags => (v ← new TagsView; mret (Some v))
  | Some worktrees => (v ← new WorktreesView; mret (Some v))
  | None => mret None
  end.

(** [this.included.includes(type)] *)
Definition includes (l : list GroupableTreeViewTypes)
    (type : option GroupableTreeViewTypes) : bool :=
  match type with
  | Some t => bool_decide (t ∈ l)
  | None => false
  end.

(** [this._view?.dispose()] *)
Definition dispose_view : St This unit :=
  (this ← st_get;
   match _view this with
   | Some v => emit (Dispose v)
   | None => mret tt
   end).

(** Lines 54-56: a type that is not included gives way to [included[0]]. *)
Definition fallback (incl : list GroupableTreeViewTypes)
    (type : option GroupableTreeViewTypes) : option GroupableTreeViewTypes :=
  if includes incl type then type else head incl.

(** [setView(type)].  [this._view?.type === type] compares [undefined] with
    [type] when no view is held. *)
Definition setView (type : option GroupableTreeViewTypes) : St This (option TreeView) :=
  (this ← st_get;
   let type := fallback (included this) type in
   set_lastSelectedScmGroupedView type ;;
   this ← st_get;
   if bool_decide (view_type <$> _view this = type) then mret (_view this)
   else
     emit (SetContext type) ;;
     dispose_view ;;
     v ← getView type;
     set_view v ;;
     mret v).

(** The tail of the constructor: [this._view = this.setView(lastSelected!)]
    on an object that holds no view yet. *)
Definition constructor (incl : list GroupableTreeViewTypes)
    (lastSelected : option GroupableTreeViewTypes) (fresh : nat)
  : option TreeView * This :=
  let this := mkThis incl lastSelected None fresh [] in
  (v ← setView lastSelected; set_view v ;; mret v) this.

(** [dispose()], as far as the held view is concerned. *)
Definition dispose : St This unit := dispose_view.

End ScmGroupedView.

(** ** JavaScript [Map] with string keys

    Kept as an association list in insertion order: [set] on a key that is
    present overwrites in place, on a new key appends (so [keys()] iterates
    in first-insertion order, as in JavaScript). *)

Module JsMap.

Section JsMap.
Context {V : Type}.

Fixpoint get (k : string) (m : list (string * V)) : option V :=
  match m with
  | [] => None
  | (k', v) :: m' => if decide (k' = k) then Some v else get k m'
  end.

Fixpoint set (k : string) (v : V) (m : list (string * V)) : list (string * V) :=
  match m with
  | [] => [(k, v)]
  | (k', v') :: m' =>
      if decide (k' = k) then (k', v) :: m' else (k', v') :: set k v m'
  end.

Definition keys (m : list (string * V)) : list string := m.*1.

Definition values (m : list (string * V)) : list V := m.*2.

(** [new Map(entries)] *)
Definition of_entries (entries : list (string * V)) : list (string * V) :=
  foldl (λ m e, set e.1 e.2 m) [] entries.

End JsMap.

End JsMap.

(** ** The Launchpad quick-pick wizard ([LaunchpadCommand]) *)

Module Launchpad.

Abbreviation LaunchpadGroup := string (only parsing).
Abbreviation IntegrationId := string (only parsing).

(** The fields of a [LaunchpadItem] that the modelled code reads. *)
Record LaunchpadItem : Set := mkLaunchpadItem {
  item_id : string;        (* id *)
  graphQLId : string;
  title : string;
}.

#[global] Instance LaunchpadItem_eq_dec : EqDecision LaunchpadItem.
Proof. solve_decision. Defined.

(** [GroupedLaunchpadItem]: an item together with its [group]. *)
Record GroupedLaunchpadItem : Set := mkGrouped {
  grouped_item : LaunchpadItem;
  grouped_group : LaunchpadGroup;
}.

(** The [status] property of an error object, as far as
    ['status' in e && typeof e.status === 'number'] can tell; a numeric
    status is an integer, as HTTP statuses are. *)
Inductive ErrorStatus : Set :=
  | StatusAbsent
  | StatusNumber (n : Z)
  | StatusOther.

(** The integers that a JavaScript number holds exactly (up to
    [Number.MAX_SAFE_INTEGER]); a template literal prints these as their
    decimal numeral.  Numbers that are no such integer are not represented
    by [StatusNumber]. *)
Definition safe_integer (n : Z) : Prop := (Z.abs n ≤ 2 ^ 53 - 1)%Z.

(** An [Error] object. *)
Record JsError : Set := mkJsError {
  name : string;
  message : string;
  status : ErrorStatus;
}.

(** [String(e)], that is [Error.prototype.toString]. *)
Definition String_of_error (e : JsError) : string :=
  if decide (name e = "") then message e
  else if decide (message e = "") then name e
  else name e +:+ ": " +:+ message e.

(** [LaunchpadCategorizedResult]: either items or an error. *)
Inductive LaunchpadCategorizedResult : Set :=
  | ResultItems (items : list LaunchpadItem)
  | ResultError (error : JsError).

(** [LaunchpadAction | LaunchpadTargetAction]: a string, or an object with
    an [action] and a [target]. *)
Inductive Action : Set :=
  | ActionString (a : string)
  | ActionTarget (action : string) (target : string).

#[global] Instance Action_eq_dec : EqDecision Action.
Proof. solve_decision. Defined.

(** The options object of [launchpad.switchTo]. *)
Record SwitchToOptions : Set := mkSwitchToOptions {
  skipWorktreeConfirmations : option bool;
  startCodeSuggestion : option bool;
}.

(** Calls on the [container.launchpad] collaborator. *)
Inductive LaunchpadCall : Set :=
  | merge (item : LaunchpadItem)
  | open (item : LaunchpadItem)
  | switchTo (item : LaunchpadItem) (options : option SwitchToOptions)
  | openChanges (item : LaunchpadItem)
  | openInGraph (item : LaunchpadItem)
  | openCodeSuggestion (item : LaunchpadItem) (target : string)
  | pin (item : LaunchpadItem)
  | unpin (item : LaunchpadItem)
  | snooze (item : LaunchpadItem)
  | unsnooze (item : LaunchpadItem)
  | ensureLaunchpadItemCodeSuggestions (item : LaunchpadItem)
  | getCategorizedItems (force : option bool) (search : option string)
      (cancellation : bool)
  | getConnectedIntegrations.

(** A value held by the key-value storage collaborator. *)
Inductive StoredValue : Set :=
  | StoredGroups (groups : list LaunchpadGroup)
  | StoredString (s : string).

Inductive Url : Set :=
  | UrlLiteral (s : string)
  | UrlProFeatures               (* urls.proFeatures *)
  | UrlGeneratedWebUrl.          (* container.launchpad.generateWebUrl() *)

(** Everything the wizard does to the outside, in order. *)
Inductive Effect : Set :=
  | StorageStore (key : string) (value : StoredValue)
  | Call (c : LaunchpadCall)
  | OpenUrl (u : Url)
  | ExecuteCommand (command arg : string)
  | Next_connectMoreIntegrationsItem
  | EndSteps.

Inductive Directive : Set := Cancel | Noop | Reload.

(** The [onDidSelect] closure of a group heading (the only one the pick step
    builds), defunctionalised: it remembers its group [ui]. *)
Inductive OnDidSelect : Set :=
  | ToggleGroup (ui : LaunchpadGroup).

(** Modelled from the spec: [createDirectiveQuickPickItem(directive, picked,
    options)] is defined outside the excerpt; the item is represented by the
    arguments it was created with. *)
Record DirectiveQuickPickItem : Set := createDirectiveQuickPickItem {
  directive : Directive;
  directive_picked : option bool;
  directive_label : string;
  onDidSelect_of : option OnDidSelect;
}.

(** [LaunchpadItemQuickPickItem], without its presentation-only fields
    (description, detail, buttons, iconPath).  The [label] is kept as the
    UTF-16 code units of the JavaScript string, which is what [length] and
    [substring] count when they cut it. *)
Record LaunchpadItemQuickPickItem : Set := mkLaunchpadPick {
  label : list N;
  alwaysShow : option bool;
  item : LaunchpadItem;
  picked : bool;
  group : LaunchpadGroup;
}.

(** What the picker can list.  [Separator] is
    [createQuickPickSeparator(label)], likewise kept as its argument. *)
Inductive PickItem : Set :=
  | Separator (label : option string)
  | DirectiveItem (d : DirectiveQuickPickItem)
  | LaunchpadPick (p : LaunchpadItemQuickPickItem)
  | connectMoreIntegrationsItem.

Record Context : Set := mkContext {
  result : LaunchpadCategorizedResult;
  collapsed : list (LaunchpadGroup * bool);
  connectedIntegrations : list (IntegrationId * bool);
}.

Record State : Set := mkState {
  state_item : option GroupedLaunchpadItem;
  state_action : option Action;
  initialGroup : option LaunchpadGroup;
  selectTopItem : option bool;
  counter : Z;
  confirm : option bool;
}.

(** [Partial<State>] of the command arguments. *)
Record PartialState : Set := mkPartialState {
  arg_item : option GroupedLaunchpadItem;
  arg_action : option Action;
  arg_initialGroup : option LaunchpadGroup;
  arg_selectTopItem : option bool;
}.

Record LaunchpadCommandArgs : Set := mkArgs {
  arg_confirm : option bool;
  arg_source : option string;
  arg_state : option PartialState;
}.

(** The visible state of the host's [QuickPick]. *)
Record QuickPick : Set := mkQuickPick {
  qp_items : list PickItem;
  qp_placeholder : string;
  qp_busy : bool;
  qp_value : string;
}.

(** The variables a pick step closes over. *)
Record PickStep : Set := mkPickStep {
  step_picked : option string;
  step_selectTopItem : option bool;
}.

(** One wizard invocation together with the storage it runs against. *)
Record Wizard : Type := mkWizard {
  storage : gmap string StoredValue;
  context : Context;
  state : State;
  pickStep : PickStep;
  quickpick : QuickPick;
  log : list Effect;
}.

(** Effects that write to the storage. *)
Definition is_store (e : Effect) : bool :=
  match e with
  | StorageStore _ _ => true
  | _ => false
  end.

(** [w'] comes from [w] without a write to the storage, a change of the
    collapsed map or of [state.initialGroup]. *)
Definition quiet (w w' : Wizard) : Prop :=
  storage w' = storage w
  ∧ initialGroup (state w') = initialGroup (state w)
  ∧ collapsed (context w') = collapsed (context w)
  ∧ ∃ l, log w' = log w ++ l ∧ Forall (λ e, is_store e = false) l.

(** What the provider module, which is outside the excerpt, exports to the
    wizard. *)
Class LaunchpadProvider : Type := {
  launchpadGroups : list LaunchpadGroup;
  groupAndSortLaunchpadItems :
    list LaunchpadItem → list (LaunchpadGroup * list LaunchpadItem);
  launchpadGroupIconMap : list (LaunchpadGroup * string);
  launchpadGroupLabelMap : list (LaunchpadGroup * string);
}.

(** What the type annotations [LaunchpadGroup[]] and
    [Map<LaunchpadGroup, _>] promise about these exports. *)
Class LaunchpadProviderTyped `{LaunchpadProvider} : Prop := {
  defaultCollapsedGroups_typed :
    ∀ g, g ∈ ["draft"; "other"; "snoozed"] → g ∈ launchpadGroups;
  groupAndSortLaunchpadItems_typed :
    ∀ items g, g ∈ JsMap.keys (groupAndSortLaunchpadItems items) →
               g ∈ launchpadGroups;
}.

Definition key_groups_collapsed : string := "launchpad:groups:collapsed".
Definition key_indicator_hasInteracted : string := "launchpad:indicator:hasInteracted".

Definition defaultCollapsedGroups : list LaunchpadGroup :=
  ["draft"; "other"; "snoozed"].

(** [createAsyncDebouncer(500)]: the delay, in milliseconds. *)
Definition updateItemsDebouncer_delay : Z := 500.

(** JavaScript truthiness of the values the code tests. *)
Definition truthy_bool (b : option bool) : bool := default false b.
Definition truthy_string (s : string) : bool := bool_decide (s ≠ "").

(** U+00A0, as its two UTF-8 bytes. *)
Definition nbsp : string :=
  String (Ascii.ascii_of_nat 194) (String (Ascii.ascii_of_nat 160) "").

(** A JavaScript string is a sequence of UTF-16 code units.  The strings of
    this model hold their text in UTF-8; [utf16 s] is the sequence of code
    units of the text of [s]: one unit for a code point below U+10000, the
    two surrogates for one above.  (On bytes that are not well-formed UTF-8
    the decoding stops or keeps the byte; no JavaScript string corresponds
    to them.) *)
Definition continuation (b : Ascii.ascii) : N := N.land (Ascii.N_of_ascii b) 63.

Definition utf16_of_code_point (cp : N) : list N :=
  if (cp <? 65536)%N then [cp]
  else [(55296 + N.shiftr (cp - 65536) 10)%N; (56320 + N.land (cp - 65536) 1023)%N].

Fixpoint utf16 (s : string) : list N :=
  match s with
  | EmptyString => []
  | String b0 s1 =>
      let n0 := Ascii.N_of_ascii b0 in
      if (n0 <? 192)%N then n0 :: utf16 s1
      else
        match s1 with
        | EmptyString => []
        | String b1 s2 =>
            if (n0 <? 224)%N
            then (N.land n0 31 * 64 + continuation b1)%N :: utf16 s2
            else
              match s2 with
              | EmptyString => []
              | String b2 s3 =>
                  if (n0 <? 240)%N
                  then (N.land n0 15 * 4096 + continuation b1 * 64
                        + continuation b2)%N :: utf16 s3
                  else
                    match s3 with
                    | EmptyString => []
                    | String b3 s4 =>
                        utf16_of_code_point
                          (N.land n0 7 * 262144 + continuation b1 * 4096
                           + continuation b2 * 64 + continuation b3)%N
                        ++ utf16 s4
                    end
              end
        end
  end.

(** [String.prototype.toUpperCase], exact on a text whose letters are all in
    ASCII: only those letters are changed here.  (The labels it is applied
    to are a table of the provider module, which is outside the excerpt.) *)
Definition toUpperCase_ascii (c : Ascii.ascii) : Ascii.ascii :=
  let n := Ascii.nat_of_ascii c in
  if bool_decide (97 ≤ n ≤ 122)%nat then Ascii.ascii_of_nat (n - 32) else c.

Fixpoint toUpperCase (s : string) : string :=
  match s with
  | EmptyString => EmptyString
  | String c s' => String (toUpperCase_ascii c) (toUpperCase s')
  end.

(** A template literal renders [undefined] as the word. *)
Definition template (s : option string) : string := default "undefined" s.

Definition set_storage (w : Wizard) (s : gmap string StoredValue) : Wizard :=
  mkWizard s (context w) (state w) (pickStep w) (quickpick w) (log w).
Definition set_context (w : Wizard) (c : Context) : Wizard :=
  mkWizard (storage w) c (state w) (pickStep w) (quickpick w) (log w).
Definition set_state (w : Wizard) (s : State) : Wizard :=
  mkWizard (storage w) (context w) s (pickStep w) (quickpick w) (log w).
Definition set_pickStep (w : Wizard) (p : PickStep) : Wizard :=
  mkWizard (storage w) (context w) (state w) p (quickpick w) (log w).
Definition set_quickpick (w : Wizard) (q : QuickPick) : Wizard :=
  mkWizard (storage w) (context w) (state w) (pickStep w) q (log w).
Definition emit (w : Wizard) (e : Effect) : Wizard :=
  mkWizard (storage w) (context w) (state w) (pickStep w) (quickpick w)
           (log w ++ [e]).

(** [container.storage.store(key, value)] *)
Definition storage_store (key : string) (value : StoredValue) (w : Wizard) : Wizard :=
  emit (set_storage w (<[key := value]> (storage w))) (StorageStore key value).

(** *** The constructor (lines 158-191)

    [now] is [new Date().toISOString()].  Returns the storage after the
    constructor, what it stored, and [this.initialState]. *)
Definition constructor (args : option LaunchpadCommandArgs) (now : string)
    (st : gmap string StoredValue)
  : gmap string StoredValue * list Effect * State :=
  let '(st', effs) :=
    if bool_decide ((args ≫= arg_source) = Some "launchpad-indicator")
       && bool_decide (st !! key_indicator_hasInteracted = None)
    then (<[key_indicator_hasInteracted := StoredString now]> st,
          [StorageStore key_indicator_hasInteracted (StoredString now)])
    else (st, []) in
  let partial := args ≫= arg_state in
  let counter := if partial ≫= arg_item is Some _ then 1%Z else 0%Z in
  (st', effs,
   mkState (partial ≫= arg_item) (partial ≫= arg_action)
           (partial ≫= arg_initialGroup) (partial ≫= arg_selectTopItem)
           counter (args ≫= arg_confirm)).

Section WithProvider.
Context `{LaunchpadProvider}.

(** *** The prologue of [steps] (lines 208-229)

    A stored value that is not an array has no [map] method: the call
    throws, which is [None]. *)
Definition steps_collapsed (st : gmap string StoredValue)
    (initialGroup : option LaunchpadGroup) : option (list (LaunchpadGroup * bool)) :=
  storedCollapsed ←
    match st !! key_groups_collapsed with
    | None => Some defaultCollapsedGroups
    | Some (StoredGroups gs) => Some gs
    | Some (StoredString _) => None
    end;
  let collapsed := JsMap.of_entries ((λ g, (g, true)) <$> storedCollapsed) in
  Some match initialGroup with
       | Some initial =>
           foldl (λ m group, JsMap.set group (bool_decide (group ≠ initial)) m)
                 collapsed launchpadGroups
       | None => collapsed
       end.

(** [connected] is what [launchpad.getConnectedIntegrations()] resolves to. *)
Definition steps_prologue (st : gmap string StoredValue) (effs : list Effect)
    (s : State) (connected : list (IntegrationId * bool)) : option Wizard :=
  collapsed ← steps_collapsed st (initialGroup s);
  Some (mkWizard st (mkContext (ResultItems []) collapsed connected) s
                 (mkPickStep None None) (mkQuickPick [] "" false "")
                 (effs ++ [Call getConnectedIntegrations])).

(** A wizard invocation up to its first loop iteration. *)
Definition invoke (args : option LaunchpadCommandArgs) (now : string)
    (connected : list (IntegrationId * bool)) (st : gmap string StoredValue)
  : option Wizard :=
  let '(st', effs, s) := constructor args now st in
  steps_prologue st' effs s connected.

(** *** The heading's [onDidSelect] (lines 394-416) *)
Definition onDidSelect (h : OnDidSelect) (w : Wizard) : Wizard :=
  match h with
  | ToggleGroup ui =>
      let ctx := context w in
      let c := negb (truthy_bool (JsMap.get ui (collapsed ctx))) in
      let collapsed' := JsMap.set ui c (collapsed ctx) in
      let w := set_context w (mkContext (result ctx) collapsed'
                                        (connectedIntegrations ctx)) in
      if initialGroup (state w) is None then
        storage_store key_groups_collapsed
          (StoredGroups
             (filter (λ g, truthy_bool (JsMap.get g collapsed') = true)
                     (JsMap.keys collapsed')))
          w
      else w
  end.

(** *** [buildGroupHeading] (lines 381-419) *)
Definition buildGroupHeading (ctx : Context) (ui : LaunchpadGroup)
    (groupLength : nat) : list PickItem :=
  [ Separator (if groupLength is O then None else Some (pretty groupLength));
    DirectiveItem
      (createDirectiveQuickPickItem Reload (Some false)
         ("$(" +:+ (if truthy_bool (JsMap.get ui (collapsed ctx))
                    then "chevron-down" else "chevron-up")
          +:+ ")" +:+ nbsp +:+ nbsp
          +:+ template (JsMap.get ui launchpadGroupIconMap)
          +:+ nbsp +:+ nbsp
          +:+ template (toUpperCase <$> JsMap.get ui launchpadGroupLabelMap))
         (Some (ToggleGroup ui))) ].

(** *** [buildLaunchpadQuickPickItem] (lines 421-465) *)
Definition buildLaunchpadQuickPickItem (picked : option string)
    (i : LaunchpadItem) (ui : LaunchpadGroup) (topItem : option LaunchpadItem)
    (alwaysShow : option bool) : LaunchpadItemQuickPickItem :=
  mkLaunchpadPick
    (if bool_decide (60 < length (utf16 (title i)))%nat
     then take 60 (utf16 (title i)) ++ utf16 "..." else utf16 (title i))
    alwaysShow
    i
    (bool_decide (Some (graphQLId i) = picked)
     || bool_decide (Some (graphQLId i) = graphQLId <$> topItem))
    ui.

(** [uiGroups.get(g)?.[0]] *)
Definition first_of_group (uiGroups : list (LaunchpadGroup * list LaunchpadItem))
    (g : LaunchpadGroup) : option LaunchpadItem :=
  JsMap.get g uiGroups ≫= head.

(** [a || b] on possibly undefined objects *)
Definition or_else {A} (a b : option A) : option A :=
  if a is Some _ then a else b.

(** The body of the loop over [uiGroups] in [getItems] (lines 479-490):
    [items] so far, then one group. *)
Definition getItems_group (ctx : Context) (ps : PickStep)
    (topItem : option LaunchpadItem) (isSearching : option bool)
    (items : list PickItem)
    (entry : LaunchpadGroup * list LaunchpadItem) : list PickItem :=
  let '(ui, groupItems) := entry in
  if groupItems is [] then items
  else
    let items :=
      if truthy_bool isSearching then items
      else items ++ buildGroupHeading ctx ui (length groupItems) in
    if negb (truthy_bool isSearching)
       && truthy_bool (JsMap.get ui (collapsed ctx))
    then items
    else items ++ ((λ i, LaunchpadPick
                           (buildLaunchpadQuickPickItem (step_picked ps) i ui
                                                        topItem isSearching))
                   <$> groupItems).

(** *** [getItems] (lines 467-494) *)
Definition getItems (ctx : Context) (ps : PickStep)
    (result : LaunchpadCategorizedResult) (isSearching : option bool)
  : list PickItem :=
  match result with
  | ResultItems ((_ :: _) as items) =>
      let uiGroups := groupAndSortLaunchpadItems items in
      let topItem :=
        if negb (truthy_bool (step_selectTopItem ps))
           || bool_decide (step_picked ps ≠ None)
        then None
        else or_else (first_of_group uiGroups "mergeable")
              (or_else (first_of_group uiGroups "blocked")
                (or_else (first_of_group uiGroups "follow-up")
                         (first_of_group uiGroups "needs-review"))) in
      foldl (getItems_group ctx ps topItem isSearching) [] uiGroups
  | _ => []
  end.

(** *** [getItemsAndPlaceholder] (lines 496-521) *)
Definition getItemsAndPlaceholder (ctx : Context) (ps : PickStep)
    (isSearching : option bool) : string * list PickItem :=
  match result ctx with
  | ResultError error =>
      ("Unable to load items ("
       +:+ match status error with
           | StatusNumber n =>
               if decide (name error = "HttpError")
               then pretty n +:+ ": " +:+ String_of_error error
               else String_of_error error
           | _ => String_of_error error
           end
       +:+ ")",
       [DirectiveItem (createDirectiveQuickPickItem Cancel None "OK" None)])
  | ResultItems [] =>
      ("All done! Take a vacation",
       [DirectiveItem (createDirectiveQuickPickItem Cancel None "OK" None)])
  | ResultItems _ =>
      ("Choose an item, type a term to search, or paste in a PR URL",
       getItems ctx ps (result ctx) isSearching)
  end.

(** *** [combineQuickpickItemsWithSearchResults] (lines 523-537)

    ['item' in i && i.item?.id]: only a Launchpad entry has an [item] with
    an [id]; [connectMoreIntegrationsItem] has [item: undefined]. *)
Definition item_id_of (i : PickItem) : option string :=
  match i with
  | LaunchpadPick p => Some (item_id (item p))
  | _ => None
  end.

Definition combineQuickpickItemsWithSearchResults (arr items : list PickItem)
  : list PickItem :=
  let ids := omap item_id_of arr in
  (arr ++ filter (λ i, (if item_id_of i is Some id
                        then truthy_string id && bool_decide (id ∉ ids)
                        else false) = true) items).

(** What the awaited provider queries resolve to. *)
Record Fetched : Set := mkFetched {
  fetched_result : LaunchpadCategorizedResult;
  fetched_connected : list (IntegrationId * bool);
}.

(** *** [updateContextItems] (lines 1425-1436) *)
Definition updateContextItems (force : option bool) (search : option string)
    (cancellation : bool) (f : Fetched) (w : Wizard) : Wizard :=
  let w := emit w (Call (getCategorizedItems force search cancellation)) in
  let w := set_context w (mkContext (fetched_result f) (collapsed (context w))
                                    (connectedIntegrations (context w))) in
  let w := emit w (Call getConnectedIntegrations) in
  set_context w (mkContext (result (context w)) (collapsed (context w))
                           (fetched_connected f)).

(** Modelled from the spec: [createAsyncDebouncer] is defined outside the
    excerpt.  A request either is superseded before its callback starts, or
    its callback runs with a cancellation token; [isCancellationRequested]
    is the token's state when the callback tests it. *)
Inductive DebouncerOutcome : Set :=
  | Superseded
  | Invoked (f : Fetched) (isCancellationRequested : bool).

Definition set_busy (b : bool) (w : Wizard) : Wizard :=
  set_quickpick w (mkQuickPick (qp_items (quickpick w))
                     (qp_placeholder (quickpick w)) b (qp_value (quickpick w))).

(** *** [updateItems] (lines 539-562) *)
Definition updateItems (o : DebouncerOutcome) (w : Wizard) : Wizard :=
  let search := qp_value (quickpick w) in
  let w := set_busy true w in
  let w :=
    match o with
    | Superseded => w
    | Invoked f isCancellationRequested =>
        let w := updateContextItems (Some true) (Some search) true f w in
        if isCancellationRequested then w
        else
          let '(placeholder, items) :=
            getItemsAndPlaceholder (context w) (pickStep w)
                                   (Some (truthy_string search)) in
          set_quickpick w
            (mkQuickPick
               (if truthy_string search
                then combineQuickpickItemsWithSearchResults
                       (qp_items (quickpick w)) items
                else items)
               placeholder (qp_busy (quickpick w)) (qp_value (quickpick w)))
    end in
  set_busy false w.

Inductive Button : Set :=
  | ConnectIntegrationButton
  | FeedbackQuickInputButton
  | LaunchpadSettingsQuickInputButton
  | LearnAboutProQuickInputButton
  | MergeQuickInputButton
  | OpenOnGitHubQuickInputButton
  | OpenOnGitLabQuickInputButton
  | OpenOnWebQuickInputButton
  | OpenWorktreeInNewWindowQuickInputButton
  | PinQuickInputButton
  | RefreshQuickInputButton
  | SnoozeQuickInputButton
  | UnpinQuickInputButton
  | UnsnoozeQuickInputButton.

(** *** [onDidClickButton] of the pick step (lines 638-665) *)
Definition onDidClickButton (button : Button) (o : DebouncerOutcome)
    (w : Wizard) : Wizard :=
  match button with
  | ConnectIntegrationButton => emit w Next_connectMoreIntegrationsItem
  | LaunchpadSettingsQuickInputButton =>
      emit w (ExecuteCommand "workbench.action.openSettings" "gitlens.launchpad")
  | FeedbackQuickInputButton =>
      emit w (OpenUrl (UrlLiteral
                "https://github.com/gitkraken/vscode-gitlens/discussions/3286"))
  | OpenOnWebQuickInputButton => emit w (OpenUrl UrlGeneratedWebUrl)
  | RefreshQuickInputButton => updateItems o w
  | _ => w
  end.

(** [{ group, item }] of the clicked entry: [item] is falsy unless the entry
    is a Launchpad one. *)
Definition item_of (i : PickItem) : option LaunchpadItem :=
  match i with
  | LaunchpadPick p => Some (item p)
  | _ => None
  end.

(** *** [onDidClickItemButton] of the pick step (lines 667-714) *)
Definition onDidClickItemButton (button : Button) (entry : PickItem)
    (o : DebouncerOutcome) (w : Wizard) : Wizard :=
  match button with
  | LearnAboutProQuickInputButton => emit w (OpenUrl UrlProFeatures)
  | _ =>
      match item_of entry with
      | None => w
      | Some item =>
          let w :=
            match button with
            | OpenOnGitHubQuickInputButton
            | OpenOnGitLabQuickInputButton => emit w (Call (open item))
            | SnoozeQuickInputButton => emit w (Call (snooze item))
            | UnsnoozeQuickInputButton => emit w (Call (unsnooze item))
            | PinQuickInputButton => emit w (Call (pin item))
            | UnpinQuickInputButton => emit w (Call (unpin item))
            | MergeQuickInputButton => emit w (Call (merge item))
            | OpenWorktreeInNewWindowQuickInputButton =>
                emit w (Call (switchTo item
                                (Some (mkSwitchToOptions (Some true) None))))
            | _ => w
            end in
          updateItems o w
      end
  end.

(** *** The action dispatch of [steps] (lines 329-368)

    Returns the collaborator calls, in order, and whether the loop body ran
    on to [endSteps(state)] ([true]) or left by [continue] after setting
    [state.counter = 2] ([false]). *)
Definition dispatch (action : option Action) (item : LaunchpadItem)
  : list LaunchpadCall * bool :=
  match action with
  | Some (ActionString a) =>
      if decide (a = "merge") then ([merge item], true)
      else if decide (a = "open") then ([open item], true)
      else if decide (a = "soft-open") then ([open item], false)
      else if decide (a = "switch") then ([switchTo item None], true)
      else if decide (a = "show-overview") then ([switchTo item None], true)
      else if decide (a = "open-worktree") then
        ([switchTo item (Some (mkSwitchToOptions (Some true) None))], true)
      else if decide (a = "switch-and-code-suggest") then
        ([switchTo item (Some (mkSwitchToOptions None (Some true)))], true)
      else if decide (a = "code-suggest") then
        ([switchTo item (Some (mkSwitchToOptions None (Some true)))], true)
      else if decide (a = "open-changes") then ([openChanges item], true)
      else if decide (a = "open-in-graph") then ([openInGraph item], true)
      else ([], true)
  | Some (ActionTarget a target) =>
      if decide (a = "open-suggestion") then
        ([openCodeSuggestion item target], true)
      else ([], true)
  | None => ([], true)
  end.

(** Lines 313 and 325-368 on the wizard: [assertsLaunchpadStepState] throws
    when no item is selected. *)
Definition steps_dispatch (w : Wizard) : option Wizard :=
  gi ← state_item (state w);
  let '(calls, ends) := dispatch (state_action (state w)) (grouped_item gi) in
  let w := foldl (λ w c, emit w (Call c)) w calls in
  Some (if ends then emit w EndSteps
        else set_state w (mkState (state_item (state w)) (state_action (state w))
                            (initialGroup (state w)) (selectTopItem (state w))
                            2 (confirm (state w)))).

(** Lines 273-292 and 564-572: one loop iteration refreshes the context and,
    unless an item is already chosen, shows the pick step. *)
Definition steps_iteration (force : bool) (f : Fetched) (w : Wizard) : Wizard :=
  let w := updateContextItems (Some force) None false f w in
  if bool_decide (counter (state w) < 1)%Z
     || bool_decide (state_item (state w) = None)
  then
    let ps := mkPickStep (graphQLId ∘ grouped_item <$> state_item (state w))
                         (selectTopItem (state w)) in
    let '(placeholder, items) := getItemsAndPlaceholder (context w) ps None in
    set_quickpick (set_pickStep w ps) (mkQuickPick items placeholder false "")
  else w.

(** The user accepts the [n]-th listed entry: a heading runs its
    [onDidSelect]; a Launchpad entry becomes [state.item] (lines 310, 725). *)
Definition select (n : nat) (w : Wizard) : option Wizard :=
  entry ← qp_items (quickpick w) !! n;
  Some match entry with
       | DirectiveItem d =>
           if onDidSelect_of d is Some h then onDidSelect h w else w
       | LaunchpadPick p =>
           set_state w (mkState (Some (mkGrouped (item p) (group p)))
                          (state_action (state w)) (initialGroup (state w))
                          (selectTopItem (state w)) (counter (state w))
                          (confirm (state w)))
       | _ => w
       end.

(** Lines 315-322: the confirm step hands back the chosen action. *)
Definition confirmed (a : Action) (w : Wizard) : option Wizard :=
  gi ← state_item (state w);
  let w := emit w (Call (ensureLaunchpadItemCodeSuggestions (grouped_item gi))) in
  Some (set_state w (mkState (state_item (state w)) (Some a)
                       (initialGroup (state w)) (selectTopItem (state w))
                       (counter (state w)) (confirm (state w)))).

(** What can happen to an open wizard: a loop iteration of [steps] that
    gets as far as the pick step, the user accepting an entry, a search
    (typing in the search box appears as the [updateItems] call it ends in,
    line 635), a click on a title button or on an entry's button, the
    answer of the confirm step, and the action dispatch.

    Of [onDidChangeValue] the search event has the call of line 635 only:
    the entries the handler puts back first (lines 583-596) and its returns
    without a refresh (lines 598-602 and 611-633) assign to the picker's
    entries and to nothing else, and are left out here.  [LaunchpadRefresh]
    below has them, as moments of their own. *)
Inductive Event : Set :=
  | Iteration (force : bool) (f : Fetched)
  | Select (n : nat)
  | Search (value : string) (o : DebouncerOutcome)
  | ClickButton (button : Button) (o : DebouncerOutcome)
  | ClickItemButton (button : Button) (n : nat) (o : DebouncerOutcome)
  | Confirm (a : Action)
  | Dispatch.

(** [None]: the event is not possible in this state, or the code throws. *)
Definition step (w : Wizard) (e : Event) : option Wizard :=
  match e with
  | Iteration force f => Some (steps_iteration force f w)
  | Select n => select n w
  | Search value o =>
      Some (updateItems o
              (set_quickpick w (mkQuickPick (qp_items (quickpick w))
                                  (qp_placeholder (quickpick w))
                                  (qp_busy (quickpick w)) value)))
  | ClickButton button o => Some (onDidClickButton button o w)
  | ClickItemButton button n o =>
      entry ← qp_items (quickpick w) !! n;
      Some (onDidClickItemButton button entry o w)
  | Confirm a => confirmed a w
  | Dispatch => steps_dispatch w
  end.

Fixpoint run (w : Wizard) (es : list Event) : option Wizard :=
  match es with
  | [] => Some w
  | e :: es' => w' ← step w e; run w' es'
  end.

(** The states a wizard invocation can be in. *)
Definition reachable (st : gmap string StoredValue) (w : Wizard) : Prop :=
  ∃ args now connected es w0,
    invoke args now connected st = Some w0 ∧ run w0 es = Some w.

(** The collapsed map mentions known groups only. *)
Definition collapsed_known (w : Wizard) : Prop :=
  ∀ g, g ∈ JsMap.keys (collapsed (context w)) → g ∈ launchpadGroups.

(** The headings the picker lists toggle known groups only. *)
Definition headings_known (w : Wizard) : Prop :=
  ∀ d ui, DirectiveItem d ∈ qp_items (quickpick w) →
          onDidSelect_of d = Some (ToggleGroup ui) → ui ∈ launchpadGroups.

(** The storage holds what its type says under the collapsed-groups key:
    nothing, or an array of groups. *)
Definition storage_typed (st : gmap string StoredValue) : Prop :=
  match st !! key_groups_collapsed with
  | None => True
  | Some (StoredGroups gs) => ∀ g, g ∈ gs → g ∈ launchpadGroups
  | Some (StoredString _) => False
  end.

End WithProvider.

End Launchpad.

(** ** A concrete provider, for running the model

    The seven groups the wizard itself names; every item is filed under
    ["mergeable"]. *)

Module Demo.
Import Launchpad.

#[export] Instance provider : LaunchpadProvider := {|
  launchpadGroups :=
    ["mergeable"; "blocked"; "follow-up"; "needs-review"; "draft"; "other";
     "snoozed"];
  groupAndSortLaunchpadItems items :=
    (λ g, (g, if decide (g = "mergeable") then items else [])) <$>
    ["mergeable"; "blocked"; "follow-up"; "needs-review"; "draft"; "other";
     "snoozed"];
  launchpadGroupIconMap := [("mergeable", "$(rocket)")];
  launchpadGroupLabelMap := [("mergeable", "Ready to Merge")];
|}.

Definition pr1 : LaunchpadItem := mkLaunchpadItem "1" "PR_1" "Fix the parser".
Definition pr2 : LaunchpadItem := mkLaunchpadItem "2" "PR_2" "Add a test".

Definition fetched_two : Fetched := mkFetched (ResultItems [pr1; pr2]) [("github", true)].

Definition http_error : JsError := mkJsError "HttpError" "Not Found" (StatusNumber 404).

Definition empty_storage : gmap string StoredValue := ∅.

(** A wizard opened from the command palette on an empty storage. *)
Definition opened : option Wizard :=
  w ← invoke None "2024-01-01T00:00:00.000Z" [("github", true)] empty_storage;
  run w [Iteration false fetched_two].

(** The same, opened on the group ["mergeable"]. *)
Definition opened_on_group : option Wizard :=
  w ← invoke (Some (mkArgs None None
                      (Some (mkPartialState None None (Some "mergeable") None))))
             "2024-01-01T00:00:00.000Z" [("github", true)] empty_storage;
  run w [Iteration false fetched_two].

(** The first wizard once the user has typed "parser" in the search box:
    the picker lists the pull-request entries of the step (lines 583 and
    595) and [updateItems] is about to be called (line 635). *)
Definition searching : option Wizard :=
  w ← opened;
  Some (set_quickpick w
          (mkQuickPick (filter (λ i, is_Some (item_of i)) (qp_items (quickpick w)))
                       (qp_placeholder (quickpick w)) false "parser")).

(** The first wizard after the user toggled the heading it lists. *)
Definition toggled : option Wizard :=
  w ← opened; run w [Select 1].

(** A wizard with the item [pr1] chosen and the action 'merge' confirmed. *)
Definition chosen_merge : Wizard :=
  mkWizard empty_storage (mkContext (ResultItems [pr1; pr2]) [("draft", true)] [])
           (mkState (Some (mkGrouped pr1 "mergeable")) (Some (ActionString "merge"))
                    None None 1 None)
           (mkPickStep None None) (mkQuickPick [] "" false "") [].

(** The same wizard, had it been opened on the group ["mergeable"]. *)
Definition chosen_merge_on_group : Wizard :=
  set_state chosen_merge
    (mkState (Some (mkGrouped pr1 "mergeable")) (Some (ActionString "merge"))
             (Some "mergeable") None 1 None).

End Demo.

(** ** The commands of the grouped view, and runs of [setView] *)

Module ScmGroupedCommands.
Import ScmGroupedView.

(** The string literal of a type tag, which is also the [type] property of
    the view of that type. *)
Definition type_literal (t : GroupableTreeViewTypes) : string :=
  match t with
  | branches => "branches"
  | commits => "commits"
  | contributors => "contributors"
  | remotes => "remotes"
  | repositories => "repositories"
  | searchAndCompare => "searchAndCompare"
  | stashes => "stashes"
  | tags => "tags"
  | worktrees => "worktrees"
  end.

(** What a command registered by the constructor does (lines 28-43). *)
Inductive Handler : Set :=
  | Refresh
  | SetView (type : GroupableTreeViewTypes).

(** The ten [registerCommand] calls, in order. *)
Definition registered : list (string * Handler) :=
  [ ("gitlens.views.scm.grouped.refresh", Refresh);
    ("gitlens.views.scm.grouped.branches", SetView branches);
    ("gitlens.views.scm.grouped.commits", SetView commits);
    ("gitlens.views.scm.grouped.contributors", SetView contributors);
    ("gitlens.views.scm.grouped.remotes", SetView remotes);
    ("gitlens.views.scm.grouped.repositories", SetView repositories);
    ("gitlens.views.scm.grouped.searchAndCompare", SetView searchAndCompare);
    ("gitlens.views.scm.grouped.stashes", SetView stashes);
    ("gitlens.views.scm.grouped.tags", SetView tags);
    ("gitlens.views.scm.grouped.worktrees", SetView worktrees) ].

(** The refresh handler (lines 29-33): the commands it executes in turn. *)
Definition refresh (this : This) : list string :=
  match _view this with
  | None => []
  | Some v => ["gitlens.views." +:+ type_literal (view_type v) +:+ ".refresh"]
  end.

(** Running one of the object's commands: the commands it executes in
    turn, and the object afterwards.  [None]: the object registered no such
    command. *)
Definition executeCommand (command : string) (this : This)
  : option (list string * This) :=
  match JsMap.get command registered with
  | Some Refresh => Some (refresh this, this)
  | Some (SetView type) => Some ([], (setView (Some type) this).2)
  | None => None
  end.

(** A sequence of [setView] calls. *)
Definition setViews (types : list (option GroupableTreeViewTypes)) (this : This)
  : This :=
  foldl (λ this type, (setView type this).2) this types.

(** The views constructed, and the views disposed, in order. *)
Definition constructed (effs : list Effect) : list TreeView :=
  omap (λ e, if e is Construct v then Some v else None) effs.

Definition disposed (effs : list Effect) : list TreeView :=
  omap (λ e, if e is Dispose v then Some v else None) effs.

(** Every view constructed so far has been disposed, in the order of
    construction, except the one that is held; construction never reuses an
    object. *)
Definition views_accounted (this : This) : Prop :=
  constructed (effects this) = disposed (effects this) ++ option_list (_view this)
  ∧ Forall (λ v, view_id v < next_id this) (constructed (effects this))
  ∧ NoDup (constructed (effects this)).

End ScmGroupedCommands.

(** ** Reading the picker's entries *)

Module LaunchpadViews.
Import Launchpad.

(** The pull request a picker entry stands for, with the group it is
    listed under. *)
Definition entry_of (i : PickItem) : option (LaunchpadItem * LaunchpadGroup) :=
  match i with
  | LaunchpadPick p => Some (item p, group p)
  | _ => None
  end.

(** The group a picker entry toggles, if it is a group heading. *)
Definition toggle_of (i : PickItem) : option LaunchpadGroup :=
  match i with
  | DirectiveItem d =>
      match onDidSelect_of d with
      | Some (ToggleGroup ui) => Some ui
      | None => None
      end
  | _ => None
  end.

(** [context.collapsed.get(g)] as a condition. *)
Definition is_collapsed (ctx : Context) (g : LaunchpadGroup) : bool :=
  truthy_bool (JsMap.get g (collapsed ctx)).

(** The first pull request of the first group, among the four that can hold
    the top item and in their order of priority, that has any. *)
Definition top_of_groups (uiGroups : list (LaunchpadGroup * list LaunchpadItem))
  : option LaunchpadItem :=
  head (omap (first_of_group uiGroups)
             ["mergeable"; "blocked"; "follow-up"; "needs-review"]).

End LaunchpadViews.

(** ** The rows of the confirm step *)

Module LaunchpadRows.
Import Launchpad.

(** The members of [ProviderBuildStatusState] and of
    [ProviderPullRequestReviewState] that the code tells apart; both enums
    are declared outside the excerpt. *)
Inductive BuildStatusState : Set := Success | Failed | OtherBuildStatus.

Inductive ReviewState : Set :=
  | Approved | ChangesRequested | Commented | ReviewRequested | OtherReviewState.

#[global] Instance ReviewState_eq_dec : EqDecision ReviewState.
Proof. solve_decision. Defined.

Record Review : Set := mkReview {
  reviewer_username : string;
  reviewer_avatarUrl : option string;
  review_state : ReviewState;
}.

Record CodeSuggestion : Set := mkCodeSuggestion {
  suggestion_id : string;
  suggestion_title : string;
  suggestion_createdAt : Z;
  suggestion_author_name : string;
  suggestion_author_email : string;
  suggestion_author_avatarUri : option string;
}.

Record Author : Set := mkAuthor {
  author_username : string;
  author_avatarUrl : option string;
}.

(** A repository owner: an object ([owner_ref] is its identity) with a
    login. *)
Record Owner : Set := mkOwner {
  owner_ref : nat;
  owner_login : string;
}.

(** The fields of a [LaunchpadItem] that the confirm step reads.
    Optional chains are folded: [baseRef] is [item.baseRef?.name],
    [buildStatuses] is [item.headCommit?.buildStatuses], [codeSuggestions]
    is [item.codeSuggestions?.value], [headRepository_owner] is
    [item.headRepository?.owner]. *)
Record ItemDetails : Set := mkItemDetails {
  base : LaunchpadItem;
  actionableCategory : string;
  suggestedActions : list string;
  hasConflicts : bool;
  baseRef : option string;
  headRef : option string;
  buildStatuses : option (list BuildStatusState);
  provider_id : string;
  reviews : option (list Review);
  currentViewer_username : string;
  codeSuggestions : option (list CodeSuggestion);
  author : option Author;
  updatedDate : Z;
  createdDate : Z;
  isSearched : bool;
  viewer_pinned : bool;
  viewer_snoozed : bool;
  viewer_isAuthor : bool;
  repository_owner : Owner;
  repository_name : string;
  headRepository_owner : option Owner;
}.

Inductive IconPath : Set :=
  | UriParse (url : string)          (* Uri.parse(url) *)
  | AvatarUri (uri : string)         (* suggestion.author.avatarUri *)
  | GetAvatarUri (email : string).   (* getAvatarUri(email) *)

(** Modelled from the spec: [createQuickPickItemOfT(item, value)] is defined
    outside the excerpt; the entry is represented by the properties it was
    created with and the value it carries. *)
Record ActionRow : Set := createQuickPickItemOfT {
  row_label : string;
  row_description : option string;
  row_detail : option string;
  row_iconPath : option IconPath;
  row_buttons : list Button;
  row_value : Action;
}.

Inductive Row : Set :=
  | RowSeparator (label : option string)      (* createQuickPickSeparator *)
  | RowDirective (d : DirectiveQuickPickItem)
  | RowAction (r : ActionRow).

(** What the modules outside the excerpt provide to these functions: the
    integration ids, [fromNow], [pluralize] and [interpolate] (applied to
    the object [{ author, createdDateRelative }]). *)
Class Helpers : Type := {
  GitHub : IntegrationId;
  GitLab : IntegrationId;
  GitHubEnterprise : IntegrationId;
  GitLabSelfHosted : IntegrationId;
  supportedLaunchpadIntegrations : list IntegrationId;
  fromNow : Z → string;
  pluralize : string → nat → string;
  interpolate : string → string → string → string;
}.

(** The character U+0022. *)
Definition dquote : string := String (Ascii.ascii_of_nat 34) "".

(** [actionGroupMap] (lines 80-92): per category, a title and a detail
    template. *)
Definition actionGroupMap : list (string * (string * string)) :=
  [ ("mergeable", ("Ready to Merge", "Ready to merge"));
    ("unassigned-reviewers",
       ("Unassigned Reviewers", "You need to assign reviewers"));
    ("failed-checks",
       ("Failed Checks", "You need to resolve the failing checks"));
    ("conflicts", ("Resolve Conflicts", "You need to resolve merge conflicts"));
    ("needs-my-review", ("Needs Your Review", "${author} requested your review"));
    ("code-suggestions",
       ("Code Suggestions", "Code suggestions have been made on this pull request"));
    ("changes-requested",
       ("Changes Requested", "Reviewers requested changes before this can be merged"));
    ("reviewer-commented",
       ("Reviewers Commented", "Reviewers have commented on this pull request"));
    ("waiting-for-review",
       ("Waiting for Review", "Waiting for reviewers to approve this pull request"));
    ("draft", ("Draft", "Continue working on your draft"));
    ("other", ("Other", "Opened by ${author} ${createdDateRelative}")) ].

Section WithHelpers.
Context `{Helpers}.

(** *** [getOpenActionLabel] (lines 1372-1392) *)
Definition getOpenActionLabel (actionCategory : string) : string :=
  if decide (actionCategory = "unassigned-reviewers") then "Assign Reviewers"
  else if decide (actionCategory = "failed-checks") then "Resolve Failing Checks"
  else if decide (actionCategory = "conflicts") then "Resolve Conflicts"
  else if decide (actionCategory = "needs-my-review") then "Start Reviewing"
  else if decide (actionCategory = "changes-requested") then "Respond to Reviewers"
  else if decide (actionCategory = "reviewer-commented") then "Respond to Reviewers"
  else if decide (actionCategory = "waiting-for-review") then "Check In with Reviewers"
  else if decide (actionCategory = "draft") then "View draft"
  else "Open".

(** *** [getOpenOnGitProviderQuickInputButton] (lines 1394-1405) *)
Definition getOpenOnGitProviderQuickInputButton (integrationId : string)
  : option Button :=
  if decide (integrationId = GitLab) then Some OpenOnGitLabQuickInputButton
  else if decide (integrationId = GitLabSelfHosted) then Some OpenOnGitLabQuickInputButton
  else if decide (integrationId = GitHub) then Some OpenOnGitHubQuickInputButton
  else if decide (integrationId = GitHubEnterprise) then Some OpenOnGitHubQuickInputButton
  else None.

(** *** [getOpenOnGitProviderQuickInputButtons] (lines 1407-1410) *)
Definition getOpenOnGitProviderQuickInputButtons (integrationId : string)
  : list Button :=
  match getOpenOnGitProviderQuickInputButton integrationId with
  | Some button => [button]
  | None => []
  end.

(** *** [getIntegrationTitle] (lines 1412-1423) *)
Definition getIntegrationTitle (integrationId : string) : string :=
  if decide (integrationId = GitLab) then "GitLab"
  else if decide (integrationId = GitLabSelfHosted) then "GitLab"
  else if decide (integrationId = GitHub) then "GitHub"
  else if decide (integrationId = GitHubEnterprise) then "GitHub"
  else integrationId.

(** *** [getLaunchpadItemStatusInformation] (lines 1265-1289)

    [item.headCommit?.buildStatuses?.[0].state] reads [state] of the first
    build status: on an empty array that is a property of [undefined] and
    the function throws, which is [None]. *)
Definition getLaunchpadItemStatusInformation (item : ItemDetails) : option Row :=
  let base := match baseRef item with
              | Some name => "$(git-branch) " +:+ name
              | None => ""
              end in
  ciStatus ← match buildStatuses item with
             | None => Some None
             | Some [] => None
             | Some (first :: _) => Some (Some first)
             end;
  let status :=
    match ciStatus with
    | Some Success =>
        if hasConflicts item
        then "$(error) Conflicts with " +:+ base +:+ ", but passed CI checks"
        else "$(pass) No conflicts, and passed CI checks"
    | Some Failed =>
        if hasConflicts item
        then "$(error) Conflicts with " +:+ base +:+ ", and failed CI checks"
        else "$(error) No conflicts, but failed CI checks"
    | _ =>
        if hasConflicts item then "$(error) Conflicts with " +:+ base
        else "$(pass) No conflicts"
    end in
  Some (RowAction (createQuickPickItemOfT status None None None
                     (getOpenOnGitProviderQuickInputButtons (provider_id item))
                     (ActionString "soft-open"))).

(** The body of the loop over [item.reviews] (lines 1304-1333): the row of
    one review, if its state is one of the four the switch knows. *)
Definition review_row (item : ItemDetails) (review : Review) : option Row :=
  let isCurrentUser :=
    bool_decide (reviewer_username review = currentViewer_username item) in
  let who := if isCurrentUser then "You" else reviewer_username review in
  reviewLabel ←
    match review_state review with
    | Approved => Some (who +:+ " approved these changes")
    | ChangesRequested => Some (who +:+ " requested changes")
    | Commented => Some (who +:+ " left a comment review")
    | ReviewRequested =>
        Some ((if isCurrentUser then "You haven't"
               else reviewer_username review +:+ " hasn't")
              +:+ " reviewed these changes yet")
    | OtherReviewState => None
    end;
  Some (RowAction (createQuickPickItemOfT reviewLabel None None
                     (UriParse <$> reviewer_avatarUrl review)
                     (getOpenOnGitProviderQuickInputButtons (provider_id item))
                     (ActionString "soft-open"))).

(** *** [getLaunchpadItemReviewInformation] (lines 1291-1336) *)
Definition getLaunchpadItemReviewInformation (item : ItemDetails) : list Row :=
  match reviews item with
  | None | Some [] =>
      [RowAction (createQuickPickItemOfT "$(info) No reviewers have been assigned"
                    None None None
                    (getOpenOnGitProviderQuickInputButtons (provider_id item))
                    (ActionString "soft-open"))]
  | Some reviews => omap (review_row item) reviews
  end.

(** *** [getLaunchpadItemCodeSuggestionInformation] (lines 1338-1370) *)
Definition getLaunchpadItemCodeSuggestionInformation (item : ItemDetails)
  : list Row :=
  match codeSuggestions item with
  | None | Some [] => []
  | Some suggestions =>
      RowDirective
        (createDirectiveQuickPickItem Noop (Some false)
           ("$(gitlens-code-suggestion) "
            +:+ pluralize "code suggestion" (length suggestions))
           None)
      :: ((λ suggestion,
             RowAction
               (createQuickPickItemOfT
                  ("    " +:+ suggestion_author_name suggestion
                   +:+ " suggested a code change "
                   +:+ fromNow (suggestion_createdAt suggestion)
                   +:+ ": " +:+ dquote +:+ suggestion_title suggestion +:+ dquote)
                  None None
                  (Some (match suggestion_author_avatarUri suggestion with
                         | Some uri => AvatarUri uri
                         | None => GetAvatarUri (suggestion_author_email suggestion)
                         end))
                  [OpenOnWebQuickInputButton]
                  (ActionTarget "open-suggestion" (suggestion_id suggestion))))
          <$> suggestions)
  end.

(** [createDirectiveQuickPickItem(Directive.Noop, false, { label: '' })] *)
Definition blank_row : Row :=
  RowDirective (createDirectiveQuickPickItem Noop (Some false) "" None).

(** The switch on the category in [getLaunchpadItemInformationRows]
    (lines 1227-1248): what [information] holds after it. *)
Definition information_by_category (item : ItemDetails) : option (list Row) :=
  let category := actionableCategory item in
  if decide (category = "mergeable") then
    status ← getLaunchpadItemStatusInformation item;
    Some (RowSeparator (Some "Status") :: status
          :: getLaunchpadItemReviewInformation item)
  else if bool_decide (category ∈ ["failed-checks"; "conflicts"]) then
    status ← getLaunchpadItemStatusInformation item;
    Some [RowSeparator (Some "Status"); status]
  else if bool_decide (category ∈ ["unassigned-reviewers"; "needs-my-review";
                                   "changes-requested"; "reviewer-commented";
                                   "waiting-for-review"]) then
    Some (RowSeparator (Some "Reviewers")
          :: getLaunchpadItemReviewInformation item)
  else Some [].

(** *** [getLaunchpadItemInformationRows] (lines 1219-1263) *)
Definition getLaunchpadItemInformationRows (item : ItemDetails)
  : option (list Row) :=
  information ← information_by_category item;
  let information :=
    match codeSuggestions item with
    | Some (_ :: _) =>
        (if information is [] then information else information ++ [blank_row])
        ++ RowSeparator (Some "Suggestions")
           :: getLaunchpadItemCodeSuggestionInformation item
    | _ => information
    end in
  Some (if information is [] then information else information ++ [blank_row]).

(** The confirmation of one suggested action (the switch of lines 773-897):
    [None] for an action the switch has no case for. *)
Definition confirmation (item : ItemDetails) (action : string) : option Row :=
  let gitProviderWebButtons :=
    getOpenOnGitProviderQuickInputButtons (provider_id item) in
  let row label detail buttons :=
    Some (RowAction (createQuickPickItemOfT label None detail None buttons
                       (ActionString action))) in
  if decide (action = "merge") then
    let '(from, into) :=
      match headRepository_owner item with
      | Some owner =>
          if bool_decide (owner_ref owner ≠ owner_ref (repository_owner item))
          then
            (match headRef item with
             | Some name => owner_login owner +:+ ":" +:+ name
             | None => "these changes"
             end,
             match baseRef item with
             | Some name =>
                 " into " +:+ owner_login (repository_owner item) +:+ ":" +:+ name
             | None => ""
             end)
          else
            (default "these changes" (headRef item),
             match baseRef item with
             | Some name => if truthy_string name then " into " +:+ name else ""
             | None => ""
             end)
      | None =>
          (default "these changes" (headRef item),
           match baseRef item with
           | Some name => if truthy_string name then " into " +:+ name else ""
           | None => ""
           end)
      end in
    row "Merge..." (Some ("Will merge " +:+ from +:+ into)) gitProviderWebButtons
  else if decide (action = "open") then
    row (getOpenActionLabel (actionableCategory item) +:+ " on "
         +:+ getIntegrationTitle (provider_id item))
        None gitProviderWebButtons
  else if decide (action = "switch") then
    row "Switch to Branch"
        (Some "Will checkout the branch, create or open a worktree") []
  else if decide (action = "open-worktree") then
    row "Open in Worktree"
        (Some "Will create or open a worktree in a new window") []
  else if decide (action = "switch-and-code-suggest") then
    row ("Switch & Suggest "
         +:+ (if viewer_isAuthor item then "Additional " else "")
         +:+ "Code Changes")
        (Some "Will checkout and start suggesting code changes") []
  else if decide (action = "code-suggest") then
    row ("Suggest " +:+ (if viewer_isAuthor item then "Additional " else "")
         +:+ "Code Changes")
        (Some "Will start suggesting code changes") []
  else if decide (action = "show-overview") then
    row "Open Details"
        (Some "Will open the pull request details in the Side Bar") []
  else if decide (action = "open-changes") then
    row "Open Changes" (Some "Will open the pull request changes for review") []
  else if decide (action = "open-in-graph") then
    row "Open in Commit Graph" None []
  else None.

(** *** [getConfirmations] of the confirm step (lines 734-901)

    [None]: the function throws, on a category that [actionGroupMap] does
    not have, on an item without author, or when the information rows do. *)
Definition getConfirmations (item : ItemDetails) : option (list Row) :=
  group ← JsMap.get (actionableCategory item) actionGroupMap;
  author ← author item;
  information ← getLaunchpadItemInformationRows item;
  let gitProviderWebButtons :=
    getOpenOnGitProviderQuickInputButtons (provider_id item) in
  let pullRequest :=
    owner_login (repository_owner item) +:+ "/" +:+ repository_name item
    +:+ "#" +:+ item_id (base item) in
  Some ([ RowSeparator (Some (fromNow (updatedDate item)));
          RowAction
            (createQuickPickItemOfT
               (title (base item))
               (Some pullRequest)
               (Some (interpolate group.2 (author_username author)
                                  (fromNow (createdDate item))))
               (UriParse <$> author_avatarUrl author)
               (gitProviderWebButtons
                ++ (if isSearched item then []
                    else [ if viewer_pinned item then UnpinQuickInputButton
                           else PinQuickInputButton;
                           if viewer_snoozed item then UnsnoozeQuickInputButton
                           else SnoozeQuickInputButton ]))
               (ActionString "soft-open"));
          blank_row ]
        ++ information
        ++ [RowSeparator (Some "Actions")]
        ++ omap (confirmation item) (suggestedActions item)).

(** The value a row hands back when the user picks it. *)
Definition value_of (r : Row) : option Action :=
  match r with
  | RowAction a => Some (row_value a)
  | _ => None
  end.

(** The loop of [confirmLocalIntegrationConnectStep] (lines 998-1028): the
    connect entries, each with the integration it connects. *)
Definition connect_confirmations (connectedIntegrations : list (IntegrationId * bool))
  : list (string * string * IntegrationId) :=
  omap (λ integration,
          if truthy_bool (JsMap.get integration connectedIntegrations) then None
          else if decide (integration = GitHub) then
            Some ("Connect to GitHub...",
                  "Will connect to GitHub to provide access your pull requests and issues",
                  integration)
          else if decide (integration = GitLab) then
            Some ("Connect to GitLab...",
                  "Will connect to GitLab to provide access your pull requests and issues",
                  integration)
          else None)
       supportedLaunchpadIntegrations.

End WithHelpers.

End LaunchpadRows.

(** ** Concrete helpers and a concrete item, for running the rows *)

Module DemoRows.
Import Launchpad LaunchpadRows.

#[export] Instance helpers : Helpers := {|
  GitHub := "github";
  GitLab := "gitlab";
  GitHubEnterprise := "github-enterprise";
  GitLabSelfHosted := "gitlab-self-hosted";
  supportedLaunchpadIntegrations := ["github"; "gitlab"];
  fromNow _ := "2 days ago";
  pluralize s n := pretty n +:+ " " +:+ s +:+ (if decide (n = 1%nat) then "" else "s");
  interpolate template _ _ := template;
|}.

Definition suggestion1 : CodeSuggestion :=
  mkCodeSuggestion "cs-1" "Rename the helper" 0 "Ada" "ada@example.org" None.

(** A mergeable pull request with one approval, one code suggestion and a
    passing build. *)
Definition mergeable_item : ItemDetails :=
  mkItemDetails (mkLaunchpadItem "7" "PR_7" "Fix the parser") "mergeable"
    ["merge"; "open"; "switch"; "soft-open"; "unknown"]
    false (Some "main") (Some "fix-parser") (Some [Success]) "github"
    (Some [mkReview "bob" None Approved; mkReview "eve" None OtherReviewState])
    "bob" (Some [suggestion1]) (Some (mkAuthor "ada" None)) 0 0 false false false
    false (mkOwner 1 "gitkraken") "vscode-gitlens" None.

(** The same pull request with an empty list of build statuses. *)
Definition unbuilt_item : ItemDetails :=
  mkItemDetails (mkLaunchpadItem "7" "PR_7" "Fix the parser") "mergeable"
    ["merge"] false (Some "main") (Some "fix-parser") (Some []) "github"
    None "bob" None (Some (mkAuthor "ada" None)) 0 0 false false false
    false (mkOwner 1 "gitkraken") "vscode-gitlens" None.

End DemoRows.

(** ** The debouncer of the search refresh *)

Module AsyncDebouncer.

(** Modelled from the spec: [createAsyncDebouncer] is defined in
    [system/vscode/asyncDebouncer], outside the excerpt.  The spec describes
    "a debounced search-refresh (fixed interval) that cancels superseded
    requests via a cancellation token", "a standard debounce pattern".
    Accordingly: a call leaves its task waiting until the delay has passed
    since the call; a later call, and [cancel()], supersede what came
    before, which drops a task that is still waiting and requests
    cancellation on the token of the task that has started; a task starts
    when its delay has passed, with a cancellation token of its own.  Times
    are in milliseconds. *)
Record AsyncDebouncer (Task : Type) : Type := mkAsyncDebouncer {
  delay : Z;
  timer : option (Z * Task);     (* the waiting task and when it is due *)
  current : option nat;          (* the token of the started task, until superseded *)
  cancelled : list nat;          (* the tokens with cancellation requested *)
  next_token : nat;
}.

Arguments mkAsyncDebouncer {Task} _ _ _ _ _.
Arguments delay {Task} _.
Arguments timer {Task} _.
Arguments current {Task} _.
Arguments cancelled {Task} _.
Arguments next_token {Task} _.

(** Modelled from the spec: [createAsyncDebouncer(delay)]; nothing waits,
    nothing has started. *)
Definition createAsyncDebouncer {Task} (delay : Z) : AsyncDebouncer Task :=
  mkAsyncDebouncer delay None None [] 0.

(** Modelled from the spec: [debouncer.cancel()] drops the waiting task and
    requests cancellation on the token of the started one. *)
Definition cancel {Task} (d : AsyncDebouncer Task) : AsyncDebouncer Task :=
  mkAsyncDebouncer (delay d) None None
                   (option_list (current d) ++ cancelled d) (next_token d).

(** Modelled from the spec: [debouncer(task)], called at the time [now],
    supersedes what came before and leaves [task] waiting for the delay. *)
Definition call {Task} (now : Z) (task : Task) (d : AsyncDebouncer Task)
  : AsyncDebouncer Task :=
  let d := cancel d in
  mkAsyncDebouncer (delay d) (Some ((now + delay d)%Z, task)) None
                   (cancelled d) (next_token d).

(** Modelled from the spec: the timer elapses at the time [now] and the
    waiting task starts, with a fresh token.  [None]: no task is waiting, or
    it is not due yet. *)
Definition elapse {Task} (now : Z) (d : AsyncDebouncer Task)
  : option (Task * nat * AsyncDebouncer Task) :=
  match timer d with
  | Some (due, task) =>
      if bool_decide (due ≤ now)%Z
      then Some (task, next_token d,
                 mkAsyncDebouncer (delay d) None (Some (next_token d))
                                  (cancelled d) (S (next_token d)))
      else None
  | None => None
  end.

(** Modelled from the spec: [token.isCancellationRequested], of the host's
    [CancellationToken]. *)
Definition isCancellationRequested {Task} (token : nat) (d : AsyncDebouncer Task)
  : bool :=
  bool_decide (token ∈ cancelled d).

End AsyncDebouncer.

(** ** The refresh of the pick step, in time

    [updateItems] (lines 539-562) hands its callback to the debouncer and
    awaits; the callback awaits the two provider queries of
    [updateContextItems] (lines 1431 and 1435).  Between these points other
    handlers run.  Here each stretch of code between two awaits is one
    moment, with the time at which it happens. *)

Module LaunchpadRefresh.
Import Launchpad AsyncDebouncer.

(** The [await] a started callback stands at. *)
Inductive Await : Set :=
  | AwaitCategorizedItems            (* line 1431 *)
  | AwaitConnectedIntegrations.      (* line 1435 *)

(** A callback of [updateItems] (lines 545-558) that has started: its
    cancellation token and the [search] it closed over (line 542). *)
Record Callback : Set := mkCallback {
  token : nat;
  search : string;
  await : Await;
}.

(** The command with its pick step open: the wizard, the time of the last
    moment, [this.updateItemsDebouncer], whose tasks are the callbacks, here
    given by the [search] they close over, and the callbacks that have
    started and not yet returned. *)
Record Live : Type := mkLive {
  wizard : Wizard;
  clock : Z;
  updateItemsDebouncer : AsyncDebouncer string;
  callbacks : list Callback;
}.

Inductive Moment : Set :=
  | SetValue (value : string)        (* the host: the search box changes *)
  | SetItems (items : list PickItem) (* a handler assigns [quickpick.items]
                                        (lines 595, 626) *)
  | UpdateItems                      (* [updateItems(quickpick)] is called
                                        (lines 635, 661, 713) *)
  | CancelDebouncer                  (* [this.updateItemsDebouncer.cancel()]
                                        (lines 600, 630) *)
  | TimerElapses                     (* the waiting callback starts *)
  | CategorizedItems (token : nat) (result : LaunchpadCategorizedResult)
                                     (* the query of line 1431 resolves *)
  | ConnectedIntegrations (token : nat) (connected : list (IntegrationId * bool))
                                     (* the query of line 1435 resolves *)
  | Settled.                         (* the promise awaited at line 545
                                        settles *)

(** Moments that leave the debouncer's timer alone. *)
Definition waits (m : Moment) : bool :=
  match m with
  | UpdateItems | CancelDebouncer | TimerElapses => false
  | _ => true
  end.

(** Moments that supersede the requests made so far. *)
Definition supersedes (m : Moment) : bool :=
  match m with
  | UpdateItems | CancelDebouncer => true
  | _ => false
  end.

(** What the debouncer and the started callbacks have to do with each
    other: the delay is the one of line 154; while a callback waits none is
    current; a started callback without cancellation requested is the
    current one; and tokens in use have been handed out. *)
Definition consistent (s : Live) : Prop :=
  let d := updateItemsDebouncer s in
  delay d = updateItemsDebouncer_delay
  ∧ (is_Some (timer d) → current d = None)
  ∧ (∀ c, c ∈ callbacks s → isCancellationRequested (token c) d = false →
          current d = Some (token c))
  ∧ (∀ c, c ∈ callbacks s → token c < next_token d)
  ∧ (∀ tok, tok ∈ cancelled d → tok < next_token d)
  ∧ (∀ tok, current d = Some tok → tok < next_token d).

(** The first pick step opens at the time [now]: the debouncer is as the
    command was constructed with it (line 154), nothing waits and nothing
    has started. *)
Definition opens (now : Z) (w : Wizard) : Live :=
  mkLive w now (createAsyncDebouncer updateItemsDebouncer_delay) [].

Definition set_wizard (s : Live) (now : Z) (w : Wizard) : Live :=
  mkLive w now (updateItemsDebouncer s) (callbacks s).

(** Lines 542-545: [updateItems] up to its [await]. *)
Definition updateItems_call (now : Z) (s : Live) : Live :=
  let search := qp_value (quickpick (wizard s)) in
  mkLive (set_busy true (wizard s)) now
         (call now search (updateItemsDebouncer s)) (callbacks s).

(** Lines 545-546 and 1431: the callback starts and issues its query. *)
Definition callback_start (now : Z) (s : Live) : option Live :=
  '(search, token, d) ← elapse now (updateItemsDebouncer s);
  Some (mkLive (emit (wizard s)
                     (Call (getCategorizedItems (Some true) (Some search) true)))
               now d
               (callbacks s ++ [mkCallback token search AwaitCategorizedItems])).

(** The started callback with the token [tok]. *)
Definition callback_of (tok : nat) (s : Live) : option Callback :=
  head (filter (λ c, token c = tok) (callbacks s)).

(** Lines 1431-1435: the first query has resolved to [r]; the callback
    stores it and issues the second. *)
Definition categorizedItems_resolved (now : Z) (tok : nat)
    (r : LaunchpadCategorizedResult) (s : Live) : option Live :=
  c ← callback_of tok s;
  if await c is AwaitCategorizedItems then
    let w := wizard s in
    let w := set_context w (mkContext r (collapsed (context w))
                                      (connectedIntegrations (context w))) in
    let w := emit w (Call getConnectedIntegrations) in
    Some (mkLive w now (updateItemsDebouncer s)
                 ((λ c, if decide (token c = tok)
                        then mkCallback tok (search c) AwaitConnectedIntegrations
                        else c) <$> callbacks s))
  else None.

Section WithProvider.
Context `{LaunchpadProvider}.

(** Lines 1435 and 552-557: the second query has resolved; the callback
    stores it, tests its token and, unless cancellation is requested, sets
    the placeholder and the entries. *)
Definition connectedIntegrations_resolved (now : Z) (tok : nat)
    (connected : list (IntegrationId * bool)) (s : Live) : option Live :=
  c ← callback_of tok s;
  if await c is AwaitConnectedIntegrations then
    let w := wizard s in
    let w := set_context w (mkContext (result (context w))
                                      (collapsed (context w)) connected) in
    let w :=
      if isCancellationRequested tok (updateItemsDebouncer s) then w
      else
        let '(placeholder, items) :=
          getItemsAndPlaceholder (context w) (pickStep w)
                                 (Some (truthy_string (search c))) in
        set_quickpick w
          (mkQuickPick
             (if truthy_string (search c)
              then combineQuickpickItemsWithSearchResults
                     (qp_items (quickpick w)) items
              else items)
             placeholder (qp_busy (quickpick w)) (qp_value (quickpick w))) in
    Some (mkLive w now (updateItemsDebouncer s)
                 (filter (λ c, token c ≠ tok) (callbacks s)))
  else None.

(** One moment at the time [now].  [None]: time does not run backwards, and
    a moment that is not due cannot happen. *)
Definition live_step (s : Live) (e : Z * Moment) : option Live :=
  let '(now, m) := e in
  if bool_decide (clock s ≤ now)%Z then
    let q := quickpick (wizard s) in
    match m with
    | SetValue value =>
        Some (set_wizard s now
                (set_quickpick (wizard s)
                   (mkQuickPick (qp_items q) (qp_placeholder q) (qp_busy q) value)))
    | SetItems items =>
        Some (set_wizard s now
                (set_quickpick (wizard s)
                   (mkQuickPick items (qp_placeholder q) (qp_busy q) (qp_value q))))
    | UpdateItems => Some (updateItems_call now s)
    | CancelDebouncer =>
        Some (mkLive (wizard s) now (cancel (updateItemsDebouncer s)) (callbacks s))
    | TimerElapses => callback_start now s
    | CategorizedItems tok r => categorizedItems_resolved now tok r s
    | ConnectedIntegrations tok connected =>
        connectedIntegrations_resolved now tok connected s
    | Settled => Some (set_wizard s now (set_busy false (wizard s)))   (* line 560 *)
    end
  else None.

Fixpoint live_run (s : Live) (es : list (Z * Moment)) : option Live :=
  match es with
  | [] => Some s
  | e :: es' => s' ← live_step s e; live_run s' es'
  end.

End WithProvider.

End LaunchpadRefresh.

(** A search on the concrete provider. *)

Module DemoRefresh.
Import Launchpad LaunchpadRefresh Demo.

Definition pr3 : LaunchpadItem := mkLaunchpadItem "3" "PR_3" "Rewrite the parser".

(** The pull-request entries of the step, which [onDidChangeValue] puts
    back when the search box holds a text (lines 583 and 595). *)
Definition entries (w : Wizard) : list PickItem :=
  filter (λ i, is_Some (item_of i)) (qp_items (quickpick w)).

(** The user types "parse" one second after the step opened and "parser"
    200 ms later; the callback of the second call starts when its 500 ms
    have passed, and the first query resolves. *)
Definition typing (w : Wizard) : list (Z * Moment) :=
  [ (1000, SetValue "parse"); (1000, SetItems (entries w)); (1000, UpdateItems);
    (1200, SetValue "parser"); (1200, SetItems (entries w)); (1200, UpdateItems);
    (1700, TimerElapses);
    (1900, CategorizedItems 0 (ResultItems [pr3])) ]%Z.

End DemoRefresh.

(** * Properties of the grouped SCM view switcher *)

Section ScmGroupedViewFacts.
Import ScmGroupedView.

(** Runs the monadic code symbolically. *)
Ltac st_run :=
  unfold setView, set_lastSelectedScmGroupedView, dispose_view, set_view,
    ScmGroupedView.emit, mbind, mret, St_bind, St_ret, st_get, st_modify;
  cbn -[getView fallback].

(** [getView] constructs a fresh grouped view of the corresponding class. *)
Lemma getView_Some (t : GroupableTreeViewTypes) (this : This) :
  let v := mkTreeView (corresponding_constructor t) true (next_id this) in
  getView (Some t) this =
    (Some v,
     mkThis (included this) (lastSelectedScmGroupedView this) (_view this)
            (S (next_id this)) (effects this ++ [Construct v])).
Proof. by destruct t. Qed.

Lemma view_type_corresponding t b n :
  view_type (mkTreeView (corresponding_constructor t) b n) = t.
Proof. by destruct t. Qed.

Lemma fallback_included incl t : t ∈ incl → fallback incl (Some t) = Some t.
Proof. intros Hin. unfold fallback, includes. by rewrite bool_decide_eq_true_2. Qed.

Lemma fallback_excluded incl t : t ∉ incl → fallback incl (Some t) = head incl.
Proof. intros Hin. unfold fallback, includes. by rewrite bool_decide_eq_false_2. Qed.

(** [setView] only looks at its argument through [fallback]. *)
Lemma setView_fallback type type' this :
  fallback (included this) type = fallback (included this) type' →
  setView type this = setView type' this.
Proof. intros Heq. st_run. by rewrite Heq. Qed.

(** The early return: the held view already has the requested type. *)
Lemma setView_same type this :
  view_type <$> _view this = fallback (included this) type →
  setView type this =
    (_view this,
     mkThis (included this) (fallback (included this) type) (_view this)
            (next_id this)
            (effects this ++ [PersistLastSelected (fallback (included this) type)])).
Proof.
  intros Heq. st_run. by rewrite bool_decide_eq_true_2.
Qed.

(** The switch: the held view, if any, is disposed, then the new one is
    constructed. *)
Lemma setView_switch type t this :
  fallback (included this) type = Some t →
  view_type <$> _view this ≠ Some t →
  let v := mkTreeView (corresponding_constructor t) true (next_id this) in
  setView type this =
    (Some v,
     mkThis (included this) (Some t) (Some v) (S (next_id this))
            (effects this
             ++ [PersistLastSelected (Some t); SetContext (Some t)]
             ++ match _view this with Some old => [Dispose old] | None => [] end
             ++ [Construct v])).
Proof.
  intros Hfb Hne v.
  st_run. rewrite Hfb, bool_decide_eq_false_2 by done.
  destruct (_view this) as [old|] eqn:Hold; cbn -[getView];
    rewrite getView_Some; cbn; by rewrite <- !(assoc_L (++)).
Qed.

(** C1.  A type tag that is not in [included] is treated as [included[0]]:
    [setView] does exactly what it does for the first included type, which
    is persisted as the last-selected view and is the type of the view held
    and returned afterwards (for a non-empty [included]). *)
Theorem setView_disallowed_falls_back
    (this : This) (t first : GroupableTreeViewTypes)
    (rest : list GroupableTreeViewTypes) :
  included this = first :: rest →
  t ∉ included this →
  setView (Some t) this = setView (Some first) this
  ∧ lastSelectedScmGroupedView (setView (Some t) this).2 = Some first
  ∧ ∃ v, (setView (Some t) this).1 = Some v
       ∧ _view (setView (Some t) this).2 = Some v
       ∧ view_type v = first.
Proof.
  intros Hincl Hnot.
  assert (Hfb : fallback (included this) (Some t) = Some first).
  { rewrite fallback_excluded by done. by rewrite Hincl. }
  assert (Hfb' : fallback (included this) (Some first) = Some first).
  { apply fallback_included. rewrite Hincl. apply list_elem_of_here. }
  split; [apply setView_fallback; congruence|].
  destruct (decide (view_type <$> _view this = Some first)) as [Hsame|Hdiff].
  - rewrite setView_same by congruence. cbn. rewrite Hfb. split; [done|].
    destruct (_view this) as [v|]; [|done].
    exists v. injection Hsame as Hsame. done.
  - rewrite (setView_switch _ _ _ Hfb Hdiff). cbn. split; [done|].
    eexists. split; [done|]. split; [done|]. apply view_type_corresponding.
Qed.

Lemma setView_disallowed_falls_back_witness :
  let this := (constructor [commits; branches] None 0).2 in
  setView (Some tags) this = setView (Some commits) this
  ∧ lastSelectedScmGroupedView (setView (Some tags) this).2 = Some commits
  ∧ ∃ v, (setView (Some tags) this).1 = Some v
       ∧ _view (setView (Some tags) this).2 = Some v
       ∧ view_type v = commits.
Proof.
  apply (setView_disallowed_falls_back _ tags commits [branches]).
  - reflexivity.
  - apply (bool_decide_unpack _). vm_compute. exact I.
Defined.

(** C3.  [setView] is a nine-way switch.  On every call the chosen tag
    (the requested one, or the first included one when the request is not
    included) is persisted to [views.lastSelectedScmGroupedView], first of
    all.  On a call that changes the shown view, the view returned and held
    afterwards is a fresh grouped instance of the constructor corresponding
    to the chosen tag, and the previously held view, if there is one, is
    disposed before the new one is constructed. *)
Theorem setView_nine_way_switch
    (this : This) (t first : GroupableTreeViewTypes)
    (rest : list GroupableTreeViewTypes) :
  included this = first :: rest →
  let chosen := if bool_decide (t ∈ included this) then t else first in
  let new := mkTreeView (corresponding_constructor chosen) true (next_id this) in
  corresponding_constructor <$>
    [branches; commits; contributors; remotes; repositories; searchAndCompare;
     stashes; tags; worktrees]
  = [BranchesView; CommitsView; ContributorsView; RemotesView;
     RepositoriesView; SearchAndCompareView; StashesView; TagsView;
     WorktreesView]
  ∧ lastSelectedScmGroupedView (setView (Some t) this).2 = Some chosen
  ∧ (∃ l, effects (setView (Some t) this).2
          = effects this ++ PersistLastSelected (Some chosen) :: l)
  ∧ (view_type <$> _view this ≠ Some chosen →
     (setView (Some t) this).1 = Some new
     ∧ _view (setView (Some t) this).2 = Some new
     ∧ effects (setView (Some t) this).2
       = effects this
         ++ [PersistLastSelected (Some chosen); SetContext (Some chosen)]
         ++ match _view this with Some old => [Dispose old] | None => [] end
         ++ [Construct new]).
Proof.
  intros Hincl chosen new. split; [reflexivity|].
  assert (Hfb : fallback (included this) (Some t) = Some chosen).
  { subst chosen. case_bool_decide as Hin.
    - by apply fallback_included.
    - rewrite fallback_excluded by done. by rewrite Hincl. }
  destruct (decide (view_type <$> _view this = Some chosen)) as [Hsame|Hdiff].
  - rewrite setView_same by congruence. cbn. rewrite Hfb.
    split; [done|]. split; [by eexists|]. done.
  - rewrite (setView_switch _ _ _ Hfb Hdiff). cbn.
    split; [done|]. split; [by eexists|]. done.
Qed.

Lemma setView_nine_way_switch_witness :
  let this := (constructor [commits; branches] None 0).2 in
  lastSelectedScmGroupedView (setView (Some branches) this).2 = Some branches
  ∧ effects (setView (Some branches) this).2
    = effects this
      ++ [PersistLastSelected (Some branches); SetContext (Some branches);
          Dispose (mkTreeView CommitsView true 0);
          Construct (mkTreeView BranchesView true 1)].
Proof.
  intros this.
  destruct (setView_nine_way_switch this branches commits [branches] eq_refl)
    as (_ & Hlast & _ & Hswitch).
  split; [exact Hlast|].
  apply Hswitch. vm_compute. discriminate.
Defined.

(** C8.  When the view already shown has the requested type (after the
    fallback), [setView] returns that very view: nothing is disposed,
    nothing is constructed, no context key is set; the only thing that
    happens is that the last-selected tag is persisted again. *)
Theorem setView_shown_type_returns_held_view
    (this : This) (t : GroupableTreeViewTypes) (v : TreeView) :
  _view this = Some v →
  fallback (included this) (Some t) = Some (view_type v) →
  setView (Some t) this =
    (Some v,
     mkThis (included this) (Some (view_type v)) (Some v) (next_id this)
            (effects this ++ [PersistLastSelected (Some (view_type v))])).
Proof.
  intros Hview Hfb. rewrite setView_same; rewrite Hview, Hfb; done.
Qed.

Lemma setView_shown_type_returns_held_view_witness :
  let this := (constructor [commits; branches] None 0).2 in
  let v := mkTreeView CommitsView true 0 in
  setView (Some tags) this =
    (Some v,
     mkThis (included this) (Some commits) (Some v) (next_id this)
            (effects this ++ [PersistLastSelected (Some commits)])).
Proof.
  intros this v.
  apply (setView_shown_type_returns_held_view this tags v); reflexivity.
Defined.

(** X1.  Calling [setView] twice with the same tag: the second call returns what
    the first returned and only persists the tag once more. *)
Lemma setView_twice (this : This) (type : option GroupableTreeViewTypes) :
  let r := setView type this in
  setView type r.2 =
    (r.1, mkThis (included r.2) (lastSelectedScmGroupedView r.2) (_view r.2)
                 (next_id r.2)
                 (effects r.2
                  ++ [PersistLastSelected (fallback (included this) type)])).
Proof.
  intros r. subst r.
  destruct (decide (view_type <$> _view this = fallback (included this) type))
    as [Hsame|Hdiff].
  - rewrite (setView_same type this Hsame). cbn.
    rewrite setView_same; cbn; [|done]. done.
  - destruct (fallback (included this) type) as [t|] eqn:Hfb.
    + rewrite (setView_switch _ _ _ Hfb Hdiff). cbn.
      rewrite setView_same; cbn; rewrite Hfb; [done|].
      by rewrite view_type_corresponding.
    + destruct (_view this) as [old|] eqn:Hold; [|done].
      assert (Hset : setView type this =
                (None, mkThis (included this) None None (next_id this)
                         (effects this ++ [PersistLastSelected None;
                                           SetContext None; Dispose old]))).
      { st_run. rewrite Hfb, Hold. cbn.
        rewrite bool_decide_eq_false_2 by done. cbn.
        by rewrite <- !(assoc_L (++)). }
      rewrite Hset. cbn. rewrite setView_same; cbn; rewrite Hfb; done.
Qed.

End ScmGroupedViewFacts.

(** * Properties of the Launchpad wizard *)

Section LaunchpadFacts.
Import Launchpad.
Context `{LaunchpadProvider}.

(** ** Building the entries and the placeholder *)

(** C2.  When the current result carries an error, the item-pick step
    builds the placeholder "Unable to load items (...)" around the
    stringified error, prefixed by the status for an [HttpError] with a
    numeric status, and a list of exactly one entry, the Cancel directive
    labelled OK; in particular no pull-request entry.  That is what the
    picker shows when the step opens on such a result and when it is
    refreshed with an empty search box.  A refresh with a text in the search
    box sets the same placeholder but merges the built list into the entries
    shown (line 557), which leaves them exactly as they were: the Cancel
    entry is not added, and pull-request entries that were listed stay. *)
Theorem getItemsAndPlaceholder_error
    (ctx : Context) (ps : PickStep) (isSearching : option bool)
    (error : JsError) :
  result ctx = ResultError error →
  (∀ n, status error = StatusNumber n → safe_integer n) →
  let placeholder :=
    "Unable to load items ("
    +:+ match status error with
        | StatusNumber n =>
            if decide (name error = "HttpError")
            then pretty n +:+ ": " +:+ String_of_error error
            else String_of_error error
        | _ => String_of_error error
        end
    +:+ ")" in
  let items :=
    [DirectiveItem (createDirectiveQuickPickItem Cancel None "OK" None)] in
  getItemsAndPlaceholder ctx ps isSearching = (placeholder, items)
  ∧ (∀ p, LaunchpadPick p ∉ items)
  ∧ (∀ force f w,
       fetched_result f = ResultError error →
       state_item (state w) = None →
       quickpick (steps_iteration force f w)
         = mkQuickPick items placeholder false "")
  ∧ (∀ f w,
       fetched_result f = ResultError error →
       qp_value (quickpick w) = "" →
       quickpick (updateItems (Invoked f false) w)
         = mkQuickPick items placeholder false "")
  ∧ (∀ f w,
       fetched_result f = ResultError error →
       qp_value (quickpick w) ≠ "" →
       quickpick (updateItems (Invoked f false) w)
         = mkQuickPick (qp_items (quickpick w)) placeholder false
                       (qp_value (quickpick w))).
Proof.
  intros Herr _ placeholder items.
  split; [unfold getItemsAndPlaceholder; by rewrite Herr|].
  split; [intros p Hin; apply list_elem_of_singleton in Hin; discriminate|].
  split; [|split].
  - intros force f w Hf Hitem.
    unfold steps_iteration, updateContextItems. cbn. rewrite Hitem.
    rewrite orb_true_r. unfold getItemsAndPlaceholder. cbn. by rewrite Hf.
  - intros f w Hf Hvalue.
    unfold updateItems, updateContextItems, getItemsAndPlaceholder. cbn.
    by rewrite Hf, Hvalue.
  - intros f w Hf Hvalue.
    unfold updateItems, updateContextItems, getItemsAndPlaceholder. cbn.
    assert (Hs : truthy_string (qp_value (quickpick w)) = true)
      by by apply bool_decide_eq_true_2.
    rewrite Hf. cbn. rewrite Hs.
    unfold combineQuickpickItemsWithSearchResults. cbn.
    by rewrite app_nil_r.
Qed.

(** C9.  When the current result has no error and no items, the item-pick
    step builds the placeholder "All done! Take a vacation" and a list of
    exactly one entry, the Cancel directive labelled OK.  That is what the
    picker shows when the step opens on such a result and when it is
    refreshed with an empty search box.  A refresh with a text in the search
    box sets the same placeholder but merges the built list into the entries
    shown (line 557), which leaves them exactly as they were.  The
    placeholder differs from every placeholder of the error case. *)
Theorem getItemsAndPlaceholder_empty
    (ctx : Context) (ps : PickStep) (isSearching : option bool) :
  result ctx = ResultItems [] →
  let placeholder := "All done! Take a vacation" in
  let items :=
    [DirectiveItem (createDirectiveQuickPickItem Cancel None "OK" None)] in
  getItemsAndPlaceholder ctx ps isSearching = (placeholder, items)
  ∧ (∀ force f w,
       fetched_result f = ResultItems [] →
       state_item (state w) = None →
       quickpick (steps_iteration force f w)
         = mkQuickPick items placeholder false "")
  ∧ (∀ f w,
       fetched_result f = ResultItems [] →
       qp_value (quickpick w) = "" →
       quickpick (updateItems (Invoked f false) w)
         = mkQuickPick items placeholder false "")
  ∧ (∀ f w,
       fetched_result f = ResultItems [] →
       qp_value (quickpick w) ≠ "" →
       quickpick (updateItems (Invoked f false) w)
         = mkQuickPick (qp_items (quickpick w)) placeholder false
                       (qp_value (quickpick w)))
  ∧ (∀ ctx' ps' isSearching' error,
       result ctx' = ResultError error →
       (getItemsAndPlaceholder ctx' ps' isSearching').1
         ≠ (getItemsAndPlaceholder ctx ps isSearching).1).
Proof.
  intros Hempty placeholder items.
  split; [unfold getItemsAndPlaceholder; by rewrite Hempty|].
  split; [|split; [|split]].
  - intros force f w Hf Hitem.
    unfold steps_iteration, updateContextItems. cbn. rewrite Hitem.
    rewrite orb_true_r. unfold getItemsAndPlaceholder. cbn. by rewrite Hf.
  - intros f w Hf Hvalue.
    unfold updateItems, updateContextItems, getItemsAndPlaceholder. cbn.
    by rewrite Hf, Hvalue.
  - intros f w Hf Hvalue.
    unfold updateItems, updateContextItems, getItemsAndPlaceholder. cbn.
    assert (Hs : truthy_string (qp_value (quickpick w)) = true)
      by by apply bool_decide_eq_true_2.
    rewrite Hf. cbn. rewrite Hs.
    unfold combineQuickpickItemsWithSearchResults. cbn.
    by rewrite app_nil_r.
  - intros ctx' ps' isSearching' error Herr.
    unfold getItemsAndPlaceholder. rewrite Herr, Hempty. cbn. discriminate.
Qed.

(** During a search the built list is merged into the entries already
    shown: of an error or empty result only the placeholder arrives, the
    entries stay. *)
Lemma updateItems_search_keeps_shown_entries (w : Wizard) (f : Fetched) :
  qp_value (quickpick w) ≠ "" →
  (∀ items, fetched_result f ≠ ResultItems items) ∨ fetched_result f = ResultItems [] →
  qp_items (quickpick (updateItems (Invoked f false) w)) = qp_items (quickpick w).
Proof.
  intros Hvalue Hf.
  unfold updateItems, updateContextItems, getItemsAndPlaceholder. cbn.
  assert (Hs : truthy_string (qp_value (quickpick w)) = true)
    by by apply bool_decide_eq_true_2.
  destruct (fetched_result f) as [[|i items]|error]; cbn; rewrite Hs.
  - unfold combineQuickpickItemsWithSearchResults. cbn. apply app_nil_r.
  - destruct Hf as [Hf|Hf]; [by destruct (Hf (i :: items))|done].
  - unfold combineQuickpickItemsWithSearchResults. cbn. apply app_nil_r.
Qed.

(** ** Dispatching the chosen action *)

Lemma log_emit_calls (w : Wizard) (calls : list LaunchpadCall) :
  log (foldl (λ w c, emit w (Call c)) w calls) = log w ++ (Call <$> calls).
Proof.
  revert w. induction calls as [|c calls IH]; intros w; cbn.
  - by rewrite app_nil_r.
  - rewrite IH. cbn. by rewrite <- app_assoc.
Qed.

(** What [steps_dispatch] adds to the log. *)
Lemma steps_dispatch_log (w : Wizard) (gi : GroupedLaunchpadItem) :
  state_item (state w) = Some gi →
  let d := dispatch (state_action (state w)) (grouped_item gi) in
  ∃ w', steps_dispatch w = Some w'
      ∧ log w' = log w ++ (Call <$> d.1) ++ (if d.2 then [EndSteps] else []).
Proof.
  intros Hitem d. unfold steps_dispatch. rewrite Hitem. cbn.
  fold d. destruct d as [calls [|]]; eexists; (split; [reflexivity|]); cbn.
  - rewrite log_emit_calls. by rewrite <- app_assoc.
  - rewrite log_emit_calls. by rewrite app_nil_r.
Qed.

(** C6.  With an item selected, each action makes the wizard call exactly
    the provider method it names: the table lists, for every action of the
    claim, the calls that are logged. *)
Theorem dispatch_calls_named_method
    (w : Wizard) (gi : GroupedLaunchpadItem) (a : Action)
    (calls : list LaunchpadCall) (target : string) :
  let item := grouped_item gi in
  state_item (state w) = Some gi →
  state_action (state w) = Some a →
  (a, calls) ∈
    [ (ActionString "merge", [merge item]);
      (ActionString "open", [open item]);
      (ActionString "soft-open", [open item]);
      (ActionString "switch", [switchTo item None]);
      (ActionString "show-overview", [switchTo item None]);
      (ActionString "open-worktree",
         [switchTo item (Some (mkSwitchToOptions (Some true) None))]);
      (ActionString "switch-and-code-suggest",
         [switchTo item (Some (mkSwitchToOptions None (Some true)))]);
      (ActionString "code-suggest",
         [switchTo item (Some (mkSwitchToOptions None (Some true)))]);
      (ActionString "open-changes", [openChanges item]);
      (ActionString "open-in-graph", [openInGraph item]);
      (ActionTarget "open-suggestion" target,
         [openCodeSuggestion item target]) ] →
  dispatch (Some a) item
    = (calls, bool_decide (a ≠ ActionString "soft-open"))
  ∧ ∃ w', steps_dispatch w = Some w'
        ∧ log w' = log w ++ (Call <$> calls)
                   ++ (if decide (a = ActionString "soft-open") then []
                       else [EndSteps]).
Proof.
  intros item Hitem Haction Hin.
  assert (Hd : dispatch (Some a) item
               = (calls, bool_decide (a ≠ ActionString "soft-open"))).
  { repeat (apply elem_of_cons in Hin as [Hin|Hin];
            [injection Hin as -> ->; reflexivity|]).
    by apply elem_of_nil in Hin. }
  split; [exact Hd|].
  destruct (steps_dispatch_log w gi Hitem) as (w' & Hw' & Hlog).
  exists w'. split; [exact Hw'|].
  rewrite Hlog, Haction. fold item. rewrite Hd. cbn.
  destruct (decide (a = ActionString "soft-open")) as [Hsoft|Hsoft].
  - rewrite bool_decide_eq_false_2; [done|]. by intros Hne.
  - by rewrite bool_decide_eq_true_2.
Qed.

(** ** The debounced refresh *)

(** In the untimed model: a request whose cancellation token is cancelled,
    like one whose callback never starts, leaves the picker's entries and
    placeholder as they were. *)
Lemma updateItems_cancelled_keeps_picker (w : Wizard) (f : Fetched) :
  updateItemsDebouncer_delay = 500%Z
  ∧ qp_items (quickpick (updateItems (Invoked f true) w))
    = qp_items (quickpick w)
  ∧ qp_placeholder (quickpick (updateItems (Invoked f true) w))
    = qp_placeholder (quickpick w)
  ∧ qp_items (quickpick (updateItems Superseded w)) = qp_items (quickpick w)
  ∧ qp_placeholder (quickpick (updateItems Superseded w))
    = qp_placeholder (quickpick w)
  ∧ qp_busy (quickpick (updateItems (Invoked f true) w)) = false.
Proof. repeat split. Qed.

(** ** Steps that leave the storage and the collapsed map alone *)

Ltac quiet_nil :=
  repeat split; exists []; split; [by rewrite app_nil_r | constructor].

Lemma quiet_refl (w : Wizard) : quiet w w.
Proof. quiet_nil. Qed.

Lemma quiet_trans (w1 w2 w3 : Wizard) : quiet w1 w2 → quiet w2 w3 → quiet w1 w3.
Proof.
  intros (Hs1 & Hi1 & Hc1 & l1 & Hl1 & Hf1) (Hs2 & Hi2 & Hc2 & l2 & Hl2 & Hf2).
  repeat split; [congruence..|].
  exists (l1 ++ l2). split.
  - by rewrite Hl2, Hl1, app_assoc.
  - by apply Forall_app.
Qed.

Lemma quiet_emit (w : Wizard) (e : Effect) :
  is_store e = false → quiet w (emit w e).
Proof. intros He. repeat split. exists [e]. split; [done|]. by constructor. Qed.

Lemma quiet_set_quickpick (w : Wizard) (q : QuickPick) : quiet w (set_quickpick w q).
Proof. quiet_nil. Qed.

Lemma quiet_emit_calls (w : Wizard) (calls : list LaunchpadCall) :
  quiet w (foldl (λ w c, emit w (Call c)) w calls).
Proof.
  revert w. induction calls as [|c calls IH]; intros w; cbn.
  - apply quiet_refl.
  - eapply quiet_trans; [|apply IH]. by apply quiet_emit.
Qed.

Lemma updateContextItems_quiet force search cancellation f (w : Wizard) :
  quiet w (updateContextItems force search cancellation f w).
Proof.
  repeat split. eexists [_; _]. cbn. split; [by rewrite <- app_assoc|].
  by repeat constructor.
Qed.

Lemma updateItems_quiet (o : DebouncerOutcome) (w : Wizard) :
  quiet w (updateItems o w).
Proof.
  unfold updateItems, set_busy.
  eapply quiet_trans; [|apply quiet_set_quickpick].
  eapply quiet_trans; [apply (quiet_set_quickpick w)|].
  destruct o as [|f [|]].
  - apply quiet_refl.
  - apply updateContextItems_quiet.
  - destruct (getItemsAndPlaceholder _ _ _) as [placeholder items].
    eapply quiet_trans; [apply updateContextItems_quiet|].
    apply quiet_set_quickpick.
Qed.

Lemma onDidClickButton_quiet button o (w : Wizard) :
  quiet w (onDidClickButton button o w).
Proof.
  destruct button; cbn;
    try apply quiet_refl; try (by apply quiet_emit); apply updateItems_quiet.
Qed.

Lemma onDidClickItemButton_quiet button entry o (w : Wizard) :
  quiet w (onDidClickItemButton button entry o w).
Proof.
  unfold onDidClickItemButton.
  destruct button; try (by apply quiet_emit);
    (destruct (item_of entry) as [item|]; [|apply quiet_refl]);
    try apply updateItems_quiet;
    (eapply quiet_trans; [|apply updateItems_quiet]); by apply quiet_emit.
Qed.

Lemma steps_dispatch_quiet (w w' : Wizard) :
  steps_dispatch w = Some w' → quiet w w'.
Proof.
  unfold steps_dispatch. destruct (state_item (state w)) as [gi|]; [|done].
  cbn. destruct (dispatch _ _) as [calls ends]. intros [= <-].
  destruct ends.
  - eapply quiet_trans; [apply quiet_emit_calls|]. by apply quiet_emit.
  - eapply quiet_trans; [apply quiet_emit_calls|]. quiet_nil.
Qed.

Lemma steps_iteration_quiet force f (w : Wizard) :
  quiet w (steps_iteration force f w).
Proof.
  unfold steps_iteration.
  destruct (_ || _); [|apply updateContextItems_quiet].
  destruct (getItemsAndPlaceholder _ _ _) as [placeholder items].
  apply (updateContextItems_quiet _ _ _ f w).
Qed.

Lemma confirmed_quiet a (w w' : Wizard) : confirmed a w = Some w' → quiet w w'.
Proof.
  unfold confirmed. destruct (state_item (state w)) as [gi|]; [|done].
  cbn. intros [= <-].
  apply (quiet_emit w (Call (ensureLaunchpadItemCodeSuggestions (grouped_item gi)))).
  done.
Qed.

Lemma select_cases (n : nat) (w w' : Wizard) :
  select n w = Some w' →
  quiet w w'
  ∨ ∃ d ui, DirectiveItem d ∈ qp_items (quickpick w)
          ∧ onDidSelect_of d = Some (ToggleGroup ui)
          ∧ w' = onDidSelect (ToggleGroup ui) w.
Proof.
  unfold select.
  destruct (qp_items (quickpick w) !! n) as [entry|] eqn:Hentry; [|done].
  cbn. intros [= <-].
  destruct entry as [l|d|p|]; try (left; quiet_nil).
  destruct (onDidSelect_of d) as [[ui]|] eqn:Hd; [|left; quiet_nil].
  right. exists d, ui. split; [|done].
  by apply list_elem_of_lookup_2 in Hentry.
Qed.

(** A step either is quiet or is the toggle of a listed heading. *)
Lemma step_cases (w w' : Wizard) (e : Event) :
  step w e = Some w' →
  quiet w w'
  ∨ ∃ d ui, DirectiveItem d ∈ qp_items (quickpick w)
          ∧ onDidSelect_of d = Some (ToggleGroup ui)
          ∧ w' = onDidSelect (ToggleGroup ui) w.
Proof.
  destruct e as [force f|n|value o|button o|button n o|a|]; cbn.
  - intros [= <-]. left. apply steps_iteration_quiet.
  - apply select_cases.
  - intros [= <-]. left.
    eapply quiet_trans; [|apply updateItems_quiet]. quiet_nil.
  - intros [= <-]. left. apply onDidClickButton_quiet.
  - destruct (qp_items (quickpick w) !! n) as [entry|]; [|done].
    intros [= <-]. left. apply onDidClickItemButton_quiet.
  - intros Hc. left. by apply (confirmed_quiet a).
  - intros Hd. left. by apply steps_dispatch_quiet.
Qed.

(** Any run preserves what quiet steps and heading toggles preserve. *)
Lemma run_invariant (P : Wizard → Prop) :
  (∀ w w', quiet w w' → P w → P w') →
  (∀ w d ui, P w → DirectiveItem d ∈ qp_items (quickpick w) →
             onDidSelect_of d = Some (ToggleGroup ui) →
             P (onDidSelect (ToggleGroup ui) w)) →
  ∀ es w w', P w → run w es = Some w' → P w'.
Proof.
  intros Hquiet Htoggle es.
  induction es as [|e es IH]; intros w w' HP; cbn.
  - by intros [= <-].
  - destruct (step w e) as [w1|] eqn:Hstep; [|done]. cbn.
    apply IH.
    destruct (step_cases _ _ _ Hstep) as [Hq|(d & ui & Hin & Hd & ->)].
    + by apply (Hquiet w).
    + by apply (Htoggle w d ui).
Qed.

(** ** The collapsed map as a JavaScript [Map] *)

Lemma JsMap_get_keys {V} (k : string) (v : V) (m : list (string * V)) :
  JsMap.get k m = Some v → k ∈ JsMap.keys m.
Proof.
  induction m as [|[k' v'] m IH]; [done|]. cbn.
  destruct (decide (k' = k)) as [->|Hne].
  - intros _. apply list_elem_of_here.
  - intros Hget. apply list_elem_of_further. by apply IH.
Qed.

Lemma JsMap_keys_set {V} (k : string) (v : V) (m : list (string * V)) (g : string) :
  g ∈ JsMap.keys (JsMap.set k v m) → g = k ∨ g ∈ JsMap.keys m.
Proof.
  induction m as [|[k' v'] m IH]; cbn.
  - intros Hin. apply list_elem_of_singleton in Hin. by left.
  - destruct (decide (k' = k)) as [->|Hne]; cbn.
    + intros Hin. by right.
    + intros Hin. apply elem_of_cons in Hin as [->|Hin].
      * right. apply list_elem_of_here.
      * destruct (IH Hin) as [->|Hm]; [by left|].
        right. by apply list_elem_of_further.
Qed.

Lemma JsMap_keys_foldl_set {V} (f : string → V) (l : list string)
    (m : list (string * V)) (g : string) :
  g ∈ JsMap.keys (foldl (λ m k, JsMap.set k (f k) m) m l) →
  g ∈ JsMap.keys m ∨ g ∈ l.
Proof.
  revert m. induction l as [|k l IH]; intros m; cbn; [by left|].
  intros Hin. destruct (IH _ Hin) as [Hm|Hl].
  - destruct (JsMap_keys_set _ _ _ _ Hm) as [->|Hm'].
    + right. apply list_elem_of_here.
    + by left.
  - right. by apply list_elem_of_further.
Qed.

Lemma JsMap_keys_of_entries (gs : list string) (g : string) :
  g ∈ JsMap.keys (JsMap.of_entries ((λ g, (g, true)) <$> gs)) → g ∈ gs.
Proof.
  unfold JsMap.of_entries. rewrite foldl_fmap. cbn.
  intros Hin.
  destruct (JsMap_keys_foldl_set (λ _, true) gs [] g Hin) as [Hnil|Hgs]; [|done].
  by apply elem_of_nil in Hnil.
Qed.

(** The groups the toggle stores are those flagged in the map. *)
Lemma stored_groups_spec (m : list (string * bool)) (g : string) :
  g ∈ filter (λ g, truthy_bool (JsMap.get g m) = true) (JsMap.keys m)
  ↔ JsMap.get g m = Some true.
Proof.
  rewrite list_elem_of_filter. split.
  - intros [Htrue _]. by destruct (JsMap.get g m) as [[|]|].
  - intros Hget. split; [by rewrite Hget|]. by apply (JsMap_get_keys _ true).
Qed.

(** ** What reaches the storage *)

(** The heading toggle, spelled out for both cases of [state.initialGroup]. *)
Lemma onDidSelect_eq (w : Wizard) (ui : LaunchpadGroup) :
  let flag := negb (truthy_bool (JsMap.get ui (collapsed (context w)))) in
  let collapsed' := JsMap.set ui flag (collapsed (context w)) in
  let gs := filter (λ g, truthy_bool (JsMap.get g collapsed') = true)
                   (JsMap.keys collapsed') in
  let ctx' := mkContext (result (context w)) collapsed'
                        (connectedIntegrations (context w)) in
  onDidSelect (ToggleGroup ui) w =
    if initialGroup (state w) is None
    then mkWizard (<[key_groups_collapsed := StoredGroups gs]> (storage w))
                  ctx' (state w) (pickStep w) (quickpick w)
                  (log w ++ [StorageStore key_groups_collapsed (StoredGroups gs)])
    else mkWizard (storage w) ctx' (state w) (pickStep w) (quickpick w) (log w).
Proof. cbn. by destruct (initialGroup (state w)). Qed.

Lemma invoke_eq args now connected st (w0 : Wizard) :
  invoke args now connected st = Some w0 →
  ∃ collapsed0,
    steps_collapsed (constructor args now st).1.1
                    (initialGroup (constructor args now st).2) = Some collapsed0
    ∧ w0 = mkWizard (constructor args now st).1.1
             (mkContext (ResultItems []) collapsed0 connected)
             (constructor args now st).2 (mkPickStep None None)
             (mkQuickPick [] "" false "")
             ((constructor args now st).1.2 ++ [Call getConnectedIntegrations]).
Proof.
  unfold invoke, steps_prologue.
  destruct (constructor args now st) as [[st' effs] s]. cbn.
  destruct (steps_collapsed st' (initialGroup s)) as [c|]; [|done].
  cbn. intros [= <-]. by exists c.
Qed.

(** The constructor writes at most the interaction timestamp. *)
Lemma constructor_storage args now (st : gmap string StoredValue) :
  ((constructor args now st).1.1 = st ∧ (constructor args now st).1.2 = [])
  ∨ ((constructor args now st).1.1
       = <[key_indicator_hasInteracted := StoredString now]> st
     ∧ (constructor args now st).1.2
       = [StorageStore key_indicator_hasInteracted (StoredString now)]).
Proof. unfold constructor. destruct (_ && _); cbn; [by right | by left]. Qed.

(** C5.  Whatever a wizard invocation does, the entries it stores are under
    the collapsed-groups key and the interaction-timestamp key only, and no
    other key of the storage changes.  (The wizard's [State] and [Context]
    exist only inside the invocation: [invoke] builds them from the
    arguments and the storage.) *)
Theorem storage_writes_only_two_keys
    (st : gmap string StoredValue) (args : option LaunchpadCommandArgs)
    (now : string) (connected : list (IntegrationId * bool))
    (es : list Event) (w0 w : Wizard) :
  invoke args now connected st = Some w0 →
  run w0 es = Some w →
  (∀ k v, StorageStore k v ∈ log w →
          k = "launchpad:groups:collapsed"
          ∨ k = "launchpad:indicator:hasInteracted")
  ∧ (∀ k, k ≠ "launchpad:groups:collapsed" →
          k ≠ "launchpad:indicator:hasInteracted" →
          storage w !! k = st !! k).
Proof.
  intros Hinvoke Hrun.
  apply (run_invariant
           (λ w, (∀ k v, StorageStore k v ∈ log w →
                         k = key_groups_collapsed ∨ k = key_indicator_hasInteracted)
                 ∧ (∀ k, k ≠ key_groups_collapsed →
                         k ≠ key_indicator_hasInteracted →
                         storage w !! k = st !! k))) with (es := es) (w := w0);
    [| | |exact Hrun].
  - intros w1 w2 (Hs & _ & _ & l & Hl & Hf) [Hlog Hframe]. split.
    + intros k v Hin. rewrite Hl in Hin. apply elem_of_app in Hin as [Hin|Hin].
      * by apply (Hlog k v).
      * rewrite Forall_forall in Hf. by apply Hf in Hin.
    + intros k Hk1 Hk2. rewrite Hs. by apply Hframe.
  - intros w1 d ui [Hlog Hframe] _ _. rewrite onDidSelect_eq.
    destruct (initialGroup (state w1)); cbn; split; try done.
    + intros k v Hin. apply elem_of_app in Hin as [Hin|Hin].
      * by apply (Hlog k v).
      * apply list_elem_of_singleton in Hin. injection Hin as -> _. by left.
    + intros k Hk1 Hk2. rewrite lookup_insert_ne by done. by apply Hframe.
  - destruct (invoke_eq _ _ _ _ _ Hinvoke) as (c0 & _ & ->). cbn.
    destruct (constructor_storage args now st) as [[-> ->]|[-> ->]]; split.
    + intros k v Hin. apply list_elem_of_singleton in Hin. discriminate.
    + done.
    + intros k v Hin. apply elem_of_cons in Hin as [Hin|Hin].
      * injection Hin as -> _. by right.
      * apply list_elem_of_singleton in Hin. discriminate.
    + intros k Hk1 Hk2. by rewrite lookup_insert_ne.
Qed.

(** C10.  A heading toggle always flips the group's flag in the in-memory
    map.  It stores the list of collapsed groups, under the collapsed-groups
    key, exactly when the wizard was opened without an initial group; with
    an initial group neither the storage nor the log of stores changes, and
    so the stored list is the same in every state of such a wizard. *)
Theorem toggle_stores_only_without_initial_group (w : Wizard) (ui : LaunchpadGroup) :
  let w' := onDidSelect (ToggleGroup ui) w in
  collapsed (context w')
    = JsMap.set ui (negb (truthy_bool (JsMap.get ui (collapsed (context w)))))
                (collapsed (context w))
  ∧ (initialGroup (state w) = None →
     ∃ gs, storage w'
             = <["launchpad:groups:collapsed" := StoredGroups gs]> (storage w)
         ∧ log w' = log w ++ [StorageStore "launchpad:groups:collapsed"
                                           (StoredGroups gs)]
         ∧ ∀ g, g ∈ gs ↔ JsMap.get g (collapsed (context w')) = Some true)
  ∧ (initialGroup (state w) ≠ None →
     storage w' = storage w ∧ log w' = log w)
  ∧ (∀ st args now connected es w0 w1,
       invoke args now connected st = Some w0 →
       initialGroup (state w0) ≠ None →
       run w0 es = Some w1 →
       storage w1 !! "launchpad:groups:collapsed"
         = st !! "launchpad:groups:collapsed").
Proof.
  intros w'. subst w'. rewrite onDidSelect_eq.
  split; [by destruct (initialGroup (state w))|].
  split; [|split].
  - intros ->. eexists. split; [reflexivity|]. split; [reflexivity|].
    intros g. cbn. apply stored_groups_spec.
  - intros Hinit. by destruct (initialGroup (state w)).
  - intros st args now connected es w0 w1 Hinvoke Hinit Hrun.
    apply (run_invariant
             (λ w, initialGroup (state w) ≠ None
                   ∧ storage w !! key_groups_collapsed
                     = st !! key_groups_collapsed)) with (es := es) (w := w0);
      [| | |exact Hrun].
    + intros w2 w3 (Hs & Hi & _) [Hne Hst]. by rewrite Hs, Hi.
    + intros w2 d ui2 [Hne Hst] _ _. rewrite onDidSelect_eq.
      destruct (initialGroup (state w2)) as [g|] eqn:Hi; [|done].
      cbn. by rewrite Hi.
    + split; [done|].
      destruct (invoke_eq _ _ _ _ _ Hinvoke) as (c0 & _ & ->). cbn.
      destruct (constructor_storage args now st) as [[-> _]|[-> _]]; [done|].
      by rewrite lookup_insert_ne.
Qed.

(** ** The collapsed map mentions known groups only *)

Section Typed.
Context `{!LaunchpadProviderTyped}.

Lemma buildGroupHeading_toggle ctx ui n d ui' :
  DirectiveItem d ∈ buildGroupHeading ctx ui n →
  onDidSelect_of d = Some (ToggleGroup ui') → ui' = ui.
Proof.
  unfold buildGroupHeading. intros Hin Hd.
  apply elem_of_cons in Hin as [Hin|Hin]; [discriminate|].
  apply list_elem_of_singleton in Hin. injection Hin as ->.
  cbn in Hd. by injection Hd.
Qed.

Lemma getItems_group_headings ctx ps topItem isSearching acc ui groupItems d ui' :
  DirectiveItem d ∈ getItems_group ctx ps topItem isSearching acc (ui, groupItems) →
  onDidSelect_of d = Some (ToggleGroup ui') →
  DirectiveItem d ∈ acc ∨ ui' = ui.
Proof.
  unfold getItems_group. intros Hin Hd.
  destruct groupItems as [|i groupItems]; [by left|].
  assert (Hheading :
            DirectiveItem d ∈
              (if truthy_bool isSearching then acc
               else acc ++ buildGroupHeading ctx ui (length (i :: groupItems))) →
            DirectiveItem d ∈ acc ∨ ui' = ui).
  { destruct (truthy_bool isSearching); [by left|].
    intros Hin'. apply elem_of_app in Hin' as [Hin'|Hin']; [by left|].
    right. eapply buildGroupHeading_toggle; [exact Hin'|exact Hd]. }
  destruct (_ && _); [by apply Hheading|].
  apply elem_of_app in Hin as [Hin|Hin]; [by apply Hheading|].
  apply list_elem_of_fmap in Hin as (x & Hx & _). discriminate.
Qed.

Lemma foldl_getItems_group_headings ctx ps topItem isSearching uiGroups acc d ui' :
  DirectiveItem d ∈ foldl (getItems_group ctx ps topItem isSearching) acc uiGroups →
  onDidSelect_of d = Some (ToggleGroup ui') →
  DirectiveItem d ∈ acc ∨ ui' ∈ JsMap.keys uiGroups.
Proof.
  revert acc. induction uiGroups as [|[ui groupItems] uiGroups IH];
    intros acc Hin Hd; cbn in *; [by left|].
  destruct (IH _ Hin Hd) as [Hacc|Hkeys].
  - destruct (getItems_group_headings _ _ _ _ _ _ _ _ _ Hacc Hd) as [Hacc'| ->].
    + by left.
    + right. apply list_elem_of_here.
  - right. by apply list_elem_of_further.
Qed.

Lemma getItems_headings ctx ps r isSearching d ui :
  DirectiveItem d ∈ getItems ctx ps r isSearching →
  onDidSelect_of d = Some (ToggleGroup ui) → ui ∈ launchpadGroups.
Proof.
  unfold getItems. destruct r as [[|i items]|error];
    try (intros Hin; by apply elem_of_nil in Hin).
  intros Hin Hd.
  destruct (foldl_getItems_group_headings _ _ _ _ _ _ _ _ Hin Hd) as [Hnil|Hkeys].
  - by apply elem_of_nil in Hnil.
  - by apply (groupAndSortLaunchpadItems_typed (i :: items)).
Qed.

Lemma getItemsAndPlaceholder_headings ctx ps isSearching d ui :
  DirectiveItem d ∈ (getItemsAndPlaceholder ctx ps isSearching).2 →
  onDidSelect_of d = Some (ToggleGroup ui) → ui ∈ launchpadGroups.
Proof.
  unfold getItemsAndPlaceholder.
  destruct (result ctx) as [[|i items]|error]; cbn [snd].
  - intros Hin Hd. apply list_elem_of_singleton in Hin. injection Hin as ->.
    discriminate.
  - apply getItems_headings.
  - intros Hin Hd. apply list_elem_of_singleton in Hin. injection Hin as ->.
    discriminate.
Qed.

Lemma combine_elem_of arr items x :
  x ∈ combineQuickpickItemsWithSearchResults arr items → x ∈ arr ∨ x ∈ items.
Proof.
  unfold combineQuickpickItemsWithSearchResults. intros Hin.
  apply elem_of_app in Hin as [Hin|Hin]; [by left|].
  apply list_elem_of_filter in Hin as [_ Hin]. by right.
Qed.

Lemma updateItems_headings o (w : Wizard) :
  headings_known w → headings_known (updateItems o w).
Proof.
  intros Hw. unfold updateItems. destruct o as [|f [|]]; try exact Hw.
  destruct (getItemsAndPlaceholder _ _ _) as [placeholder items] eqn:Hg.
  intros d ui Hin Hd. cbn in Hin.
  assert (Hitems : DirectiveItem d ∈ items → ui ∈ launchpadGroups).
  { intros Hin'. eapply getItemsAndPlaceholder_headings; [|exact Hd].
    rewrite Hg. exact Hin'. }
  destruct (truthy_string _); [|by apply Hitems].
  apply combine_elem_of in Hin as [Hin|Hin]; [|by apply Hitems].
  by apply (Hw d).
Qed.

Lemma steps_iteration_headings force f (w : Wizard) :
  headings_known w → headings_known (steps_iteration force f w).
Proof.
  intros Hw. unfold steps_iteration. destruct (_ || _); [|exact Hw].
  destruct (getItemsAndPlaceholder _ _ _) as [placeholder items] eqn:Hg.
  intros d ui Hin Hd. cbn in Hin.
  eapply getItemsAndPlaceholder_headings; [|exact Hd]. rewrite Hg. exact Hin.
Qed.

Lemma step_headings (w w' : Wizard) (e : Event) :
  headings_known w → step w e = Some w' → headings_known w'.
Proof.
  intros Hw. destruct e as [force f|n|value o|button o|button n o|a|]; cbn.
  - intros [= <-]. by apply steps_iteration_headings.
  - unfold select. destruct (qp_items (quickpick w) !! n) as [entry|]; [|done].
    cbn. intros [= <-]. destruct entry as [l|d|p|]; try exact Hw.
    destruct (onDidSelect_of d) as [[ui]|]; [|exact Hw].
    rewrite onDidSelect_eq. by destruct (initialGroup (state w)).
  - intros [= <-]. by apply updateItems_headings.
  - intros [= <-]. destruct button; cbn; try exact Hw.
    by apply updateItems_headings.
  - destruct (qp_items (quickpick w) !! n) as [entry|]; [|done].
    intros [= <-]. unfold onDidClickItemButton.
    destruct button; try exact Hw;
      (destruct (item_of entry) as [item|]; [|exact Hw]);
      by apply updateItems_headings.
  - unfold confirmed. destruct (state_item (state w)); [|done].
    cbn. by intros [= <-].
  - unfold steps_dispatch. destruct (state_item (state w)) as [gi|]; [|done].
    cbn. destruct (dispatch _ _) as [calls ends]. intros [= <-].
    assert (Hq : ∀ w0 : Wizard,
               quickpick (foldl (λ w c, emit w (Call c)) w0 calls) = quickpick w0).
    { clear. induction calls as [|c calls IH]; intros w0; cbn; [done|].
      by rewrite IH. }
    intros d ui. destruct ends; cbn; rewrite Hq; apply Hw.
Qed.

Lemma steps_collapsed_known (st : gmap string StoredValue) initial :
  storage_typed st →
  ∃ c, steps_collapsed st initial = Some c
     ∧ ∀ g, g ∈ JsMap.keys c → g ∈ launchpadGroups.
Proof.
  unfold storage_typed, steps_collapsed. intros Htyped.
  assert (Hentries : ∀ gs, (∀ g, g ∈ gs → g ∈ launchpadGroups) →
            ∀ g, g ∈ JsMap.keys
                       match initial with
                       | Some i =>
                           foldl (λ m group,
                                    JsMap.set group (bool_decide (group ≠ i)) m)
                                 (JsMap.of_entries ((λ g, (g, true)) <$> gs))
                                 launchpadGroups
                       | None => JsMap.of_entries ((λ g, (g, true)) <$> gs)
                       end → g ∈ launchpadGroups).
  { intros gs Hgs g Hin. destruct initial as [i|].
    - apply (JsMap_keys_foldl_set (λ group, bool_decide (group ≠ i))) in Hin
        as [Hin|Hin]; [|done].
      by apply Hgs, JsMap_keys_of_entries.
    - by apply Hgs, JsMap_keys_of_entries. }
  destruct (st !! key_groups_collapsed) as [[gs|s]|]; [|done|]; cbn.
  - eexists. split; [reflexivity|]. by apply (Hentries gs).
  - eexists. split; [reflexivity|]. apply (Hentries defaultCollapsedGroups).
    apply defaultCollapsedGroups_typed.
Qed.

Lemma constructor_storage_typed args now (st : gmap string StoredValue) :
  storage_typed st → storage_typed (constructor args now st).1.1.
Proof.
  intros Htyped.
  destruct (constructor_storage args now st) as [[-> _]|[-> _]]; [done|].
  unfold storage_typed. by rewrite lookup_insert_ne.
Qed.

(** The toggle of a known group keeps the map and the storage well-typed. *)
Lemma onDidSelect_known (w : Wizard) (ui : LaunchpadGroup) :
  ui ∈ launchpadGroups →
  collapsed_known w → storage_typed (storage w) →
  collapsed_known (onDidSelect (ToggleGroup ui) w)
  ∧ storage_typed (storage (onDidSelect (ToggleGroup ui) w)).
Proof.
  intros Hui Hc Hs. rewrite onDidSelect_eq.
  assert (Hkeys : ∀ g, g ∈ JsMap.keys
                          (JsMap.set ui
                             (negb (truthy_bool (JsMap.get ui (collapsed (context w)))))
                             (collapsed (context w))) → g ∈ launchpadGroups).
  { intros g Hin. apply JsMap_keys_set in Hin as [->|Hin]; [done|]. by apply Hc. }
  destruct (initialGroup (state w)); cbn; (split; [exact Hkeys|]); [done|].
  unfold storage_typed. rewrite lookup_insert_eq.
  intros g Hin. apply list_elem_of_filter in Hin as [_ Hin]. by apply Hkeys.
Qed.

(** C4.  Starting from a storage that holds, under the collapsed-groups
    key, nothing or a list of known groups, every wizard invocation starts
    (from the stored or the default groups, with or without an initial
    group) with a collapsed map whose keys are known Launchpad groups, the
    same holds in every state the wizard reaches, and in particular after
    the toggle of any heading the picker lists, which also leaves the
    storage as it was found: holding known groups. *)
Theorem collapsed_keys_known (st : gmap string StoredValue) :
  storage_typed st →
  (∀ args now connected,
     ∃ w0, invoke args now connected st = Some w0 ∧ collapsed_known w0)
  ∧ (∀ w, reachable st w → collapsed_known w ∧ storage_typed (storage w))
  ∧ (∀ w d ui,
       reachable st w →
       DirectiveItem d ∈ qp_items (quickpick w) →
       onDidSelect_of d = Some (ToggleGroup ui) →
       collapsed_known (onDidSelect (ToggleGroup ui) w)).
Proof.
  intros Htyped.
  assert (Hinvoke : ∀ args now connected w0,
            invoke args now connected st = Some w0 →
            collapsed_known w0 ∧ headings_known w0 ∧ storage_typed (storage w0)).
  { intros args now connected w0 Hw0.
    destruct (invoke_eq _ _ _ _ _ Hw0) as (c0 & Hc0 & ->).
    pose proof (constructor_storage_typed args now st Htyped) as Hst.
    destruct (steps_collapsed_known _ (initialGroup (constructor args now st).2) Hst)
      as (c & Hc & Hknown).
    rewrite Hc in Hc0. injection Hc0 as <-.
    split; [exact Hknown|]. split; [|exact Hst].
    intros d ui Hin. by apply elem_of_nil in Hin. }
  assert (Hreach : ∀ w, reachable st w →
            collapsed_known w ∧ headings_known w ∧ storage_typed (storage w)).
  { intros w (args & now & connected & es & w0 & Hw0 & Hrun).
    apply Hinvoke in Hw0. clear Hinvoke. revert w0 Hw0 Hrun.
    induction es as [|e es IH]; intros w0 Hw0; cbn.
    - by intros [= <-].
    - destruct (step w0 e) as [w1|] eqn:Hstep; [|done]. cbn.
      apply IH. destruct Hw0 as (Hc & Hh & Hs).
      split; [|split; [by apply (step_headings w0 w1 e)|]].
      + destruct (step_cases _ _ _ Hstep)
          as [(_ & _ & Hq & _)|(d & ui & Hin & Hd & ->)].
        * unfold collapsed_known. by rewrite Hq.
        * by apply onDidSelect_known; [apply (Hh d)|..].
      + destruct (step_cases _ _ _ Hstep)
          as [(Hq & _)|(d & ui & Hin & Hd & ->)].
        * by rewrite Hq.
        * by apply onDidSelect_known; [apply (Hh d)|..]. }
  split; [|split].
  - intros args now connected.
    pose proof (constructor_storage_typed args now st Htyped) as Hst.
    destruct (steps_collapsed_known _ (initialGroup (constructor args now st).2) Hst)
      as (c & Hc & Hknown).
    unfold invoke, steps_prologue.
    destruct (constructor args now st) as [[st' effs] s]. cbn in *.
    rewrite Hc. cbn. eexists. split; [reflexivity|]. exact Hknown.
  - intros w Hw. destruct (Hreach w Hw) as (Hc & _ & Hs). by split.
  - intros w d ui Hw Hin Hd. destruct (Hreach w Hw) as (Hc & Hh & Hs).
    by apply onDidSelect_known; [apply (Hh d)|..].
Qed.

End Typed.

End LaunchpadFacts.

(** * The statements at work on a concrete provider *)

Section LaunchpadWitnesses.
Import Launchpad Demo.

#[local] Instance provider_typed : LaunchpadProviderTyped.
Proof.
  split.
  - intros g Hg. apply (bool_decide_unpack _).
    repeat (apply elem_of_cons in Hg as [->|Hg]; [by vm_compute|]).
    by apply elem_of_nil in Hg.
  - intros items g Hg. exact Hg.
Qed.

Lemma http_error_safe (n : Z) : status http_error = StatusNumber n → safe_integer n.
Proof. intros [= <-]. unfold safe_integer. lia. Qed.

Lemma getItemsAndPlaceholder_error_witness :
  getItemsAndPlaceholder (mkContext (ResultError http_error) [] [])
                         (mkPickStep None None) None
  = ("Unable to load items (404: HttpError: Not Found)",
     [DirectiveItem (createDirectiveQuickPickItem Cancel None "OK" None)]).
Proof.
  exact (proj1 (getItemsAndPlaceholder_error
                  (mkContext (ResultError http_error) [] [])
                  (mkPickStep None None) None http_error eq_refl
                  http_error_safe)).
Defined.

(** Counterexample to C2 as it is worded, a refresh during a search.  The
    picker lists two pull requests and the search box holds "parser"; the
    refresh that [updateItems] runs comes back with an HTTP error.  The
    picker then shows the error placeholder over both pull-request entries,
    and no Cancel entry. *)
Lemma getItemsAndPlaceholder_error_counterexample :
  ∃ w, searching = Some w
     ∧ qp_value (quickpick w) = "parser"
     ∧ let w' := updateItems (Invoked (mkFetched (ResultError http_error)
                                                  [("github", true)]) false) w in
       result (context w') = ResultError http_error
       ∧ qp_placeholder (quickpick w')
         = "Unable to load items (404: HttpError: Not Found)"
       ∧ omap item_of (qp_items (quickpick w')) = [pr1; pr2]
       ∧ qp_items (quickpick w')
         ≠ [DirectiveItem (createDirectiveQuickPickItem Cancel None "OK" None)]
       ∧ DirectiveItem (createDirectiveQuickPickItem Cancel None "OK" None)
         ∉ qp_items (quickpick w').
Proof.
  eexists. split; [vm_compute; reflexivity|].
  split; [reflexivity|]. cbv zeta.
  split; [reflexivity|]. split; [vm_compute; reflexivity|].
  split; [vm_compute; reflexivity|].
  split; [vm_compute; discriminate|].
  vm_compute. intros Hin.
  repeat (apply elem_of_cons in Hin as [Hin|Hin]; [discriminate Hin|]).
  by apply elem_of_nil in Hin.
Qed.

Lemma getItemsAndPlaceholder_empty_witness :
  getItemsAndPlaceholder (mkContext (ResultItems []) [] [])
                         (mkPickStep None None) None
  = ("All done! Take a vacation",
     [DirectiveItem (createDirectiveQuickPickItem Cancel None "OK" None)]).
Proof.
  exact (proj1 (getItemsAndPlaceholder_empty
                  (mkContext (ResultItems []) [] [])
                  (mkPickStep None None) None eq_refl)).
Defined.

(** Counterexample to C9 as it is worded, a refresh during a search.  The
    picker lists two pull requests and the search box holds "parser"; the
    refresh that [updateItems] runs finds nothing.  The picker then shows
    "All done! Take a vacation" over both pull-request entries, and no
    Cancel entry. *)
Lemma getItemsAndPlaceholder_empty_counterexample :
  ∃ w, searching = Some w
     ∧ qp_value (quickpick w) = "parser"
     ∧ let w' := updateItems (Invoked (mkFetched (ResultItems [])
                                                  [("github", true)]) false) w in
       result (context w') = ResultItems []
       ∧ qp_placeholder (quickpick w') = "All done! Take a vacation"
       ∧ omap item_of (qp_items (quickpick w')) = [pr1; pr2]
       ∧ qp_items (quickpick w')
         ≠ [DirectiveItem (createDirectiveQuickPickItem Cancel None "OK" None)]
       ∧ DirectiveItem (createDirectiveQuickPickItem Cancel None "OK" None)
         ∉ qp_items (quickpick w').
Proof.
  eexists. split; [vm_compute; reflexivity|].
  split; [reflexivity|]. cbv zeta.
  split; [reflexivity|]. split; [vm_compute; reflexivity|].
  split; [vm_compute; reflexivity|].
  split; [vm_compute; discriminate|].
  vm_compute. intros Hin.
  repeat (apply elem_of_cons in Hin as [Hin|Hin]; [discriminate Hin|]).
  by apply elem_of_nil in Hin.
Qed.

Lemma dispatch_calls_named_method_witness :
  ∃ w', steps_dispatch chosen_merge = Some w'
      ∧ log w' = [Call (merge pr1); EndSteps].
Proof.
  refine (proj2 (dispatch_calls_named_method chosen_merge
                   (mkGrouped pr1 "mergeable") (ActionString "merge")
                   [merge pr1] "" eq_refl eq_refl _)).
  apply list_elem_of_here.
Defined.

Lemma collapsed_keys_known_witness :
  storage_typed empty_storage
  ∧ ∃ w, toggled = Some w ∧ collapsed_known w.
Proof.
  assert (Htyped : storage_typed empty_storage) by (vm_compute; exact I).
  split; [exact Htyped|].
  eexists. split; [vm_compute; reflexivity|].
  apply (proj1 (proj2 (collapsed_keys_known empty_storage Htyped))).
  exists None, "2024-01-01T00:00:00.000Z", [("github", true)],
    [Iteration false fetched_two; Select 1].
  eexists. split; vm_compute; reflexivity.
Defined.

Lemma storage_writes_only_two_keys_witness :
  ∃ w, toggled = Some w
     ∧ storage w !! "gitlens:unrelated" = empty_storage !! "gitlens:unrelated".
Proof.
  eexists. split; [vm_compute; reflexivity|].
  refine (proj2 (storage_writes_only_two_keys empty_storage None
                   "2024-01-01T00:00:00.000Z" [("github", true)]
                   [Iteration false fetched_two; Select 1] _ _ _ _)
            "gitlens:unrelated" _ _).
  - vm_compute; reflexivity.
  - vm_compute; reflexivity.
  - discriminate.
  - discriminate.
Defined.

Lemma toggle_stores_only_without_initial_group_witness :
  (∃ gs, storage (onDidSelect (ToggleGroup "other") chosen_merge)
           = <["launchpad:groups:collapsed" := StoredGroups gs]>
               (storage chosen_merge)
       ∧ log (onDidSelect (ToggleGroup "other") chosen_merge)
         = log chosen_merge
           ++ [StorageStore "launchpad:groups:collapsed" (StoredGroups gs)]
       ∧ ∀ g, g ∈ gs ↔
              JsMap.get g (collapsed (context (onDidSelect (ToggleGroup "other")
                                                           chosen_merge)))
              = Some true)
  ∧ storage (onDidSelect (ToggleGroup "other") chosen_merge_on_group)
    = storage chosen_merge_on_group
  ∧ log (onDidSelect (ToggleGroup "other") chosen_merge_on_group)
    = log chosen_merge_on_group.
Proof.
  split.
  - exact (proj1 (proj2 (toggle_stores_only_without_initial_group
                           chosen_merge "other")) eq_refl).
  - apply (proj1 (proj2 (proj2 (toggle_stores_only_without_initial_group
                                  chosen_merge_on_group "other")))).
    discriminate.
Defined.

End LaunchpadWitnesses.

(** * More on the grouped SCM view switcher *)

Section ScmGroupedViewMore.
Import ScmGroupedView ScmGroupedCommands.

Ltac st_run :=
  unfold setView, set_lastSelectedScmGroupedView, dispose_view, set_view,
    ScmGroupedView.emit, mbind, mret, St_bind, St_ret, st_get, st_modify;
  cbn -[getView fallback].

(** With a non-empty [included], the fallback always lands on an included
    type. *)
Lemma fallback_in_included incl type :
  incl ≠ [] → ∃ t, fallback incl type = Some t ∧ t ∈ incl.
Proof.
  intros Hne. unfold fallback, includes.
  destruct type as [t|].
  - case_bool_decide as Hin; [by exists t|].
    destruct incl as [|first rest]; [done|].
    exists first. split; [done|]. apply list_elem_of_here.
  - destruct incl as [|first rest]; [done|].
    exists first. split; [done|]. apply list_elem_of_here.
Qed.

(** The third way through [setView]: no type to show, a view held. *)
Lemma setView_drop type this old :
  fallback (included this) type = None →
  _view this = Some old →
  setView type this =
    (None,
     mkThis (included this) None None (next_id this)
            (effects this
             ++ [PersistLastSelected None; SetContext None; Dispose old])).
Proof.
  intros Hfb Hold. st_run. rewrite Hfb, Hold. cbn.
  rewrite bool_decide_eq_false_2 by done. cbn.
  by rewrite <- !(assoc_L (++)).
Qed.

(** The three ways through [setView], side by side. *)
Lemma setView_cases type this :
  let type' := fallback (included this) type in
  (view_type <$> _view this = type'
   ∧ setView type this =
       (_view this,
        mkThis (included this) type' (_view this) (next_id this)
               (effects this ++ [PersistLastSelected type'])))
  ∨ (∃ t, type' = Some t
        ∧ view_type <$> _view this ≠ Some t
        ∧ let v := mkTreeView (corresponding_constructor t) true (next_id this) in
          setView type this =
            (Some v,
             mkThis (included this) (Some t) (Some v) (S (next_id this))
                    (effects this
                     ++ [PersistLastSelected (Some t); SetContext (Some t)]
                     ++ match _view this with
                        | Some old => [Dispose old]
                        | None => []
                        end
                     ++ [Construct v])))
  ∨ (∃ old, type' = None ∧ _view this = Some old
          ∧ setView type this =
              (None,
               mkThis (included this) None None (next_id this)
                      (effects this
                       ++ [PersistLastSelected None; SetContext None;
                           Dispose old]))).
Proof.
  intros type'.
  destruct (decide (view_type <$> _view this = type')) as [Hsame|Hdiff].
  - left. split; [done|]. by apply setView_same.
  - right. destruct type' as [t|] eqn:Hfb.
    + left. exists t. split; [done|]. split; [done|].
      by apply setView_switch.
    + right. destruct (_view this) as [old|] eqn:Hold; [|done].
      exists old. split; [done|]. split; [done|]. by apply setView_drop.
Qed.

Lemma setView_included type this : included (setView type this).2 = included this.
Proof.
  destruct (setView_cases type this)
    as [[_ ->]|[(t & _ & _ & ->)|(old & _ & _ & ->)]]; done.
Qed.

(** What [setView] returns is what the object holds afterwards. *)
Lemma setView_returns_held type this :
  (setView type this).1 = _view (setView type this).2.
Proof.
  destruct (setView_cases type this)
    as [[_ ->]|[(t & _ & _ & ->)|(old & _ & _ & ->)]]; done.
Qed.

Lemma constructor_eq incl last fresh :
  (constructor incl last fresh).2
  = (setView last (mkThis incl last None fresh [])).2.
Proof.
  unfold constructor. st_run.
  pose proof (setView_returns_held last (mkThis incl last None fresh [])) as Hheld.
  unfold setView in Hheld. revert Hheld. st_run.
  destruct (if bool_decide _ then _ else _) as [r [i l v n e]]. cbn.
  by intros ->.
Qed.

Lemma setViews_included types this : included (setViews types this) = included this.
Proof.
  revert this. induction types as [|type types IH]; intros this; cbn; [done|].
  unfold setViews in IH. by rewrite IH, setView_included.
Qed.

(** After a [setView] on a non-empty [included], a view of an included type
    is held, and its type is the one persisted. *)
Lemma setView_holds_included type this :
  included this ≠ [] →
  ∃ v, _view (setView type this).2 = Some v
     ∧ view_type v ∈ included this
     ∧ lastSelectedScmGroupedView (setView type this).2 = Some (view_type v).
Proof.
  intros Hne.
  destruct (fallback_in_included (included this) type Hne) as (t & Hfb & Hin).
  destruct (setView_cases type this)
    as [[Hsame ->]|[(t' & Ht' & _ & ->)|(old & Hnone & _)]]; cbn.
  - rewrite Hfb in *. destruct (_view this) as [v|]; [|done].
    injection Hsame as Hv. exists v. by rewrite Hv.
  - rewrite Hfb in Ht'. injection Ht' as <-.
    eexists. split; [done|]. by rewrite view_type_corresponding.
  - congruence.
Qed.

(** X3.  Built on a non-empty [included], the object at every moment holds
    a view, the view's type is one of the included types, and it is the
    type last persisted: whatever types are requested, in whatever order. *)
Theorem shown_view_is_always_included
    (incl : list GroupableTreeViewTypes)
    (last : option GroupableTreeViewTypes) (fresh : nat)
    (types : list (option GroupableTreeViewTypes)) :
  incl ≠ [] →
  let this := setViews types (constructor incl last fresh).2 in
  ∃ v, _view this = Some v
     ∧ view_type v ∈ incl
     ∧ lastSelectedScmGroupedView this = Some (view_type v).
Proof.
  intros Hne this. subst this. rewrite constructor_eq.
  assert (Hstart : ∀ this0, included this0 = incl →
            ∃ v, _view (setView last this0).2 = Some v
               ∧ view_type v ∈ incl
               ∧ lastSelectedScmGroupedView (setView last this0).2
                 = Some (view_type v)).
  { intros this0 <-. by apply setView_holds_included. }
  destruct (Hstart (mkThis incl last None fresh []) eq_refl) as (v0 & Hv0).
  assert (Hincl : included (setView last (mkThis incl last None fresh [])).2 = incl)
    by by rewrite setView_included.
  revert Hincl Hv0. generalize (setView last (mkThis incl last None fresh [])).2.
  clear Hstart. revert v0.
  induction types as [|type types IH]; intros v0 this Hincl Hv0; cbn.
  - by exists v0.
  - destruct (setView_holds_included type this) as (v1 & Hv1); [by rewrite Hincl|].
    rewrite Hincl in Hv1.
    apply (IH v1); [by rewrite setView_included|exact Hv1].
Qed.

Lemma shown_view_is_always_included_witness :
  let this := setViews [Some tags; Some branches; None]
                       (constructor [commits; branches] (Some stashes) 0).2 in
  ∃ v, _view this = Some v
     ∧ view_type v ∈ [commits; branches]
     ∧ lastSelectedScmGroupedView this = Some (view_type v).
Proof.
  apply (shown_view_is_always_included [commits; branches] (Some stashes) 0
           [Some tags; Some branches; None]).
  discriminate.
Defined.

Lemma constructed_app l1 l2 : constructed (l1 ++ l2) = constructed l1 ++ constructed l2.
Proof. apply omap_app. Qed.

Lemma disposed_app l1 l2 : disposed (l1 ++ l2) = disposed l1 ++ disposed l2.
Proof. apply omap_app. Qed.

Lemma setView_accounted type this :
  views_accounted this → views_accounted (setView type this).2.
Proof.
  intros (Heq & Hlt & Hnd).
  destruct (setView_cases type this)
    as [[_ ->]|[(t & _ & _ & ->)|(old & _ & Hold & ->)]];
    unfold views_accounted; cbn [snd effects _view next_id].
  - rewrite constructed_app, disposed_app. cbn. by rewrite !app_nil_r.
  - rewrite !constructed_app, !disposed_app.
    assert (Hc : constructed match _view this with
                              | Some old => [Dispose old]
                              | None => []
                              end = []) by by destruct (_view this).
    assert (Hd : disposed match _view this with
                            | Some old => [Dispose old]
                            | None => []
                            end = option_list (_view this))
      by by destruct (_view this).
    rewrite Hc, Hd. cbn. rewrite app_nil_r. split; [|split].
    + by rewrite Heq, <- app_assoc.
    + apply Forall_app. split.
      * eapply Forall_impl; [exact Hlt|]. cbn. lia.
      * constructor; [cbn; lia|constructor].
    + apply NoDup_app. split; [done|]. split; [|apply NoDup_singleton].
      intros v Hv Hin. apply list_elem_of_singleton in Hin. subst v.
      rewrite Forall_forall in Hlt. apply Hlt in Hv. cbn in Hv. lia.
  - rewrite constructed_app, disposed_app. cbn. rewrite !app_nil_r.
    rewrite Hold in Heq. done.
Qed.

(** X2.  From construction on, through any sequence of [setView] calls:
    the views constructed are, in order, the views disposed followed by the
    view held, and no view is constructed twice, so that every view but the
    held one has been disposed exactly once and the held one not at all;
    after [dispose()] every constructed view has been disposed. *)
Theorem constructed_views_are_disposed
    (incl : list GroupableTreeViewTypes)
    (last : option GroupableTreeViewTypes) (fresh : nat)
    (types : list (option GroupableTreeViewTypes)) :
  let this := setViews types (constructor incl last fresh).2 in
  constructed (effects this) = disposed (effects this) ++ option_list (_view this)
  ∧ NoDup (constructed (effects this))
  ∧ constructed (effects (dispose this).2) = disposed (effects (dispose this).2).
Proof.
  intros this.
  assert (Hacc : views_accounted this).
  { subst this. rewrite constructor_eq.
    assert (H0 : views_accounted (setView last (mkThis incl last None fresh [])).2).
    { apply setView_accounted. split; [done|]. split; constructor. }
    revert H0. generalize (setView last (mkThis incl last None fresh [])).2.
    induction types as [|type types IH]; intros this0 H0; cbn; [done|].
    apply IH. by apply setView_accounted. }
  destruct Hacc as (Heq & _ & Hnd). split; [exact Heq|]. split; [exact Hnd|].
  unfold dispose. st_run. destruct (_view this) as [v|] eqn:Hv; cbn.
  - rewrite constructed_app, disposed_app. cbn. by rewrite app_nil_r.
  - by rewrite Heq, app_nil_r.
Qed.

(** X4.  On an empty [included] there is nothing to fall back to: [setView]
    returns [undefined] and persists [undefined]; a view that was held is
    disposed and the object holds none; nothing is constructed. *)
Theorem setView_empty_included
    (this : This) (type : option GroupableTreeViewTypes) :
  included this = [] →
  setView type this =
    (None,
     mkThis [] None None (next_id this)
            (effects this
             ++ PersistLastSelected None
                :: match _view this with
                   | Some old => [SetContext None; Dispose old]
                   | None => []
                   end)).
Proof.
  intros Hincl.
  assert (Hfb : fallback (included this) type = None).
  { unfold fallback, includes. rewrite Hincl. destruct type as [t|]; [|done].
    rewrite bool_decide_eq_false_2; [done|]. apply not_elem_of_nil. }
  destruct (_view this) as [old|] eqn:Hold.
  - rewrite (setView_drop type this old Hfb Hold). by rewrite Hincl.
  - rewrite setView_same; rewrite Hfb, Hold; [|done]. by rewrite Hincl.
Qed.

Lemma setView_empty_included_witness :
  setView (Some tags) (mkThis [] None (Some (mkTreeView TagsView true 7)) 8 [])
  = (None,
     mkThis [] None None 8
       [PersistLastSelected None; SetContext None;
        Dispose (mkTreeView TagsView true 7)]).
Proof.
  apply (setView_empty_included
           (mkThis [] None (Some (mkTreeView TagsView true 7)) 8 []) (Some tags)).
  reflexivity.
Defined.

Lemma setView_shows type t this :
  fallback (included this) type = Some t →
  view_type <$> _view (setView type this).2 = Some t.
Proof.
  intros Hfb.
  destruct (setView_cases type this)
    as [[Hsame ->]|[(t' & Ht' & _ & ->)|(old & Hnone & _)]]; cbn.
  - by rewrite Hsame.
  - rewrite Hfb in Ht'. injection Ht' as <-. by rewrite view_type_corresponding.
  - congruence.
Qed.

(** X5.  The commands of the object fit together: after the command of an
    included type, the grouped refresh command executes the refresh command
    of exactly that type's view.  With no view held it executes nothing. *)
Theorem grouped_command_then_refresh
    (this : This) (t : GroupableTreeViewTypes) :
  t ∈ included this →
  (∃ this',
     executeCommand ("gitlens.views.scm.grouped." +:+ type_literal t) this
       = Some ([], this')
     ∧ executeCommand "gitlens.views.scm.grouped.refresh" this'
       = Some (["gitlens.views." +:+ type_literal t +:+ ".refresh"], this'))
  ∧ (_view this = None →
     executeCommand "gitlens.views.scm.grouped.refresh" this = Some ([], this)).
Proof.
  intros Hin. split.
  - exists (setView (Some t) this).2.
    assert (Hshows : view_type <$> _view (setView (Some t) this).2 = Some t)
      by by apply setView_shows, fallback_included.
    split.
    + by destruct t.
    + unfold executeCommand, refresh. cbn.
      destruct (_view (setView (Some t) this).2) as [v|]; [|done].
      injection Hshows as ->. done.
  - intros Hnone. unfold executeCommand, refresh. cbn. by rewrite Hnone.
Qed.

Lemma grouped_command_then_refresh_witness :
  let this := (constructor [commits; searchAndCompare] None 0).2 in
  ∃ this',
    executeCommand "gitlens.views.scm.grouped.searchAndCompare" this
      = Some ([], this')
    ∧ executeCommand "gitlens.views.scm.grouped.refresh" this'
      = Some (["gitlens.views.searchAndCompare.refresh"], this').
Proof.
  intros this.
  refine (proj1 (grouped_command_then_refresh this searchAndCompare _)).
  apply (bool_decide_unpack _). vm_compute. exact I.
Defined.

End ScmGroupedViewMore.

(** * More on the Launchpad wizard *)

Section LaunchpadMore.
Import Launchpad LaunchpadViews.
Context `{LaunchpadProvider}.

(** ** Lookups in the collapsed map *)

Lemma JsMap_get_set_eq {V} (k : string) (v : V) (m : list (string * V)) :
  JsMap.get k (JsMap.set k v m) = Some v.
Proof.
  induction m as [|[k' v'] m IH]; cbn.
  - by rewrite decide_True.
  - destruct (decide (k' = k)) as [->|Hne]; cbn.
    + by rewrite decide_True.
    + by rewrite decide_False.
Qed.

Lemma JsMap_get_set_ne {V} (k k' : string) (v : V) (m : list (string * V)) :
  k ≠ k' → JsMap.get k' (JsMap.set k v m) = JsMap.get k' m.
Proof.
  intros Hne. induction m as [|[k0 v0] m IH]; cbn.
  - by rewrite decide_False.
  - destruct (decide (k0 = k)) as [->|Hne0]; cbn.
    + by rewrite !decide_False.
    + destruct (decide (k0 = k')); [done|exact IH].
Qed.

Lemma JsMap_get_foldl_set {V} (f : string → V) (l : list string)
    (m : list (string * V)) (g : string) :
  JsMap.get g (foldl (λ m k, JsMap.set k (f k) m) m l)
  = if decide (g ∈ l) then Some (f g) else JsMap.get g m.
Proof.
  revert m. induction l as [|k l IH]; intros m; cbn.
  - rewrite decide_False; [done|]. apply not_elem_of_nil.
  - rewrite IH. destruct (decide (g ∈ l)) as [Hin|Hnin].
    + rewrite decide_True; [done|]. by apply list_elem_of_further.
    + destruct (decide (k = g)) as [->|Hne].
      * rewrite decide_True by apply list_elem_of_here. apply JsMap_get_set_eq.
      * rewrite decide_False.
        -- by apply JsMap_get_set_ne.
        -- intros Hin. apply elem_of_cons in Hin as [->|Hin]; done.
Qed.

Lemma JsMap_get_of_entries (gs : list string) (g : string) :
  JsMap.get g (JsMap.of_entries ((λ g, (g, true)) <$> gs))
  = if decide (g ∈ gs) then Some true else None.
Proof.
  unfold JsMap.of_entries. rewrite foldl_fmap. cbn.
  apply (JsMap_get_foldl_set (λ _, true) gs [] g).
Qed.

(** ** Which groups start collapsed *)

(** X6.  Opened on an initial group, the wizard starts with every known
    group collapsed except that one, whatever the storage says about the
    known groups; it fails to start only on a stored value that is not a
    list. *)
Theorem steps_collapsed_on_initial_group
    (st : gmap string StoredValue) (initial : LaunchpadGroup) :
  (∀ s, st !! "launchpad:groups:collapsed" ≠ Some (StoredString s)) →
  ∃ c, steps_collapsed st (Some initial) = Some c
     ∧ ∀ g, g ∈ launchpadGroups →
            JsMap.get g c = Some (bool_decide (g ≠ initial)).
Proof.
  intros Hlist. unfold steps_collapsed.
  change key_groups_collapsed with "launchpad:groups:collapsed".
  destruct (st !! "launchpad:groups:collapsed") as [[gs|s]|];
    [|by destruct (Hlist s)|]; cbn;
    (eexists; split; [reflexivity|]); intros g Hg;
    rewrite (JsMap_get_foldl_set (λ group, bool_decide (group ≠ initial)));
    by rewrite decide_True.
Qed.

(** ** Toggling a group *)

(** X8.  The toggle of a heading flips the collapsed flag of its own group
    and nothing else in the map; toggling the same heading twice gives every
    group the flag it had. *)
Theorem toggle_flips_its_group_only (w : Wizard) (ui : LaunchpadGroup) :
  let w' := onDidSelect (ToggleGroup ui) w in
  is_collapsed (context w') ui = negb (is_collapsed (context w) ui)
  ∧ (∀ g, g ≠ ui →
          JsMap.get g (collapsed (context w')) = JsMap.get g (collapsed (context w)))
  ∧ (∀ g, is_collapsed (context (onDidSelect (ToggleGroup ui) w')) g
          = is_collapsed (context w) g).
Proof.
  intros w'. subst w'.
  assert (Hc : ∀ w0 : Wizard,
            collapsed (context (onDidSelect (ToggleGroup ui) w0))
            = JsMap.set ui (negb (is_collapsed (context w0) ui))
                        (collapsed (context w0))).
  { intros w0. rewrite onDidSelect_eq. by destruct (initialGroup (state w0)). }
  unfold is_collapsed. rewrite !Hc. unfold is_collapsed. rewrite !Hc.
  split; [by rewrite JsMap_get_set_eq|].
  split; [intros g Hg; by apply JsMap_get_set_ne|].
  intros g. destruct (decide (g = ui)) as [->|Hne].
  - rewrite !JsMap_get_set_eq. cbn. apply negb_involutive.
  - by rewrite !JsMap_get_set_ne.
Qed.

Lemma constructor_initialGroup args now (st : gmap string StoredValue) :
  initialGroup (constructor args now st).2
  = (args ≫= arg_state) ≫= arg_initialGroup.
Proof. unfold constructor. by destruct (_ && _). Qed.

Lemma constructor_groups_collapsed args now (st : gmap string StoredValue) :
  (constructor args now st).1.1 !! key_groups_collapsed
  = st !! key_groups_collapsed.
Proof.
  destruct (constructor_storage args now st) as [[-> _]|[-> _]]; [done|].
  by rewrite lookup_insert_ne.
Qed.

(** X9.  What a toggle stores is what the next invocation starts from: a
    wizard opened without an initial group, on the storage a toggle left
    behind, starts with every group collapsed or expanded as the toggle
    left it. *)
Theorem collapsed_groups_survive_reopening
    (w : Wizard) (ui : LaunchpadGroup) (args : option LaunchpadCommandArgs)
    (now : string) (connected : list (IntegrationId * bool)) :
  initialGroup (state w) = None →
  (args ≫= arg_state) ≫= arg_initialGroup = None →
  let w' := onDidSelect (ToggleGroup ui) w in
  ∃ w0, invoke args now connected (storage w') = Some w0
      ∧ ∀ g, is_collapsed (context w0) g = is_collapsed (context w') g.
Proof.
  intros Hinit Hargs w'. subst w'. rewrite onDidSelect_eq, Hinit.
  set (c' := JsMap.set ui _ (collapsed (context w))).
  set (gs := filter _ (JsMap.keys c')).
  set (w' := mkWizard _ _ _ _ _ _).
  pose proof (constructor_groups_collapsed args now (storage w')) as Hkey.
  pose proof (constructor_initialGroup args now (storage w')) as Hig.
  unfold invoke, steps_prologue.
  destruct (constructor args now (storage w')) as [[st' effs] s]. cbn in Hkey, Hig.
  cbn. unfold steps_collapsed. rewrite Hkey, lookup_insert_eq, Hig, Hargs.
  cbn. eexists. split; [reflexivity|].
  intros g. unfold is_collapsed. cbn. rewrite JsMap_get_of_entries.
  pose proof (stored_groups_spec c' g) as Hgs. fold gs in Hgs.
  destruct (decide (g ∈ gs)) as [Hin|Hnin]; cbn.
  - apply Hgs in Hin. by rewrite Hin.
  - destruct (JsMap.get g c') as [[|]|] eqn:Hget; try done.
    by destruct Hnin; apply Hgs.
Qed.

(** ** What the pick step lists *)

Lemma omap_entry_of_picks (f : LaunchpadItem → LaunchpadItemQuickPickItem)
    (ui : LaunchpadGroup) (groupItems : list LaunchpadItem) :
  (∀ i, item (f i) = i ∧ group (f i) = ui) →
  omap entry_of ((λ i, LaunchpadPick (f i)) <$> groupItems)
  = (λ i, (i, ui)) <$> groupItems.
Proof.
  intros Hf. induction groupItems as [|i groupItems IH]; [done|].
  cbn. destruct (Hf i) as [-> ->]. by rewrite <- IH.
Qed.

Lemma omap_toggle_of_picks (f : LaunchpadItem → LaunchpadItemQuickPickItem)
    (groupItems : list LaunchpadItem) :
  omap toggle_of ((λ i, LaunchpadPick (f i)) <$> groupItems) = [].
Proof. by induction groupItems. Qed.

Lemma getItems_group_entries ctx ps topItem isSearching acc ui groupItems :
  omap entry_of (getItems_group ctx ps topItem isSearching acc (ui, groupItems))
  = omap entry_of acc
    ++ (if negb (truthy_bool isSearching) && is_collapsed ctx ui then []
        else (λ i, (i, ui)) <$> groupItems).
Proof.
  unfold getItems_group, is_collapsed.
  destruct groupItems as [|i groupItems].
  { destruct (_ && _); by rewrite app_nil_r. }
  destruct (truthy_bool isSearching); cbn [negb andb].
  - rewrite omap_app. f_equal. by apply omap_entry_of_picks.
  - destruct (truthy_bool (JsMap.get ui (collapsed ctx))).
    + rewrite omap_app. cbn. done.
    + rewrite !omap_app. cbn [buildGroupHeading omap entry_of].
      rewrite app_nil_r. f_equal. by apply omap_entry_of_picks.
Qed.

Lemma getItems_group_toggles ctx ps topItem isSearching acc ui groupItems :
  omap toggle_of (getItems_group ctx ps topItem isSearching acc (ui, groupItems))
  = omap toggle_of acc
    ++ (if truthy_bool isSearching || bool_decide (groupItems = []) then []
        else [ui]).
Proof.
  unfold getItems_group.
  destruct groupItems as [|i groupItems].
  { rewrite orb_true_r. by rewrite app_nil_r. }
  rewrite bool_decide_eq_false_2 by done. rewrite orb_false_r.
  destruct (truthy_bool isSearching); cbn [negb andb].
  - rewrite omap_app, omap_toggle_of_picks. done.
  - destruct (truthy_bool (JsMap.get ui (collapsed ctx))).
    + rewrite omap_app. done.
    + rewrite !omap_app, omap_toggle_of_picks. cbn. by rewrite app_nil_r.
Qed.

Lemma foldl_getItems_group_entries ctx ps topItem isSearching uiGroups acc :
  omap entry_of (foldl (getItems_group ctx ps topItem isSearching) acc uiGroups)
  = omap entry_of acc
    ++ (uiGroups ≫= λ '(ui, groupItems),
          if negb (truthy_bool isSearching) && is_collapsed ctx ui then []
          else (λ i, (i, ui)) <$> groupItems).
Proof.
  revert acc. induction uiGroups as [|[ui groupItems] uiGroups IH]; intros acc.
  - cbn. by rewrite app_nil_r.
  - cbn [foldl]. rewrite IH, getItems_group_entries. cbn.
    by rewrite <- app_assoc.
Qed.

Lemma foldl_getItems_group_toggles ctx ps topItem isSearching uiGroups acc :
  omap toggle_of (foldl (getItems_group ctx ps topItem isSearching) acc uiGroups)
  = omap toggle_of acc
    ++ (uiGroups ≫= λ '(ui, groupItems),
          if truthy_bool isSearching || bool_decide (groupItems = []) then []
          else [ui]).
Proof.
  revert acc. induction uiGroups as [|[ui groupItems] uiGroups IH]; intros acc.
  - cbn. by rewrite app_nil_r.
  - cbn [foldl]. rewrite IH, getItems_group_toggles. cbn.
    by rewrite <- app_assoc.
Qed.

Lemma getItems_entries ctx ps items isSearching :
  items ≠ [] →
  omap entry_of (getItems ctx ps (ResultItems items) isSearching)
  = (groupAndSortLaunchpadItems items ≫= λ '(ui, groupItems),
       if negb (truthy_bool isSearching) && is_collapsed ctx ui then []
       else (λ i, (i, ui)) <$> groupItems).
Proof.
  intros Hne. destruct items as [|i items]; [done|].
  unfold getItems. by rewrite foldl_getItems_group_entries.
Qed.

(** X10.  For a non-empty result the pick step lists, group by group in the
    provider's order, the pull requests of every group that is not
    collapsed, each under its own group, and one heading per non-empty
    group; while searching it lists the pull requests of all groups,
    collapsed or not, and no heading. *)
Theorem getItems_lists_visible_groups
    (ctx : Context) (ps : PickStep) (items : list LaunchpadItem)
    (isSearching : option bool) :
  items ≠ [] →
  omap entry_of (getItems ctx ps (ResultItems items) isSearching)
  = (groupAndSortLaunchpadItems items ≫= λ '(ui, groupItems),
       if negb (truthy_bool isSearching) && is_collapsed ctx ui then []
       else (λ i, (i, ui)) <$> groupItems)
  ∧ omap toggle_of (getItems ctx ps (ResultItems items) isSearching)
    = (groupAndSortLaunchpadItems items ≫= λ '(ui, groupItems),
         if truthy_bool isSearching || bool_decide (groupItems = []) then []
         else [ui]).
Proof.
  intros Hne. destruct items as [|i items]; [done|].
  unfold getItems.
  by rewrite foldl_getItems_group_entries, foldl_getItems_group_toggles.
Qed.

Lemma steps_collapsed_initial_get
    (st : gmap string StoredValue) (initial : LaunchpadGroup)
    (c : list (LaunchpadGroup * bool)) :
  steps_collapsed st (Some initial) = Some c →
  ∀ g, g ∈ launchpadGroups → JsMap.get g c = Some (bool_decide (g ≠ initial)).
Proof.
  unfold steps_collapsed.
  destruct (st !! key_groups_collapsed) as [[gs|s]|]; [|done|]; cbn;
    intros [= <-] g Hg;
    rewrite (JsMap_get_foldl_set (λ group, bool_decide (group ≠ initial)));
    by rewrite decide_True.
Qed.

Lemma list_bind_ext_in {A B} (f g : A → list B) (l : list A) :
  (∀ x, x ∈ l → f x = g x) → l ≫= f = l ≫= g.
Proof.
  induction l as [|x l IH]; intros Hfg; [done|]. cbn.
  rewrite (Hfg x) by apply list_elem_of_here.
  rewrite IH; [done|]. intros y Hy. apply Hfg. by apply list_elem_of_further.
Qed.

(** X7.  A wizard opened on an initial group, with no item chosen yet,
    lists in its pick step the pull requests of that group and of no other
    group. *)
Theorem opened_on_group_lists_that_group `{!LaunchpadProviderTyped}
    (st : gmap string StoredValue) (args : option LaunchpadCommandArgs)
    (now : string) (connected : list (IntegrationId * bool)) (w0 : Wizard)
    (force : bool) (f : Fetched) (items : list LaunchpadItem)
    (initial : LaunchpadGroup) :
  invoke args now connected st = Some w0 →
  initialGroup (state w0) = Some initial →
  state_item (state w0) = None →
  fetched_result f = ResultItems items →
  items ≠ [] →
  omap entry_of (qp_items (quickpick (steps_iteration force f w0)))
  = (groupAndSortLaunchpadItems items ≫= λ '(ui, groupItems),
       if decide (ui = initial) then (λ i, (i, ui)) <$> groupItems else []).
Proof.
  intros Hinvoke Hinit Hitem Hf Hne.
  destruct (invoke_eq _ _ _ _ _ Hinvoke) as (c0 & Hc0 & Hw0).
  assert (Hig : initialGroup (constructor args now st).2 = Some initial)
    by (rewrite Hw0 in Hinit; exact Hinit).
  rewrite Hig in Hc0.
  pose proof (steps_collapsed_initial_get _ _ _ Hc0) as Hget.
  unfold steps_iteration, updateContextItems. cbn. rewrite Hitem, orb_true_r.
  unfold getItemsAndPlaceholder. cbn. rewrite Hf.
  destruct items as [|i items]; [done|]. cbn [qp_items quickpick set_quickpick].
  rewrite (getItems_entries _ _ (i :: items) None Hne).
  apply list_bind_ext_in. intros [ui groupItems] Hin. cbn.
  assert (Hknown : ui ∈ launchpadGroups).
  { apply (groupAndSortLaunchpadItems_typed (i :: items)).
    apply list_elem_of_fmap. by exists (ui, groupItems). }
  unfold is_collapsed. rewrite Hw0. cbn. rewrite (Hget ui Hknown). cbn.
  destruct (decide (ui = initial)) as [->|Hne'].
  - by rewrite bool_decide_eq_false_2 by (intros Hx; by apply Hx).
  - by rewrite bool_decide_eq_true_2.
Qed.

(** ** The label of an entry *)

Lemma utf16_ascii (s : string) :
  Forall (λ b, (Ascii.N_of_ascii b < 128)%N) (String.list_ascii_of_string s) →
  utf16 s = Ascii.N_of_ascii <$> String.list_ascii_of_string s.
Proof.
  induction s as [|b s IH]; intros Hs; [done|].
  apply Forall_cons in Hs as [Hb Hs]. cbn.
  destruct (N.ltb_spec (Ascii.N_of_ascii b) 192) as [_|Hge]; [|lia].
  by rewrite IH.
Qed.

(** X11.  The label of a pull-request entry is the title when the title has
    at most 60 UTF-16 code units, which is what [title.length] counts; a
    longer title is cut to its first 60 code units followed by three dots,
    so a label never has more than 63.  For a title in ASCII the code units
    are its characters. *)
Theorem quickpick_label_is_bounded
    (picked : option string) (i : LaunchpadItem) (ui : LaunchpadGroup)
    (topItem : option LaunchpadItem) (alwaysShow : option bool) :
  let l := label (buildLaunchpadQuickPickItem picked i ui topItem alwaysShow) in
  let units := utf16 (title i) in
  (length l ≤ 63)%nat
  ∧ ((length units ≤ 60)%nat → l = units)
  ∧ ((60 < length units)%nat →
     l = take 60 units ++ [46; 46; 46]%N ∧ length l = 63)
  ∧ (Forall (λ b, (Ascii.N_of_ascii b < 128)%N) (String.list_ascii_of_string (title i)) →
     units = Ascii.N_of_ascii <$> String.list_ascii_of_string (title i)
     ∧ length units = String.length (title i)).
Proof.
  intros l units. subst l units. cbn [label buildLaunchpadQuickPickItem].
  change (utf16 "...") with [46; 46; 46]%N.
  split; [|split; [|split]].
  - case_bool_decide as Hlong; [|lia].
    rewrite length_app, length_take. cbn [length]. lia.
  - intros Hshort. by rewrite bool_decide_eq_false_2 by lia.
  - intros Hlong. rewrite bool_decide_eq_true_2 by done.
    split; [done|]. rewrite length_app, length_take. cbn [length]. lia.
  - intros Hascii. rewrite (utf16_ascii _ Hascii). split; [done|].
    rewrite length_fmap. clear Hascii.
    induction (title i) as [|b s IH]; cbn; [done|]. by rewrite IH.
Qed.

(** The decoding at work: one code unit for a letter of two bytes and for a
    sign of three, two for an emoji; and a title of forty letters of two
    bytes each, eighty bytes, is not cut. *)
Lemma utf16_samples
    (picked : option string) (ui : LaunchpadGroup)
    (topItem : option LaunchpadItem) (alwaysShow : option bool) :
  utf16 "é" = [233]%N
  ∧ utf16 "€" = [8364]%N
  ∧ utf16 "😀" = [55357; 56832]%N
  ∧ let t := "éééééééééééééééééééééééééééééééééééééééé" in
    String.length t = 80
    ∧ length (utf16 t) = 40
    ∧ label (buildLaunchpadQuickPickItem picked (mkLaunchpadItem "1" "PR_1" t)
                                         ui topItem alwaysShow)
      = utf16 t.
Proof. repeat split. Qed.

(** ** Merging search results into the shown entries *)

Lemma combine_filter_nil (ids : list string) (items : list PickItem) :
  (∀ i id, i ∈ items → item_id_of i = Some id → id = "" ∨ id ∈ ids) →
  filter (λ i, (if item_id_of i is Some id
                then truthy_string id && bool_decide (id ∉ ids)
                else false) = true) items = [].
Proof.
  intros Hall. induction items as [|i items IH]; [done|].
  rewrite filter_cons.
  destruct (decide _) as [Hkeep|_].
  - destruct (item_id_of i) as [id|] eqn:Hid; [|done].
    apply andb_true_iff in Hkeep as [Hid1 Hid2].
    apply bool_decide_eq_true_1 in Hid1, Hid2.
    destruct (Hall i id (list_elem_of_here _ _) Hid); done.
  - apply IH. intros i' id Hin. apply Hall. by apply list_elem_of_further.
Qed.

(** X12.  Merging search results keeps the shown entries, in place, and
    appends only pull-request entries with a non-empty id that no shown
    entry has; merging the same results a second time adds nothing. *)
Theorem combine_appends_new_entries_once (arr items : list PickItem) :
  let merged := combineQuickpickItemsWithSearchResults arr items in
  (∃ added,
     merged = arr ++ added
     ∧ ∀ i, i ∈ added →
            i ∈ items
            ∧ ∃ p, i = LaunchpadPick p
                 ∧ item_id (item p) ≠ ""
                 ∧ ∀ q, LaunchpadPick q ∈ arr → item_id (item q) ≠ item_id (item p))
  ∧ combineQuickpickItemsWithSearchResults merged items = merged
  ∧ combineQuickpickItemsWithSearchResults arr [] = arr.
Proof.
  intros merged. subst merged. unfold combineQuickpickItemsWithSearchResults.
  set (keep ids := λ i : PickItem,
         (if item_id_of i is Some id
          then truthy_string id && bool_decide (id ∉ ids) else false) = true).
  split; [|split].
  - eexists. split; [reflexivity|].
    intros i Hin. apply list_elem_of_filter in Hin as [Hkeep Hin].
    split; [done|]. unfold keep in Hkeep.
    destruct i as [l|d|p|]; try done. exists p. split; [done|].
    cbn in Hkeep. apply andb_true_iff in Hkeep as [Hid1 Hid2].
    apply bool_decide_eq_true_1 in Hid1, Hid2. split; [done|].
    intros q Hq Heq. apply Hid2. rewrite <- Heq.
    apply list_elem_of_omap. by exists (LaunchpadPick q).
  - set (added := filter _ items).
    rewrite (combine_filter_nil (omap item_id_of (arr ++ added)) items);
      [by rewrite app_nil_r|].
    intros i id Hin Hid.
    destruct (decide (id = "")) as [->|Hne]; [by left|]. right.
    rewrite omap_app. apply elem_of_app.
    destruct (decide (id ∈ omap item_id_of arr)) as [Harr|Hnarr]; [by left|].
    right. apply list_elem_of_omap. exists i. split; [|done].
    apply list_elem_of_filter. split; [|done].
    rewrite Hid. apply andb_true_iff. split; by apply bool_decide_eq_true_2.
  - by rewrite filter_nil, app_nil_r.
Qed.

(** ** What an action can set off *)

(** X13.  Whatever the action, the dispatch makes at most one provider
    call; it makes one only for the ten action strings of the switch and for
    the target action 'open-suggestion'; any other action, or none, makes
    no call and ends the steps.  Only 'soft-open' keeps the wizard open. *)
Theorem dispatch_at_most_one_call (action : option Action) (item : LaunchpadItem) :
  (length (dispatch action item).1 ≤ 1)%nat
  ∧ ((dispatch action item).1 ≠ [] →
     ∃ a, action = Some a
        ∧ (a ∈ ActionString <$>
                 ["merge"; "open"; "soft-open"; "switch"; "show-overview";
                  "open-worktree"; "switch-and-code-suggest"; "code-suggest";
                  "open-changes"; "open-in-graph"]
           ∨ ∃ target, a = ActionTarget "open-suggestion" target))
  ∧ ((dispatch action item).2 = false ↔ action = Some (ActionString "soft-open")).
Proof.
  destruct action as [[a|a target]|]; unfold dispatch.
  - repeat case_decide; subst; cbn [fst snd length];
      (split; [lia|]); (split; [|split; [done|by intros ?; simplify_eq]]);
      try done;
      intros _; (eexists; split; [reflexivity|]); left;
      apply (bool_decide_unpack _); by vm_compute.
  - case_decide; subst; cbn [fst snd length]; (split; [lia|]); (split; [|done]);
      [|done].
    intros _. eexists. split; [reflexivity|]. right. by eexists.
  - cbn. split; [lia|]. done.
Qed.

(** ** The interaction timestamp *)

(** X14.  The interaction timestamp is written by the constructor only,
    only when the wizard is opened from the Launchpad indicator, and only
    when the storage holds none: in every state of the wizard the stored
    timestamp is the one found, or else the time of this first opening. *)
Theorem hasInteracted_is_written_once
    (st : gmap string StoredValue) (args : option LaunchpadCommandArgs)
    (now : string) (connected : list (IntegrationId * bool))
    (es : list Event) (w0 w : Wizard) :
  invoke args now connected st = Some w0 →
  run w0 es = Some w →
  storage w !! "launchpad:indicator:hasInteracted"
  = match st !! "launchpad:indicator:hasInteracted" with
    | Some found => Some found
    | None =>
        if decide (args ≫= arg_source = Some "launchpad-indicator")
        then Some (StoredString now) else None
    end.
Proof.
  intros Hinvoke Hrun.
  change "launchpad:indicator:hasInteracted" with key_indicator_hasInteracted.
  assert (H0 : storage w0 !! key_indicator_hasInteracted
               = match st !! key_indicator_hasInteracted with
                 | Some found => Some found
                 | None =>
                     if decide (args ≫= arg_source = Some "launchpad-indicator")
                     then Some (StoredString now) else None
                 end).
  { destruct (invoke_eq _ _ _ _ _ Hinvoke) as (c0 & _ & ->). cbn.
    unfold constructor.
    destruct (decide (args ≫= arg_source = Some "launchpad-indicator")) as [Hs|Hs].
    - rewrite (bool_decide_eq_true_2 _ Hs).
      destruct (st !! key_indicator_hasInteracted) as [found|] eqn:Hfound.
      + rewrite bool_decide_eq_false_2 by done. cbn. exact Hfound.
      + rewrite bool_decide_eq_true_2 by done. cbn. apply lookup_insert_eq.
    - rewrite (bool_decide_eq_false_2 _ Hs). cbn.
      by destruct (st !! key_indicator_hasInteracted). }
  rewrite <- H0.
  apply (run_invariant
           (λ w, storage w !! key_indicator_hasInteracted
                 = storage w0 !! key_indicator_hasInteracted))
    with (es := es) (w := w0); [| |done|exact Hrun].
  - intros w1 w2 (Hs & _) Hw1. by rewrite Hs.
  - intros w1 d ui Hw1 _ _. rewrite onDidSelect_eq.
    destruct (initialGroup (state w1)); cbn; [done|].
    by rewrite lookup_insert_ne.
Qed.

(** ** Which entry is preselected *)

Lemma getItems_group_picks ctx ps topItem isSearching acc ui groupItems p :
  LaunchpadPick p ∈ getItems_group ctx ps topItem isSearching acc (ui, groupItems) →
  LaunchpadPick p ∈ acc
  ∨ ∃ i, p = buildLaunchpadQuickPickItem (step_picked ps) i ui topItem isSearching.
Proof.
  unfold getItems_group. intros Hin.
  destruct groupItems as [|i0 groupItems]; [by left|].
  assert (Hheading :
            LaunchpadPick p ∈
              (if truthy_bool isSearching then acc
               else acc ++ buildGroupHeading ctx ui (length (i0 :: groupItems))) →
            LaunchpadPick p ∈ acc).
  { destruct (truthy_bool isSearching); [done|].
    intros Hin'. apply elem_of_app in Hin' as [Hin'|Hin']; [done|].
    apply elem_of_cons in Hin' as [?|Hin']; [done|].
    by apply list_elem_of_singleton in Hin'. }
  destruct (_ && _); [left; by apply Hheading|].
  apply elem_of_app in Hin as [Hin|Hin]; [left; by apply Hheading|].
  apply list_elem_of_fmap in Hin as (i & [= ->] & _). right. by exists i.
Qed.

Lemma getItems_picks ctx ps items isSearching p :
  LaunchpadPick p ∈ getItems ctx ps (ResultItems items) isSearching →
  ∃ i ui,
    p = buildLaunchpadQuickPickItem (step_picked ps) i ui
          (if negb (truthy_bool (step_selectTopItem ps))
              || bool_decide (step_picked ps ≠ None)
           then None
           else top_of_groups (groupAndSortLaunchpadItems items))
          isSearching.
Proof.
  unfold getItems. destruct items as [|i0 items];
    [intros Hin; by apply elem_of_nil in Hin|].
  set (uiGroups := groupAndSortLaunchpadItems (i0 :: items)).
  assert (Htop : or_else (first_of_group uiGroups "mergeable")
                   (or_else (first_of_group uiGroups "blocked")
                      (or_else (first_of_group uiGroups "follow-up")
                               (first_of_group uiGroups "needs-review")))
                 = top_of_groups uiGroups).
  { unfold top_of_groups. cbn [omap list_omap].
    change (list_omap _ _ ?f ?l) with (omap f l).
    destruct (first_of_group uiGroups "mergeable"); [done|].
    destruct (first_of_group uiGroups "blocked"); [done|].
    destruct (first_of_group uiGroups "follow-up"); [done|].
    by destruct (first_of_group uiGroups "needs-review"). }
  rewrite Htop. clear Htop.
  generalize (if negb (truthy_bool (step_selectTopItem ps))
                 || bool_decide (step_picked ps ≠ None)
              then None else top_of_groups uiGroups).
  intros topItem. generalize uiGroups. clear uiGroups. intros uiGroups.
  assert (Hgen : ∀ acc,
            LaunchpadPick p ∈ foldl (getItems_group ctx ps topItem isSearching)
                                    acc uiGroups →
            LaunchpadPick p ∈ acc
            ∨ ∃ i ui, p = buildLaunchpadQuickPickItem (step_picked ps) i ui
                            topItem isSearching).
  { induction uiGroups as [|[ui groupItems] uiGroups IH]; intros acc Hin;
      [by left|]. cbn in Hin.
    destruct (IH _ Hin) as [Hacc|Hbuilt]; [|by right].
    destruct (getItems_group_picks _ _ _ _ _ _ _ _ Hacc) as [Hacc'|[i ->]];
      [by left|]. right. by eexists _, _. }
  intros Hin. destruct (Hgen [] Hin) as [Hnil|Hbuilt]; [|done].
  by apply elem_of_nil in Hnil.
Qed.

(** X22.  Which entries of the pick step are preselected.  When the step is
    given the id of a picked item, exactly the entries with that id are;
    the top item then plays no part.  Otherwise, without [selectTopItem] no
    entry is, and with it exactly the entries with the id of the top item:
    the first pull request of the first non-empty group among mergeable,
    blocked, follow-up and needs-review, in this order. *)
Theorem preselected_entries
    (ctx : Context) (ps : PickStep) (items : list LaunchpadItem)
    (isSearching : option bool) (p : LaunchpadItemQuickPickItem) :
  LaunchpadPick p ∈ getItems ctx ps (ResultItems items) isSearching →
  (∀ id, step_picked ps = Some id →
         picked p = bool_decide (graphQLId (item p) = id))
  ∧ (step_picked ps = None → truthy_bool (step_selectTopItem ps) = false →
     picked p = false)
  ∧ (step_picked ps = None → truthy_bool (step_selectTopItem ps) = true →
     picked p
     = bool_decide (Some (graphQLId (item p))
                    = graphQLId <$> top_of_groups (groupAndSortLaunchpadItems items))).
Proof.
  intros Hin. destruct (getItems_picks _ _ _ _ _ Hin) as (i & ui & ->).
  cbn [picked item buildLaunchpadQuickPickItem].
  split; [|split].
  - intros id ->. rewrite (bool_decide_eq_true_2 (Some id ≠ None)) by done.
    rewrite orb_true_r. cbn. rewrite orb_false_r.
    apply bool_decide_ext. split; [by intros [= ->]|by intros ->].
  - intros -> ->. cbn. rewrite orb_false_r.
    by rewrite bool_decide_eq_false_2.
  - intros -> ->. cbn.
    by rewrite (bool_decide_eq_false_2 (Some _ = None)).
Qed.

End LaunchpadMore.

Section LaunchpadMoreWitnesses.
Import Launchpad LaunchpadViews Demo.
#[local] Existing Instance provider_typed.

Lemma steps_collapsed_on_initial_group_witness :
  ∃ c, steps_collapsed empty_storage (Some "blocked") = Some c
     ∧ ∀ g, g ∈ launchpadGroups →
            JsMap.get g c = Some (bool_decide (g ≠ "blocked")).
Proof.
  apply (steps_collapsed_on_initial_group empty_storage "blocked").
  intros s. vm_compute. discriminate.
Defined.

Lemma collapsed_groups_survive_reopening_witness :
  let w' := onDidSelect (ToggleGroup "other") chosen_merge in
  ∃ w0, invoke None "2024-02-02T00:00:00.000Z" [] (storage w') = Some w0
      ∧ ∀ g, is_collapsed (context w0) g = is_collapsed (context w') g.
Proof.
  apply (collapsed_groups_survive_reopening chosen_merge "other" None
           "2024-02-02T00:00:00.000Z" []); reflexivity.
Defined.

Lemma getItems_lists_visible_groups_witness :
  omap entry_of
    (getItems (mkContext (ResultItems [pr1; pr2]) [("mergeable", true)] [])
              (mkPickStep None None) (ResultItems [pr1; pr2]) (Some true))
  = [(pr1, "mergeable"); (pr2, "mergeable")]
  ∧ omap entry_of
      (getItems (mkContext (ResultItems [pr1; pr2]) [("mergeable", true)] [])
                (mkPickStep None None) (ResultItems [pr1; pr2]) None)
    = [].
Proof.
  split.
  - refine (proj1 (getItems_lists_visible_groups
                     (mkContext (ResultItems [pr1; pr2]) [("mergeable", true)] [])
                     (mkPickStep None None) [pr1; pr2] (Some true) _)).
    discriminate.
  - refine (proj1 (getItems_lists_visible_groups
                     (mkContext (ResultItems [pr1; pr2]) [("mergeable", true)] [])
                     (mkPickStep None None) [pr1; pr2] None _)).
    discriminate.
Defined.

Lemma opened_on_group_lists_that_group_witness :
  ∃ w0,
    invoke (Some (mkArgs None None
                    (Some (mkPartialState None None (Some "mergeable") None))))
           "2024-01-01T00:00:00.000Z" [("github", true)] empty_storage = Some w0
    ∧ omap entry_of (qp_items (quickpick (steps_iteration false fetched_two w0)))
      = [(pr1, "mergeable"); (pr2, "mergeable")].
Proof.
  eexists. split; [vm_compute; reflexivity|].
  refine (opened_on_group_lists_that_group empty_storage
            (Some (mkArgs None None
                     (Some (mkPartialState None None (Some "mergeable") None))))
            "2024-01-01T00:00:00.000Z" [("github", true)] _ false
            fetched_two [pr1; pr2] "mergeable" _ _ _ _ _).
  - vm_compute; reflexivity.
  - reflexivity.
  - reflexivity.
  - reflexivity.
  - discriminate.
Defined.

Lemma hasInteracted_is_written_once_witness :
  ∃ w0 w,
    invoke (Some (mkArgs None (Some "launchpad-indicator") None))
           "2024-03-03T00:00:00.000Z" [] empty_storage = Some w0
    ∧ run w0 [Iteration false fetched_two; Select 1] = Some w
    ∧ storage w !! "launchpad:indicator:hasInteracted"
      = Some (StoredString "2024-03-03T00:00:00.000Z").
Proof.
  eexists. eexists. split; [vm_compute; reflexivity|].
  split; [vm_compute; reflexivity|].
  refine (hasInteracted_is_written_once empty_storage
            (Some (mkArgs None (Some "launchpad-indicator") None))
            "2024-03-03T00:00:00.000Z" []
            [Iteration false fetched_two; Select 1] _ _ _ _).
  - vm_compute; reflexivity.
  - vm_compute; reflexivity.
Defined.

Lemma preselected_entries_witness :
  let p := buildLaunchpadQuickPickItem None pr1 "mergeable" (Some pr1) None in
  picked p
  = bool_decide (Some (graphQLId (item p))
                 = graphQLId <$> top_of_groups
                                   (groupAndSortLaunchpadItems [pr1; pr2])).
Proof.
  intros p.
  refine (proj2 (proj2 (preselected_entries
                          (mkContext (ResultItems [pr1; pr2]) [] [])
                          (mkPickStep None (Some true)) [pr1; pr2] None p _))
            eq_refl eq_refl).
  vm_compute. do 2 apply list_elem_of_further. apply list_elem_of_here.
Defined.

End LaunchpadMoreWitnesses.

(** * The rows of the confirm step *)

Section LaunchpadRowsFacts.
Import Launchpad LaunchpadRows.
Context `{Helpers}.

(** X15.  The button that opens an item at its provider and the provider's
    title go together: an id that gets the GitLab button is titled GitLab,
    one that gets the GitHub button is titled GitHub, and an id that gets no
    button is titled by the id itself; there is never more than one such
    button. *)
Theorem provider_button_matches_title (integrationId : string) :
  getIntegrationTitle integrationId
  = match getOpenOnGitProviderQuickInputButton integrationId with
    | Some OpenOnGitLabQuickInputButton => "GitLab"
    | Some _ => "GitHub"
    | None => integrationId
    end
  ∧ (∀ button, getOpenOnGitProviderQuickInputButton integrationId = Some button →
               button = OpenOnGitLabQuickInputButton
               ∨ button = OpenOnGitHubQuickInputButton)
  ∧ (length (getOpenOnGitProviderQuickInputButtons integrationId) ≤ 1)%nat.
Proof.
  unfold getOpenOnGitProviderQuickInputButtons, getIntegrationTitle,
    getOpenOnGitProviderQuickInputButton.
  repeat case_decide; cbn; (split; [done|]); (split; [|lia]);
    intros button Hb; simplify_eq; auto.
Qed.

(** ** The status row *)

Lemma status_label_cases (item : ItemDetails) (row : Row) :
  getLaunchpadItemStatusInformation item = Some row →
  ∃ r, row = RowAction r
     ∧ row_value r = ActionString "soft-open"
     ∧ row_buttons r = getOpenOnGitProviderQuickInputButtons (provider_id item)
     ∧ String.prefix "$(pass)" (row_label r)
       = negb (hasConflicts item)
         && negb match buildStatuses item with
                 | Some (Failed :: _) => true
                 | _ => false
                 end
     ∧ String.prefix "$(error)" (row_label r)
       = negb (String.prefix "$(pass)" (row_label r)).
Proof.
  unfold getLaunchpadItemStatusInformation.
  destruct (buildStatuses item) as [[|[| |] rest]|] eqn:Hb; cbn; [done|..];
    intros [= <-]; eexists; (split; [reflexivity|]); cbn;
    (split; [done|]); (split; [done|]);
    by destruct (hasConflicts item).
Qed.

Lemma status_information_None (item : ItemDetails) :
  getLaunchpadItemStatusInformation item = None ↔ buildStatuses item = Some [].
Proof.
  unfold getLaunchpadItemStatusInformation.
  destruct (buildStatuses item) as [[|first rest]|]; cbn; split; done.
Qed.

(** X16.  The status row cannot be built for an item whose list of build
    statuses is empty, and only for such an item (the code reads the state
    of the first status).  Otherwise it is a 'soft-open' row whose label
    starts with the pass icon exactly when the item has no conflicts and its
    first build status is not a failure, and with the error icon in every
    other case. *)
Theorem status_information_row (item : ItemDetails) :
  (getLaunchpadItemStatusInformation item = None ↔ buildStatuses item = Some [])
  ∧ ∀ row, getLaunchpadItemStatusInformation item = Some row →
      ∃ r, row = RowAction r
         ∧ row_value r = ActionString "soft-open"
         ∧ (String.prefix "$(pass)" (row_label r) = true
            ↔ hasConflicts item = false
              ∧ ∀ rest, buildStatuses item ≠ Some (Failed :: rest))
         ∧ (String.prefix "$(error)" (row_label r) = true
            ↔ String.prefix "$(pass)" (row_label r) = false).
Proof.
  split.
  - unfold getLaunchpadItemStatusInformation.
    destruct (buildStatuses item) as [[|first rest]|]; cbn; split; done.
  - intros row Hrow.
    destruct (status_label_cases item row Hrow) as (r & -> & Hv & _ & Hpass & Herr).
    exists r. split; [done|]. split; [done|]. rewrite Herr, Hpass. split.
    + rewrite andb_true_iff, !negb_true_iff.
      split; intros [Hc Hf]; (split; [done|]).
      * intros rest Hrest. by rewrite Hrest in Hf.
      * destruct (buildStatuses item) as [[|[| |] rest]|]; try done.
        by destruct (Hf rest).
    + apply negb_true_iff.
Qed.

(** ** The review rows *)

Lemma review_row_soft_open (item : ItemDetails) (review : Review) (row : Row) :
  review_row item review = Some row →
  review_state review ≠ OtherReviewState
  ∧ ∃ r, row = RowAction r ∧ row_value r = ActionString "soft-open".
Proof.
  unfold review_row.
  destruct (review_state review); cbn; intros [= <-]; (split; [done|]);
    by eexists.
Qed.

Lemma review_row_None (item : ItemDetails) (review : Review) :
  review_row item review = None ↔ review_state review = OtherReviewState.
Proof. unfold review_row. by destruct (review_state review). Qed.

Lemma length_omap_filter {A B} (f : A → option B) (P : A → Prop)
    `{∀ x, Decision (P x)} (l : list A) :
  (∀ x, is_Some (f x) ↔ P x) →
  length (omap f l) = length (filter P l).
Proof.
  intros Hf. induction l as [|x l IH]; [done|]. rewrite filter_cons.
  cbn -[filter]. destruct (f x) as [y|] eqn:Hx.
  - rewrite decide_True by (apply Hf; by rewrite Hx). cbn. by rewrite IH.
  - rewrite decide_False; [done|]. intros HP. apply Hf in HP.
    rewrite Hx in HP. by destruct HP.
Qed.

(** X17.  Without reviews the review rows are the single row that says no
    reviewers have been assigned.  With reviews there is one row per review
    whose state is approved, changes requested, commented or review
    requested, and none for any other state, so a list of reviews in other
    states only gives no row at all.  Every review row is a 'soft-open'
    row. *)
Theorem review_information_rows (item : ItemDetails) :
  (reviews item = None ∨ reviews item = Some [] →
   ∃ r, getLaunchpadItemReviewInformation item = [RowAction r]
      ∧ row_label r = "$(info) No reviewers have been assigned")
  ∧ (∀ rs, reviews item = Some rs → rs ≠ [] →
       length (getLaunchpadItemReviewInformation item)
       = length (filter (λ review, review_state review ≠ OtherReviewState) rs))
  ∧ (∀ row, row ∈ getLaunchpadItemReviewInformation item →
       ∃ r, row = RowAction r ∧ row_value r = ActionString "soft-open").
Proof.
  unfold getLaunchpadItemReviewInformation. split; [|split].
  - intros [->| ->]; by eexists.
  - intros rs -> Hne. destruct rs as [|review rs]; [done|].
    apply length_omap_filter. intros x. rewrite <- review_row_None.
    symmetry. apply not_eq_None_Some.
  - intros row Hrow.
    destruct (reviews item) as [[|review rs]|];
      try (apply list_elem_of_singleton in Hrow as ->; by eexists).
    apply list_elem_of_omap in Hrow as (x & _ & Hx).
    by apply review_row_soft_open in Hx as [_ Hx].
Qed.

(** ** The code-suggestion rows and the information rows *)



Lemma status_row_value (item : ItemDetails) (row : Row) (a : Action) :
  getLaunchpadItemStatusInformation item = Some row →
  value_of row = Some a → a = ActionString "soft-open".
Proof.
  intros Hrow Ha.
  destruct (status_label_cases item row Hrow) as (r & -> & Hv & _).
  cbn in Ha. congruence.
Qed.

Lemma review_rows_value (item : ItemDetails) (row : Row) (a : Action) :
  row ∈ getLaunchpadItemReviewInformation item →
  value_of row = Some a → a = ActionString "soft-open".
Proof.
  unfold getLaunchpadItemReviewInformation. intros Hrow Ha.
  destruct (reviews item) as [[|review rs]|];
    try (apply list_elem_of_singleton in Hrow as ->; cbn in Ha; congruence).
  apply list_elem_of_omap in Hrow as (x & _ & Hx).
  apply review_row_soft_open in Hx as [_ (r & -> & Hv)]. cbn in Ha. congruence.
Qed.

Lemma suggestion_rows_value (item : ItemDetails) (row : Row) (a : Action) :
  row ∈ getLaunchpadItemCodeSuggestionInformation item →
  value_of row = Some a →
  ∃ suggestion, suggestion ∈ default [] (codeSuggestions item)
              ∧ a = ActionTarget "open-suggestion" (suggestion_id suggestion).
Proof.
  unfold getLaunchpadItemCodeSuggestionInformation. intros Hrow Ha.
  destruct (codeSuggestions item) as [[|suggestion suggestions]|];
    try by apply elem_of_nil in Hrow.
  apply elem_of_cons in Hrow as [->|Hrow]; [done|].
  apply list_elem_of_fmap in Hrow as (x & -> & Hx).
  exists x. split; [done|]. cbn in Ha. congruence.
Qed.

(** What the switch on the category leaves in [information]. *)
Lemma information_by_category_cases (item : ItemDetails) :
  let category := actionableCategory item in
  (information_by_category item = None
   ↔ category ∈ ["mergeable"; "failed-checks"; "conflicts"]
     ∧ buildStatuses item = Some [])
  ∧ ∀ information, information_by_category item = Some information →
      (information = []
       ↔ category ∉ ["mergeable"; "failed-checks"; "conflicts";
                     "unassigned-reviewers"; "needs-my-review";
                     "changes-requested"; "reviewer-commented";
                     "waiting-for-review"])
      ∧ (information ≠ [] →
         ∃ l rest, information = RowSeparator (Some l) :: rest)
      ∧ ∀ row a, row ∈ information → value_of row = Some a →
                 a = ActionString "soft-open".
Proof.
  intros category. subst category. unfold information_by_category.
  pose proof (status_information_None item) as Hnone.
  destruct (decide (actionableCategory item = "mergeable")) as [Hcat|Hcat].
  { rewrite Hcat.
    destruct (getLaunchpadItemStatusInformation item) as [status|] eqn:Hs; cbn.
    - split.
      + split; [done|]. intros [_ Hb]. apply Hnone in Hb. congruence.
      + intros information [= <-]. split; [|split].
        * split; [done|]. intros Hnin. destruct Hnin. apply list_elem_of_here.
        * intros _. by eexists _, _.
        * intros row a Hrow Ha.
          apply elem_of_cons in Hrow as [->|Hrow]; [done|].
          apply elem_of_cons in Hrow as [->|Hrow].
          -- by apply (status_row_value item status).
          -- by apply (review_rows_value item row).
    - split; [|done]. split; [|done]. intros _.
      split; [apply list_elem_of_here|]. by apply Hnone. }
  case_bool_decide as Hcat2.
  { destruct (getLaunchpadItemStatusInformation item) as [status|] eqn:Hs; cbn.
    - split.
      + split; [done|]. intros [_ Hb]. apply Hnone in Hb. congruence.
      + intros information [= <-]. split; [|split].
        * split; [done|]. intros Hnin. destruct Hnin.
          by apply list_elem_of_further, elem_of_app with (l1 := [_; _]); left.
        * intros _. by eexists _, _.
        * intros row a Hrow Ha.
          apply elem_of_cons in Hrow as [->|Hrow]; [done|].
          apply list_elem_of_singleton in Hrow as ->.
          by apply (status_row_value item status).
    - split; [|done]. split; [|done]. intros _.
      split; [by apply list_elem_of_further|]. by apply Hnone. }
  assert (Hnot3 : actionableCategory item
                  ∉ ["mergeable"; "failed-checks"; "conflicts"]).
  { intros Hin. apply elem_of_cons in Hin as [Hin|Hin]; done. }
  case_bool_decide as Hcat3; cbn.
  { split; [split; [done|by intros [? _]]|].
    intros information [= <-]. split; [|split].
    - split; [done|]. intros Hnin. destruct Hnin.
      by do 3 apply list_elem_of_further.
    - intros _. by eexists _, _.
    - intros row a Hrow Ha.
      apply elem_of_cons in Hrow as [->|Hrow]; [done|].
      by apply (review_rows_value item row). }
  split; [split; [done|by intros [? _]]|].
  intros information [= <-]. split; [|split].
  - split; [|done]. intros _ Hin.
    apply elem_of_cons in Hin as [Hin|Hin]; [done|].
    apply elem_of_cons in Hin as [Hin|Hin].
    { apply Hcat2. rewrite Hin. apply list_elem_of_here. }
    apply elem_of_cons in Hin as [Hin|Hin].
    { apply Hcat2. rewrite Hin. apply list_elem_of_further, list_elem_of_here. }
    done.
  - done.
  - intros row a Hrow. by apply elem_of_nil in Hrow.
Qed.

(** Closing a list of rows with the blank row, when it has rows. *)
Lemma closed_rows (information : list Row) :
  let rows := if information is [] then information
              else information ++ [blank_row] in
  (rows = [] ↔ information = [])
  ∧ (rows ≠ [] → last rows = Some blank_row)
  ∧ (∀ l rest, information = RowSeparator (Some l) :: rest →
               ∃ rest', rows = RowSeparator (Some l) :: rest')
  ∧ (∀ row a, row ∈ rows → value_of row = Some a → row ∈ information).
Proof.
  destruct information as [|first information]; cbn.
  - split; [done|]. split; [done|]. split; [done|]. done.
  - split; [done|]. split.
    { intros _.
      change (last ((first :: information) ++ [blank_row]) = Some blank_row).
      apply last_snoc. }
    split.
    { intros l rest [= -> ->]. by eexists. }
    intros row a Hrow Ha.
    change (row ∈ (first :: information) ++ [blank_row]) in Hrow.
    apply elem_of_app in Hrow as [Hrow|Hrow]; [done|].
    apply list_elem_of_singleton in Hrow as ->. done.
Qed.

(** The rows after the code suggestions were added (lines 1250-1256). *)
Lemma information_with_suggestions (item : ItemDetails) (information : list Row) :
  let information' :=
    match codeSuggestions item with
    | Some (_ :: _) =>
        (if information is [] then information else information ++ [blank_row])
        ++ RowSeparator (Some "Suggestions")
           :: getLaunchpadItemCodeSuggestionInformation item
    | _ => information
    end in
  (information' = [] ↔ information = [] ∧ default [] (codeSuggestions item) = [])
  ∧ ((information ≠ [] → ∃ l rest, information = RowSeparator (Some l) :: rest) →
     information' ≠ [] → ∃ l rest, information' = RowSeparator (Some l) :: rest)
  ∧ (∀ row a, row ∈ information' → value_of row = Some a →
       row ∈ information
       ∨ row ∈ getLaunchpadItemCodeSuggestionInformation item).
Proof.
  destruct (closed_rows information) as (_ & _ & Hsep & Hin).
  destruct (codeSuggestions item) as [[|suggestion suggestions]|]; cbn.
  1, 3: (split; [split; [done|by intros [? _]]|];
         split; [intros Hhead Hne; by apply Hhead|];
         intros row a Hrow _; by left).
  split.
  { split; [|by intros [_ ?]]. intros Hnil. by apply app_nil in Hnil as [_ ?]. }
  split.
  - intros Hhead _. destruct information as [|first information];
      [by eexists _, _|].
    destruct (Hhead ltac:(done)) as (l & rest & Heq).
    destruct (Hsep l rest Heq) as (rest' & ->). by eexists _, _.
  - intros row a Hrow Ha. apply elem_of_app in Hrow as [Hrow|Hrow].
    + left. by apply (Hin row a).
    + apply elem_of_cons in Hrow as [->|Hrow]; [done|]. by right.
Qed.

(** The values the information rows hand back. *)
Lemma information_rows_values (item : ItemDetails) (rows : list Row) (a : Action) :
  getLaunchpadItemInformationRows item = Some rows →
  a ∈ omap value_of rows →
  a = ActionString "soft-open"
  ∨ ∃ suggestion,
      suggestion ∈ default [] (codeSuggestions item)
      ∧ a = ActionTarget "open-suggestion" (suggestion_id suggestion).
Proof.
  unfold getLaunchpadItemInformationRows.
  destruct (information_by_category item) as [information|] eqn:Hinfo; [|done].
  cbn. intros [= <-] Ha.
  destruct (proj2 (information_by_category_cases item) information Hinfo)
    as (_ & _ & Hvalues).
  destruct (information_with_suggestions item information) as (_ & _ & Hin').
  set (information' := match codeSuggestions item with
                       | Some (_ :: _) => _
                       | _ => information
                       end) in *.
  destruct (closed_rows information') as (_ & _ & _ & Hin).
  apply list_elem_of_omap in Ha as (row & Hrow & Ha).
  apply (Hin row a) in Hrow; [|done].
  destruct (Hin' row a Hrow Ha) as [Hrow'|Hrow'].
  - left. by apply (Hvalues row).
  - right. by apply (suggestion_rows_value item row).
Qed.

(** X18.  The information rows cannot be built exactly when the category
    asks for the status row and the item's list of build statuses is empty.
    When they can, they are empty exactly for an item whose category calls
    for neither status nor reviewers and that has no code suggestions;
    otherwise they start with a separator and end with the blank row, and
    every row that hands back a value hands back 'soft-open' or the
    'open-suggestion' of one of the item's code suggestions. *)
Theorem information_rows_shape (item : ItemDetails) :
  (getLaunchpadItemInformationRows item = None
   ↔ actionableCategory item ∈ ["mergeable"; "failed-checks"; "conflicts"]
     ∧ buildStatuses item = Some [])
  ∧ ∀ rows, getLaunchpadItemInformationRows item = Some rows →
      (rows = []
       ↔ (actionableCategory item
            ∉ ["mergeable"; "failed-checks"; "conflicts"; "unassigned-reviewers";
               "needs-my-review"; "changes-requested"; "reviewer-commented";
               "waiting-for-review"])
         ∧ default [] (codeSuggestions item) = [])
      ∧ (rows ≠ [] →
         last rows = Some blank_row
         ∧ ∃ l rest, rows = RowSeparator (Some l) :: rest)
      ∧ ∀ a, a ∈ omap value_of rows →
             a = ActionString "soft-open"
             ∨ ∃ suggestion,
                 suggestion ∈ default [] (codeSuggestions item)
                 ∧ a = ActionTarget "open-suggestion" (suggestion_id suggestion).
Proof.
  split.
  { unfold getLaunchpadItemInformationRows.
    rewrite <- (proj1 (information_by_category_cases item)).
    by destruct (information_by_category item). }
  intros rows Hrows.
  split; [|split; [|intros a; by apply information_rows_values]].
  all: revert Hrows; unfold getLaunchpadItemInformationRows;
    destruct (information_by_category item) as [information|] eqn:Hinfo;
    [|done]; cbn; intros [= <-];
    destruct (proj2 (information_by_category_cases item) information Hinfo)
      as (Hempty & Hhead & _);
    destruct (information_with_suggestions item information)
      as (Hnil' & Hsep' & _);
    set (information' := match codeSuggestions item with
                         | Some (_ :: _) => _
                         | _ => information
                         end) in *;
    destruct (closed_rows information') as (Hnil & Hlast & Hsep & _).
  - by rewrite Hnil, Hnil', Hempty.
  - intros Hne. split; [by apply Hlast|].
    assert (Hne' : information' ≠ []) by (intros Hx; by apply Hne, Hnil).
    destruct (Hsep' Hhead Hne') as (l & rest & Heq).
    destruct (Hsep l rest Heq) as (rest' & Hrows). by eexists _, _.
Qed.

(** ** From the confirm step to the dispatch *)

Lemma confirmation_value (item : ItemDetails) (action : string) (row : Row) :
  confirmation item action = Some row →
  value_of row = Some (ActionString action)
  ∧ action ∈ ["merge"; "open"; "switch"; "open-worktree";
              "switch-and-code-suggest"; "code-suggest"; "show-overview";
              "open-changes"; "open-in-graph"].
Proof.
  unfold confirmation.
  repeat case_decide; try done; subst;
    try (intros [= <-]; split; [done|];
         apply (bool_decide_unpack _); by vm_compute).
  destruct (match headRepository_owner item with
            | Some _ => _
            | None => _
            end) as [from into].
  intros [= <-]. split; [done|]. apply (bool_decide_unpack _). by vm_compute.
Qed.

Lemma confirmation_is_Some (item : ItemDetails) (action : string) :
  action ∈ ["merge"; "open"; "switch"; "open-worktree";
            "switch-and-code-suggest"; "code-suggest"; "show-overview";
            "open-changes"; "open-in-graph"] →
  is_Some (confirmation item action).
Proof.
  intros Hin. unfold confirmation.
  repeat (apply elem_of_cons in Hin as [->|Hin];
          [repeat case_decide; try done;
           try (destruct (match headRepository_owner item with
                          | Some _ => _
                          | None => _
                          end)); by eexists|]).
  by apply elem_of_nil in Hin.
Qed.

(** X20.  Whatever the confirm step offers can be carried out: every value
    a row of the confirm step hands back makes the dispatch call the
    provider exactly once.  The action strings offered, besides 'soft-open',
    are suggested actions of the item, and every suggested action that the
    confirm step has a case for is offered. *)
Theorem confirmations_are_dispatched (item : ItemDetails) (rows : list Row) :
  getConfirmations item = Some rows →
  (∀ a it, a ∈ omap value_of rows → ∃ call, (dispatch (Some a) it).1 = [call])
  ∧ (∀ action, ActionString action ∈ omap value_of rows →
               action = "soft-open" ∨ action ∈ suggestedActions item)
  ∧ (∀ action, action ∈ suggestedActions item →
               action ∈ ["merge"; "open"; "switch"; "open-worktree";
                         "switch-and-code-suggest"; "code-suggest";
                         "show-overview"; "open-changes"; "open-in-graph"] →
               ActionString action ∈ omap value_of rows).
Proof.
  unfold getConfirmations.
  destruct (JsMap.get (actionableCategory item) actionGroupMap) as [group|]; [|done].
  destruct (author item) as [a0|]; [|done].
  destruct (getLaunchpadItemInformationRows item) as [information|] eqn:Hinfo;
    [|done].
  cbn. intros [= <-].
  pose proof (λ a, information_rows_values item information a Hinfo) as Hvalues.
  assert (Hcases : ∀ a, a ∈ omap value_of
            ([RowSeparator (Some (fromNow (updatedDate item)));
              RowAction
                (createQuickPickItemOfT (title (base item))
                   (Some (owner_login (repository_owner item) +:+ "/"
                          +:+ repository_name item +:+ "#" +:+ item_id (base item)))
                   (Some (interpolate group.2 (author_username a0)
                                      (fromNow (createdDate item))))
                   (UriParse <$> author_avatarUrl a0)
                   (getOpenOnGitProviderQuickInputButtons (provider_id item)
                    ++ (if isSearched item then []
                        else [if viewer_pinned item then UnpinQuickInputButton
                              else PinQuickInputButton;
                              if viewer_snoozed item then UnsnoozeQuickInputButton
                              else SnoozeQuickInputButton]))
                   (ActionString "soft-open"));
              blank_row]
             ++ information ++ [RowSeparator (Some "Actions")]
             ++ omap (confirmation item) (suggestedActions item)) →
            a = ActionString "soft-open"
            ∨ (∃ suggestion, a = ActionTarget "open-suggestion" suggestion)
            ∨ ∃ action, a = ActionString action
                      ∧ action ∈ suggestedActions item
                      ∧ action ∈ ["merge"; "open"; "switch"; "open-worktree";
                                  "switch-and-code-suggest"; "code-suggest";
                                  "show-overview"; "open-changes";
                                  "open-in-graph"]).
  { intros a Ha. apply list_elem_of_omap in Ha as (row & Hrow & Ha).
    apply elem_of_app in Hrow as [Hrow|Hrow].
    { repeat (apply elem_of_cons in Hrow as [->|Hrow]; [cbn in Ha; try done|]).
      - injection Ha as <-. by left.
      - by apply elem_of_nil in Hrow. }
    apply elem_of_app in Hrow as [Hrow|Hrow].
    { destruct (Hvalues a) as [->|(suggestion & _ & ->)].
      - apply list_elem_of_omap. by exists row.
      - by left.
      - right. left. by eexists. }
    apply elem_of_app in Hrow as [Hrow|Hrow].
    { apply list_elem_of_singleton in Hrow as ->. done. }
    apply list_elem_of_omap in Hrow as (action & Hin & Hc).
    apply confirmation_value in Hc as [Hv Hnine].
    right. right. exists action. split; [congruence|]. done. }
  split; [|split].
  - intros a it Ha.
    destruct (Hcases a Ha) as [->|[(suggestion & ->)|(action & -> & _ & Hnine)]].
    + by eexists.
    + by eexists.
    + repeat (apply elem_of_cons in Hnine as [->|Hnine]; [by eexists|]).
      by apply elem_of_nil in Hnine.
  - intros action Ha.
    destruct (Hcases _ Ha) as [[= ->]|[(suggestion & [=])|(action' & [= ->] & Hin & _)]].
    + by left.
    + by right.
  - intros action Hin Hnine.
    destruct (confirmation_is_Some item action Hnine) as [row Hrow].
    apply list_elem_of_omap. exists row. split.
    + do 3 apply list_elem_of_further. apply elem_of_app. right.
      apply list_elem_of_further.
      apply list_elem_of_omap. by exists action.
    + by apply confirmation_value in Hrow as [Hv _].
Qed.

(** ** The integrations the connect step offers *)

(** X21.  The connect step offers to connect an integration exactly when
    it is a supported Launchpad integration, it is GitHub or GitLab, and it
    is not connected yet. *)
Theorem connect_offers_unconnected
    (connectedIntegrations : list (IntegrationId * bool))
    (integration : IntegrationId) :
  integration ∈ (connect_confirmations connectedIntegrations).*2
  ↔ integration ∈ supportedLaunchpadIntegrations
    ∧ truthy_bool (JsMap.get integration connectedIntegrations) = false
    ∧ (integration = GitHub ∨ integration = GitLab).
Proof.
  unfold connect_confirmations. rewrite list_elem_of_fmap. split.
  - intros ([[l d] i] & -> & Hin). cbn.
    apply list_elem_of_omap in Hin as (x & Hx & Hsome).
    destruct (truthy_bool (JsMap.get x connectedIntegrations)) eqn:Hconn; [done|].
    repeat case_decide; simplify_eq; auto.
  - intros (Hin & Hconn & Hid).
    destruct (decide (integration = GitHub)) as [Hgh|Hgh].
    + eexists (_, _, integration). split; [done|].
      apply list_elem_of_omap. exists integration. split; [done|].
      rewrite Hconn. by rewrite decide_True.
    + destruct Hid as [Hid|Hid]; [done|].
      eexists (_, _, integration). split; [done|].
      apply list_elem_of_omap. exists integration. split; [done|].
      rewrite Hconn. rewrite decide_False by done. by rewrite decide_True.
Qed.

End LaunchpadRowsFacts.

Section LaunchpadRowsWitnesses.
Import Launchpad LaunchpadRows DemoRows.

Lemma confirmations_are_dispatched_witness :
  ∃ rows, getConfirmations mergeable_item = Some rows
        ∧ ∀ a it, a ∈ omap value_of rows →
                  ∃ call, (dispatch (Some a) it).1 = [call].
Proof.
  eexists. split; [vm_compute; reflexivity|].
  refine (proj1 (confirmations_are_dispatched mergeable_item _ _)).
  vm_compute; reflexivity.
Defined.

End LaunchpadRowsWitnesses.

(** * The debounced refresh, in time *)

Section LaunchpadRefreshFacts.
Import Launchpad AsyncDebouncer LaunchpadRefresh.
Context `{LaunchpadProvider}.

Lemma live_run_app (s : Live) (es1 es2 : list (Z * Moment)) :
  live_run s (es1 ++ es2) = live_run s es1 ≫= λ s', live_run s' es2.
Proof.
  revert s. induction es1 as [|e es1 IH]; intros s; cbn; [done|].
  destruct (live_step s e) as [s'|]; cbn; [apply IH|done].
Qed.

Lemma live_run_snoc (s s' : Live) (es : list (Z * Moment)) (e : Z * Moment) :
  live_run s (es ++ [e]) = Some s' ↔
  ∃ s1, live_run s es = Some s1 ∧ live_step s1 e = Some s'.
Proof.
  rewrite live_run_app. split.
  - destruct (live_run s es) as [s1|]; cbn; [|done].
    intros Hstep. exists s1. split; [done|].
    by destruct (live_step s1 e).
  - intros (s1 & -> & Hstep). cbn. by rewrite Hstep.
Qed.

Lemma consistent_opens (now : Z) (w : Wizard) : consistent (opens now w).
Proof.
  unfold consistent, opens. cbn.
  split; [done|]. split; [by intros ?%is_Some_None|].
  split; [intros c Hc; by apply elem_of_nil in Hc|].
  split; [intros c Hc; by apply elem_of_nil in Hc|].
  split; [intros tok Htok; by apply elem_of_nil in Htok|done].
Qed.

Lemma elapse_Some {Task} (now : Z) (d d' : AsyncDebouncer Task) task tok :
  elapse now d = Some (task, tok, d') ↔
  ∃ due, timer d = Some (due, task) ∧ (due ≤ now)%Z ∧ tok = next_token d
       ∧ d' = mkAsyncDebouncer (delay d) None (Some (next_token d))
                               (cancelled d) (S (next_token d)).
Proof.
  unfold elapse. split.
  - destruct (timer d) as [[due task']|]; [|done].
    case_bool_decide; [|done]. intros [= -> <- <-]. by exists due.
  - intros (due & -> & Hdue & -> & ->). by rewrite bool_decide_eq_true_2.
Qed.

Lemma callback_of_Some (tok : nat) (s : Live) (c : Callback) :
  callback_of tok s = Some c → c ∈ callbacks s ∧ token c = tok.
Proof.
  unfold callback_of. intros Hhead.
  apply head_Some_elem_of, list_elem_of_filter in Hhead. by destruct Hhead.
Qed.


Lemma elem_of_advanced (tok : nat) (cbs : list Callback) (c : Callback) :
  c ∈ ((λ c, if decide (token c = tok)
             then mkCallback tok (search c) AwaitConnectedIntegrations
             else c) <$> cbs) →
  ∃ c0, c0 ∈ cbs ∧ token c0 = token c ∧ search c0 = search c.
Proof.
  intros (c0 & -> & Hc0)%list_elem_of_fmap. exists c0. split; [done|].
  by case_decide.
Qed.

(** Superseding: whatever the timer is set to, every started callback has
    cancellation requested afterwards. *)
Lemma supersede_consistent (s : Live) (w : Wizard) (now : Z)
    (tm : option (Z * string)) :
  consistent s →
  let d := updateItemsDebouncer s in
  let d' := mkAsyncDebouncer (delay d) tm None
                             (option_list (current d) ++ cancelled d)
                             (next_token d) in
  consistent (mkLive w now d' (callbacks s))
  ∧ ∀ c, c ∈ callbacks s → isCancellationRequested (token c) d' = true.
Proof.
  intros (Hdelay & Htimer & Hcur & Htok & Hcan & Hcurtok) d d'.
  assert (Hall : ∀ c, c ∈ callbacks s →
                      isCancellationRequested (token c) d' = true).
  { intros c Hc. apply bool_decide_eq_true. subst d' d. cbn.
    destruct (decide (token c ∈ cancelled (updateItemsDebouncer s)))
      as [Hin|Hnot]; [apply elem_of_app; by right|].
    rewrite (Hcur c Hc (bool_decide_eq_false_2 _ Hnot)). cbn. by left. }
  split; [|exact Hall].
  unfold consistent. cbn.
  split; [done|]. split; [done|].
  split; [intros c Hc Hnot; by rewrite (Hall c Hc) in Hnot|].
  split; [done|]. split; [|done].
  intros tok [Hin|Hin]%elem_of_app; [|by apply Hcan].
  subst d. destruct (current (updateItemsDebouncer s)) as [cur|] eqn:Hcurrent;
    cbn in Hin.
  - apply list_elem_of_singleton in Hin as ->. by apply Hcurtok.
  - by apply elem_of_nil in Hin.
Qed.

Lemma live_step_consistent (s s' : Live) (e : Z * Moment) :
  consistent s → live_step s e = Some s' → consistent s'.
Proof.
  intros Hs Hstep.
  destruct e as [now m]. unfold live_step in Hstep.
  case_bool_decide as Hclock; [|done].
  destruct m as [v|items| | | |tok r|tok connected|]; cbn in Hstep.
  - by injection Hstep as <-.
  - by injection Hstep as <-.
  - injection Hstep as <-. apply (supersede_consistent s _ now _ Hs).
  - injection Hstep as <-. apply (supersede_consistent s _ now None Hs).
  - unfold callback_start in Hstep.
    destruct (elapse now (updateItemsDebouncer s)) as [[[srch tok] d']|] eqn:He;
      [|done].
    injection Hstep as <-.
    apply elapse_Some in He as (due & Htm & Hdue & -> & ->).
    destruct Hs as (Hdelay & Htimer & Hcur & Htok & Hcan & Hcurtok).
    rewrite Htm in Htimer. specialize (Htimer (mk_is_Some _ _ eq_refl)).
    unfold consistent. cbn.
    split; [done|]. split; [by intros ?%is_Some_None|].
    split.
    { intros c [Hc|Hc]%elem_of_app Hnot.
      - specialize (Hcur c Hc Hnot). congruence.
      - by apply list_elem_of_singleton in Hc as ->. }
    split.
    { intros c [Hc|Hc]%elem_of_app.
      - specialize (Htok c Hc). lia.
      - apply list_elem_of_singleton in Hc as ->. cbn. lia. }
    split; [intros tok Hin; specialize (Hcan tok Hin); lia|].
    intros tok [= <-]. lia.
  - unfold categorizedItems_resolved in Hstep.
    destruct (callback_of tok s) as [c0|]; [|done]. cbn in Hstep.
    destruct (await c0); [|done]. injection Hstep as <-.
    destruct Hs as (Hdelay & Htimer & Hcur & Htok & Hcan & Hcurtok).
    unfold consistent. cbn.
    split; [done|]. split; [done|].
    split.
    { intros c (c1 & Hc1 & Htoken & _)%elem_of_advanced Hnot.
      rewrite <- Htoken in *. by apply Hcur. }
    split; [|done].
    intros c (c1 & Hc1 & Htoken & _)%elem_of_advanced.
    rewrite <- Htoken. by apply Htok.
  - unfold connectedIntegrations_resolved in Hstep.
    destruct (callback_of tok s) as [c0|]; [|done]. cbn in Hstep.
    destruct (await c0); [done|]. injection Hstep as <-.
    destruct Hs as (Hdelay & Htimer & Hcur & Htok & Hcan & Hcurtok).
    unfold consistent. cbn.
    split; [done|]. split; [done|].
    split.
    { intros c [_ Hc]%list_elem_of_filter Hnot. by apply Hcur. }
    split; [|done].
    intros c [_ Hc]%list_elem_of_filter. by apply Htok.
  - by injection Hstep as <-.
Qed.

Lemma live_run_consistent (s s' : Live) (es : list (Z * Moment)) :
  consistent s → live_run s es = Some s' → consistent s'.
Proof.
  revert s. induction es as [|e es IH]; intros s Hs; cbn.
  - by intros [= <-].
  - destruct (live_step s e) as [s1|] eqn:Hstep; cbn; [|done].
    apply IH. by apply (live_step_consistent s s1 e).
Qed.

(** The callback that waits belongs to the last call of [updateItems], and
    nothing has touched the timer since. *)
Lemma waiting_is_last_call (t0 : Z) (w : Wizard) (ms : list (Z * Moment))
    (s : Live) (due : Z) (srch : string) :
  live_run (opens t0 w) ms = Some s →
  timer (updateItemsDebouncer s) = Some (due, srch) →
  ∃ ms0 called ms1 s0,
    ms = ms0 ++ (called, UpdateItems) :: ms1
    ∧ live_run (opens t0 w) ms0 = Some s0
    ∧ (clock s0 ≤ called)%Z
    ∧ srch = qp_value (quickpick (wizard s0))
    ∧ due = (called + 500)%Z
    ∧ Forall (λ e, waits e.2 = true) ms1.
Proof.
  revert s due srch. induction ms as [|[now m] ms IH] using rev_ind;
    intros s due srch Hrun Htimer.
  { injection Hrun as <-. done. }
  apply live_run_snoc in Hrun as (s1 & Hrun & Hstep).
  assert (Hs1 : consistent s1)
    by exact (live_run_consistent _ _ _ (consistent_opens t0 w) Hrun).
  assert (Hkeep : waits m = true →
                  timer (updateItemsDebouncer s) = timer (updateItemsDebouncer s1) →
                  ∃ ms0 called ms1 s0,
                    ms ++ [(now, m)] = ms0 ++ (called, UpdateItems) :: ms1
                    ∧ live_run (opens t0 w) ms0 = Some s0
                    ∧ (clock s0 ≤ called)%Z
                    ∧ srch = qp_value (quickpick (wizard s0))
                    ∧ due = (called + 500)%Z
                    ∧ Forall (λ e, waits e.2 = true) ms1).
  { intros Hwaits Heq. rewrite Heq in Htimer.
    destruct (IH s1 due srch Hrun Htimer)
      as (ms0 & called & ms1 & s0 & -> & Hrun0 & Hclock0 & Hsrch & Hdue & Hall).
    exists ms0, called, (ms1 ++ [(now, m)]), s0.
    split; [by rewrite <- app_assoc|]. repeat (split; [done|]).
    apply Forall_app. split; [done|]. by apply Forall_singleton. }
  unfold live_step in Hstep. case_bool_decide as Hclock; [|done].
  destruct m as [v|items| | | |tok r|tok connected|]; cbn in Hstep.
  - injection Hstep as <-. by apply Hkeep.
  - injection Hstep as <-. by apply Hkeep.
  - injection Hstep as <-. cbn in Htimer. injection Htimer as <- <-.
    exists ms, now, [], s1. repeat (split; [done|]).
    split; [|done]. destruct Hs1 as (-> & _). done.
  - injection Hstep as <-. done.
  - unfold callback_start in Hstep.
    destruct (elapse now (updateItemsDebouncer s1)) as [[[srch' tok] d']|] eqn:He;
      [|done].
    injection Hstep as <-.
    apply elapse_Some in He as (due' & _ & _ & _ & ->). done.
  - unfold categorizedItems_resolved in Hstep.
    destruct (callback_of tok s1) as [c0|]; [|done]. cbn in Hstep.
    destruct (await c0); [|done]. injection Hstep as <-. by apply Hkeep.
  - unfold connectedIntegrations_resolved in Hstep.
    destruct (callback_of tok s1) as [c0|]; [|done]. cbn in Hstep.
    destruct (await c0); [done|]. injection Hstep as <-. by apply Hkeep.
  - injection Hstep as <-. by apply Hkeep.
Qed.

(** A started callback without cancellation requested is the one started
    last, and no call of [updateItems] and no [cancel()] came after its
    start. *)
Lemma running_is_last_start (t0 : Z) (w : Wizard) (ms : list (Z * Moment))
    (s : Live) (c : Callback) :
  live_run (opens t0 w) ms = Some s →
  c ∈ callbacks s →
  isCancellationRequested (token c) (updateItemsDebouncer s) = false →
  ∃ ms0 started ms1 s0 due,
    ms = ms0 ++ (started, TimerElapses) :: ms1
    ∧ live_run (opens t0 w) ms0 = Some s0
    ∧ timer (updateItemsDebouncer s0) = Some (due, search c)
    ∧ (due ≤ started)%Z
    ∧ token c = next_token (updateItemsDebouncer s0)
    ∧ Forall (λ e, supersedes e.2 = false) ms1.
Proof.
  revert s c. induction ms as [|[now m] ms IH] using rev_ind;
    intros s c Hrun Hc Hnot.
  { injection Hrun as <-. by apply elem_of_nil in Hc. }
  apply live_run_snoc in Hrun as (s1 & Hrun & Hstep).
  assert (Hs1 : consistent s1)
    by exact (live_run_consistent _ _ _ (consistent_opens t0 w) Hrun).
  assert (Hkeep : ∀ c1, supersedes m = false →
                  c1 ∈ callbacks s1 → token c1 = token c → search c1 = search c →
                  cancelled (updateItemsDebouncer s) = cancelled (updateItemsDebouncer s1) →
                  ∃ ms0 started ms1 s0 due,
                    ms ++ [(now, m)] = ms0 ++ (started, TimerElapses) :: ms1
                    ∧ live_run (opens t0 w) ms0 = Some s0
                    ∧ timer (updateItemsDebouncer s0) = Some (due, search c)
                    ∧ (due ≤ started)%Z
                    ∧ token c = next_token (updateItemsDebouncer s0)
                    ∧ Forall (λ e, supersedes e.2 = false) ms1).
  { intros c1 Hsup Hc1 Htoken Hsearch Heq.
    assert (Hnot1 : isCancellationRequested (token c1) (updateItemsDebouncer s1)
                    = false).
    { unfold isCancellationRequested in *. by rewrite Htoken, <- Heq. }
    destruct (IH s1 c1 Hrun Hc1 Hnot1)
      as (ms0 & started & ms1 & s0 & due & -> & Hrun0 & Htm & Hdue & Htok & Hall).
    exists ms0, started, (ms1 ++ [(now, m)]), s0, due.
    split; [by rewrite <- app_assoc|]. split; [done|].
    split; [by rewrite <- Hsearch|]. split; [done|].
    split; [by rewrite <- Htoken|].
    apply Forall_app. split; [done|]. by apply Forall_singleton. }
  unfold live_step in Hstep. case_bool_decide as Hclock; [|done].
  destruct m as [v|items| | | |tok r|tok connected|]; cbn in Hstep.
  - injection Hstep as <-. by apply (Hkeep c).
  - injection Hstep as <-. by apply (Hkeep c).
  - injection Hstep as <-.
    destruct (supersede_consistent s1 (set_busy true (wizard s1)) now
                (Some ((now + delay (updateItemsDebouncer s1))%Z,
                       qp_value (quickpick (wizard s1)))) Hs1) as [_ Hall].
    cbn in Hc, Hnot. unfold call, cancel in Hnot. cbn in Hnot.
    by rewrite (Hall c Hc) in Hnot.
  - injection Hstep as <-.
    destruct (supersede_consistent s1 (wizard s1) now None Hs1) as [_ Hall].
    cbn in Hc, Hnot. unfold cancel in Hnot.
    by rewrite (Hall c Hc) in Hnot.
  - unfold callback_start in Hstep.
    destruct (elapse now (updateItemsDebouncer s1)) as [[[srch tok] d']|] eqn:He;
      [|done].
    injection Hstep as <-.
    apply elapse_Some in He as (due & Htm & Hdue & -> & ->).
    cbn in Hc, Hnot. apply elem_of_app in Hc as [Hc|Hc].
    + by apply (Hkeep c).
    + apply list_elem_of_singleton in Hc as ->.
      exists ms, now, [], s1, due. by repeat (split; [done|]).
  - unfold categorizedItems_resolved in Hstep.
    destruct (callback_of tok s1) as [c0|]; [|done]. cbn in Hstep.
    destruct (await c0); [|done]. injection Hstep as <-.
    cbn in Hc, Hnot.
    apply elem_of_advanced in Hc as (c1 & Hc1 & Htoken & Hsearch).
    by apply (Hkeep c1).
  - unfold connectedIntegrations_resolved in Hstep.
    destruct (callback_of tok s1) as [c0|]; [|done]. cbn in Hstep.
    destruct (await c0); [done|]. injection Hstep as <-.
    cbn in Hc, Hnot. apply list_elem_of_filter in Hc as [_ Hc].
    by apply (Hkeep c).
  - injection Hstep as <-. by apply (Hkeep c).
Qed.

(** Cancellation, once requested, stays requested. *)
Lemma live_step_cancelled (s s' : Live) (e : Z * Moment) (tok : nat) :
  live_step s e = Some s' →
  isCancellationRequested tok (updateItemsDebouncer s) = true →
  isCancellationRequested tok (updateItemsDebouncer s') = true.
Proof.
  intros Hstep Htok. destruct e as [now m]. unfold live_step in Hstep.
  case_bool_decide as Hclock; [|done].
  unfold isCancellationRequested in *. apply bool_decide_eq_true in Htok.
  apply bool_decide_eq_true.
  destruct m as [v|items| | | |tok' r|tok' connected|]; cbn in Hstep.
  - by injection Hstep as <-.
  - by injection Hstep as <-.
  - injection Hstep as <-. cbn. apply elem_of_app. by right.
  - injection Hstep as <-. cbn. apply elem_of_app. by right.
  - unfold callback_start in Hstep.
    destruct (elapse now (updateItemsDebouncer s)) as [[[srch tk] d']|] eqn:He;
      [|done].
    injection Hstep as <-.
    by apply elapse_Some in He as (due & _ & _ & _ & ->).
  - unfold categorizedItems_resolved in Hstep.
    destruct (callback_of tok' s) as [c0|]; [|done]. cbn in Hstep.
    destruct (await c0); [|done]. by injection Hstep as <-.
  - unfold connectedIntegrations_resolved in Hstep.
    destruct (callback_of tok' s) as [c0|]; [|done]. cbn in Hstep.
    destruct (await c0); [done|]. by injection Hstep as <-.
  - by injection Hstep as <-.
Qed.

Lemma live_run_cancelled (s s' : Live) (es : list (Z * Moment)) (tok : nat) :
  live_run s es = Some s' →
  isCancellationRequested tok (updateItemsDebouncer s) = true →
  isCancellationRequested tok (updateItemsDebouncer s') = true.
Proof.
  revert s. induction es as [|e es IH]; intros s; cbn.
  - by intros [= <-].
  - destruct (live_step s e) as [s1|] eqn:Hstep; cbn; [|done].
    intros Hrun Htok. apply (IH s1 Hrun).
    by apply (live_step_cancelled s s1 e).
Qed.

(** The steps of a callback and the entries of the picker. *)
Lemma categorizedItems_resolved_quickpick now tok r (s s' : Live) :
  categorizedItems_resolved now tok r s = Some s' →
  quickpick (wizard s') = quickpick (wizard s).
Proof.
  unfold categorizedItems_resolved.
  destruct (callback_of tok s) as [c0|]; [|done]. cbn.
  destruct (await c0); [|done]. by intros [= <-].
Qed.

Lemma connectedIntegrations_resolved_cancelled now tok connected (s s' : Live) :
  isCancellationRequested tok (updateItemsDebouncer s) = true →
  connectedIntegrations_resolved now tok connected s = Some s' →
  quickpick (wizard s') = quickpick (wizard s).
Proof.
  intros Htok. unfold connectedIntegrations_resolved.
  destruct (callback_of tok s) as [c0|]; [|done]. cbn.
  destruct (await c0); [done|]. rewrite Htok. by intros [= <-].
Qed.

(** A callback with a token that no other started callback has. *)
Lemma callbacks_fresh (cbs : list Callback) (tok : nat) (srch : string)
    (a : Await) :
  (∀ c, c ∈ cbs → token c < tok) →
  head (filter (λ c, token c = tok) (cbs ++ [mkCallback tok srch a]))
  = Some (mkCallback tok srch a)
  ∧ filter (λ c, token c ≠ tok) (cbs ++ [mkCallback tok srch a]) = cbs
  ∧ (λ c, if decide (token c = tok)
          then mkCallback tok (search c) AwaitConnectedIntegrations
          else c) <$> (cbs ++ [mkCallback tok srch a])
    = cbs ++ [mkCallback tok srch AwaitConnectedIntegrations].
Proof.
  intros Hall.
  assert (Hcbs : filter (λ c, token c = tok) cbs = []
                 ∧ filter (λ c, token c ≠ tok) cbs = cbs
                 ∧ (λ c, if decide (token c = tok)
                         then mkCallback tok (search c)
                                         AwaitConnectedIntegrations
                         else c) <$> cbs = cbs).
  { induction cbs as [|c1 cbs IH]; [done|].
    assert (Hc1 : token c1 < tok) by (apply Hall; by left).
    destruct IH as (IH1 & IH2 & IH3); [intros c' Hc'; apply Hall; by right|].
    split; [|split].
    - by rewrite filter_cons_False by lia.
    - rewrite filter_cons_True by lia. by rewrite IH2.
    - cbn. rewrite IH3. case_decide; [lia|done]. }
  destruct Hcbs as (H1 & H2 & H3).
  rewrite !filter_app, fmap_app, H1, H2, H3.
  split; [|split].
  - by rewrite filter_cons_True.
  - rewrite filter_cons_False by (by intros Hne). by rewrite app_nil_r.
  - cbn. by rewrite decide_True.
Qed.

Lemma live_run_cons (s s' : Live) (e : Z * Moment) (es : list (Z * Moment)) :
  live_run s (e :: es) = Some s' ↔
  ∃ s1, live_step s e = Some s1 ∧ live_run s1 es = Some s'.
Proof.
  cbn. destruct (live_step s e) as [s1|]; cbn.
  - split; [by exists s1|]. by intros (? & [= <-] & ?).
  - split; [done|]. by intros (? & [=] & _).
Qed.

Lemma live_step_Some (s s' : Live) (now : Z) (m : Moment) :
  live_step s (now, m) = Some s' →
  (clock s ≤ now)%Z
  ∧ match m with
    | UpdateItems => s' = updateItems_call now s
    | CancelDebouncer =>
        s' = mkLive (wizard s) now (cancel (updateItemsDebouncer s)) (callbacks s)
    | TimerElapses => callback_start now s = Some s'
    | CategorizedItems tok r => categorizedItems_resolved now tok r s = Some s'
    | ConnectedIntegrations tok connected =>
        connectedIntegrations_resolved now tok connected s = Some s'
    | Settled => s' = set_wizard s now (set_busy false (wizard s))
    | _ => updateItemsDebouncer s' = updateItemsDebouncer s
           ∧ callbacks s' = callbacks s
    end.
Proof.
  unfold live_step. case_bool_decide as Hclock; [|done]. intros Hstep.
  split; [done|]. destruct m; cbn in Hstep; try done; by injection Hstep as <-.
Qed.

(** The three outcomes of the untimed [updateItems] are three schedules:
    the callback runs to its end undisturbed. *)
Lemma schedule_completed (s : Live) :
  consistent s →
  let tok := next_token (updateItemsDebouncer s) in
  ∀ t1 t2 t3 t4 t5 r connected s',
    live_run s [(t1, UpdateItems); (t2, TimerElapses);
                (t3, CategorizedItems tok r);
                (t4, ConnectedIntegrations tok connected); (t5, Settled)]
    = Some s' →
    wizard s' = updateItems (Invoked (mkFetched r connected) false) (wizard s).
Proof.
  intros Hs tok t1 t2 t3 t4 t5 r connected s' Hrun. subst tok.
  destruct Hs as (Hdelay & Htimer & Hcur & Htok & Hcan & Hcurtok).
  apply live_run_cons in Hrun as (s1 & [_ ->]%live_step_Some & Hrun).
  apply live_run_cons in Hrun as (s2 & [_ Hs2]%live_step_Some & Hrun).
  apply live_run_cons in Hrun as (s3 & [_ Hs3]%live_step_Some & Hrun).
  apply live_run_cons in Hrun as (s4 & [_ Hs4]%live_step_Some & Hrun).
  apply live_run_cons in Hrun as (s5 & [_ ->]%live_step_Some & [= <-]).
  unfold callback_start in Hs2. cbn in Hs2.
  case_bool_decide; [|done]. cbn in Hs2. injection Hs2 as <-.
  destruct (callbacks_fresh (callbacks s) _ (qp_value (quickpick (wizard s)))
              AwaitCategorizedItems Htok) as (Hhead & _ & Hfmap).
  destruct (callbacks_fresh (callbacks s) _ (qp_value (quickpick (wizard s)))
              AwaitConnectedIntegrations Htok) as (Hhead' & Hfilter' & _).
  unfold categorizedItems_resolved, callback_of in Hs3.
  cbn [callbacks] in Hs3. rewrite Hhead in Hs3.
  cbn [mbind option_bind await] in Hs3. injection Hs3 as <-.
  unfold connectedIntegrations_resolved, callback_of in Hs4.
  cbn [callbacks search] in Hs4. rewrite Hfmap, Hhead' in Hs4.
  cbn [mbind option_bind await] in Hs4.
  assert (Hfresh : isCancellationRequested (next_token (updateItemsDebouncer s))
                     (call t1 (qp_value (quickpick (wizard s)))
                           (updateItemsDebouncer s)) = false).
  { apply bool_decide_eq_false. cbn. intros [Hin|Hin]%elem_of_app.
    - destruct (current (updateItemsDebouncer s)) as [cur|] eqn:Hcurrent;
        cbn in Hin; [|by apply elem_of_nil in Hin].
      apply list_elem_of_singleton in Hin. specialize (Hcurtok cur eq_refl). lia.
    - specialize (Hcan _ Hin). lia. }
  unfold isCancellationRequested in Hfresh, Hs4. cbn in Hfresh, Hs4.
  rewrite Hfresh in Hs4. injection Hs4 as <-.
  reflexivity.
Qed.

(** [cancel()] arrives while the callback awaits the provider. *)
Lemma schedule_cancelled (s : Live) :
  consistent s →
  let tok := next_token (updateItemsDebouncer s) in
  ∀ t1 t2 t3 t4 t5 t6 r connected s',
    live_run s [(t1, UpdateItems); (t2, TimerElapses); (t3, CancelDebouncer);
                (t4, CategorizedItems tok r);
                (t5, ConnectedIntegrations tok connected); (t6, Settled)]
    = Some s' →
    wizard s' = updateItems (Invoked (mkFetched r connected) true) (wizard s).
Proof.
  intros Hs tok t1 t2 t3 t4 t5 t6 r connected s' Hrun. subst tok.
  destruct Hs as (Hdelay & Htimer & Hcur & Htok & Hcan & Hcurtok).
  apply live_run_cons in Hrun as (s1 & [_ ->]%live_step_Some & Hrun).
  apply live_run_cons in Hrun as (s2 & [_ Hs2]%live_step_Some & Hrun).
  apply live_run_cons in Hrun as (s2' & [_ ->]%live_step_Some & Hrun).
  apply live_run_cons in Hrun as (s3 & [_ Hs3]%live_step_Some & Hrun).
  apply live_run_cons in Hrun as (s4 & [_ Hs4]%live_step_Some & Hrun).
  apply live_run_cons in Hrun as (s5 & [_ ->]%live_step_Some & [= <-]).
  unfold callback_start in Hs2. cbn in Hs2.
  case_bool_decide; [|done]. cbn in Hs2. injection Hs2 as <-.
  destruct (callbacks_fresh (callbacks s) _ (qp_value (quickpick (wizard s)))
              AwaitCategorizedItems Htok) as (Hhead & _ & Hfmap).
  destruct (callbacks_fresh (callbacks s) _ (qp_value (quickpick (wizard s)))
              AwaitConnectedIntegrations Htok) as (Hhead' & Hfilter' & _).
  unfold categorizedItems_resolved, callback_of in Hs3.
  cbn [callbacks] in Hs3. rewrite Hhead in Hs3.
  cbn [mbind option_bind await] in Hs3. injection Hs3 as <-.
  unfold connectedIntegrations_resolved, callback_of in Hs4.
  cbn [callbacks search] in Hs4. rewrite Hfmap, Hhead' in Hs4.
  cbn [mbind option_bind await] in Hs4.
  unfold isCancellationRequested in Hs4. cbn in Hs4.
  rewrite bool_decide_eq_true_2 in Hs4 by (by left).
  injection Hs4 as <-. reflexivity.
Qed.

(** [cancel()] arrives while the callback waits. *)
Lemma schedule_dropped (s : Live) :
  ∀ t1 t2 t3 s',
    live_run s [(t1, UpdateItems); (t2, CancelDebouncer); (t3, Settled)]
    = Some s' →
    wizard s' = updateItems Superseded (wizard s)
    ∧ ∀ now, live_step s' (now, TimerElapses) = None.
Proof.
  intros t1 t2 t3 s' Hrun.
  apply live_run_cons in Hrun as (s1 & [_ ->]%live_step_Some & Hrun).
  apply live_run_cons in Hrun as (s2 & [_ ->]%live_step_Some & Hrun).
  apply live_run_cons in Hrun as (s3 & [_ ->]%live_step_Some & [= <-]).
  split; [reflexivity|]. intros now. unfold live_step. by case_bool_decide.
Qed.

(** C7.  The refresh that a search triggers is debounced with the fixed
    interval of 500 ms, and a superseded request never changes what the
    picker shows.  At every moment of an open pick step: the debouncer's
    delay is 500; a call of [updateItems] leaves its callback waiting until
    500 ms after the call and requests cancellation on every started
    callback, as does [cancel()], which leaves none waiting; the waiting
    callback is that of the last call and can start exactly when its 500 ms
    have passed; cancellation, once requested, stays; a callback with
    cancellation requested leaves the picker as it is at both of its steps;
    and when a step of a callback does change the picker, that callback
    belongs to a call that waited its 500 ms with no other call and no
    [cancel()] between the call and the change.  The three outcomes of the
    untimed [updateItems] are the schedules in which the callback completes,
    is cancelled while it awaits the provider, and is dropped while it
    waits; in the last two the entries and the placeholder stay. *)
Theorem search_refresh_is_debounced
    (t0 : Z) (w : Wizard) (ms : list (Z * Moment)) (s : Live) :
  live_run (opens t0 w) ms = Some s →
  let d := updateItemsDebouncer s in
  delay d = 500%Z
  ∧ (∀ now s', live_step s (now, UpdateItems) = Some s' →
       timer (updateItemsDebouncer s')
       = Some ((now + 500)%Z, qp_value (quickpick (wizard s)))
       ∧ ∀ c, c ∈ callbacks s' →
              isCancellationRequested (token c) (updateItemsDebouncer s') = true)
  ∧ (∀ now s', live_step s (now, CancelDebouncer) = Some s' →
       timer (updateItemsDebouncer s') = None
       ∧ ∀ c, c ∈ callbacks s' →
              isCancellationRequested (token c) (updateItemsDebouncer s') = true)
  ∧ (∀ now, is_Some (live_step s (now, TimerElapses)) ↔
            (clock s ≤ now)%Z
            ∧ ∃ due srch, timer d = Some (due, srch) ∧ (due ≤ now)%Z)
  ∧ (∀ due srch, timer d = Some (due, srch) →
       ∃ ms0 called ms1 s0,
         ms = ms0 ++ (called, UpdateItems) :: ms1
         ∧ live_run (opens t0 w) ms0 = Some s0
         ∧ srch = qp_value (quickpick (wizard s0))
         ∧ due = (called + 500)%Z
         ∧ Forall (λ e, waits e.2 = true) ms1)
  ∧ (∀ tok es s',
       isCancellationRequested tok d = true →
       live_run s es = Some s' →
       isCancellationRequested tok (updateItemsDebouncer s') = true)
  ∧ (∀ now tok r s',
       live_step s (now, CategorizedItems tok r) = Some s' →
       quickpick (wizard s') = quickpick (wizard s))
  ∧ (∀ now tok connected s',
       isCancellationRequested tok d = true →
       live_step s (now, ConnectedIntegrations tok connected) = Some s' →
       quickpick (wizard s') = quickpick (wizard s))
  ∧ (∀ now tok connected s',
       live_step s (now, ConnectedIntegrations tok connected) = Some s' →
       quickpick (wizard s') ≠ quickpick (wizard s) →
       ∃ ms0 called ms1 started ms2 s0 c,
         ms = ms0 ++ (called, UpdateItems) :: ms1
                  ++ (started, TimerElapses) :: ms2
         ∧ live_run (opens t0 w) ms0 = Some s0
         ∧ (called + 500 ≤ started)%Z
         ∧ Forall (λ e, waits e.2 = true) ms1
         ∧ Forall (λ e, supersedes e.2 = false) ms2
         ∧ callback_of tok s = Some c
         ∧ search c = qp_value (quickpick (wizard s0)))
  ∧ (∀ t1 t2 t3 t4 t5 r connected s',
       live_run s [(t1, UpdateItems); (t2, TimerElapses);
                   (t3, CategorizedItems (next_token d) r);
                   (t4, ConnectedIntegrations (next_token d) connected);
                   (t5, Settled)] = Some s' →
       wizard s' = updateItems (Invoked (mkFetched r connected) false) (wizard s))
  ∧ (∀ t1 t2 t3 t4 t5 t6 r connected s',
       live_run s [(t1, UpdateItems); (t2, TimerElapses); (t3, CancelDebouncer);
                   (t4, CategorizedItems (next_token d) r);
                   (t5, ConnectedIntegrations (next_token d) connected);
                   (t6, Settled)] = Some s' →
       wizard s' = updateItems (Invoked (mkFetched r connected) true) (wizard s)
       ∧ qp_items (quickpick (wizard s')) = qp_items (quickpick (wizard s))
       ∧ qp_placeholder (quickpick (wizard s'))
         = qp_placeholder (quickpick (wizard s)))
  ∧ (∀ t1 t2 t3 s',
       live_run s [(t1, UpdateItems); (t2, CancelDebouncer); (t3, Settled)]
       = Some s' →
       wizard s' = updateItems Superseded (wizard s)
       ∧ qp_items (quickpick (wizard s')) = qp_items (quickpick (wizard s))
       ∧ qp_placeholder (quickpick (wizard s'))
         = qp_placeholder (quickpick (wizard s))
       ∧ ∀ now, live_step s' (now, TimerElapses) = None).
Proof.
  intros Hrun d. subst d.
  assert (Hs : consistent s)
    by exact (live_run_consistent _ _ _ (consistent_opens t0 w) Hrun).
  assert (Hdelay : delay (updateItemsDebouncer s) = 500%Z)
    by (by destruct Hs as (-> & _)).
  split; [exact Hdelay|].
  split.
  { intros now s' [_ ->]%live_step_Some.
    destruct (supersede_consistent s (set_busy true (wizard s)) now
                (Some ((now + delay (updateItemsDebouncer s))%Z,
                       qp_value (quickpick (wizard s)))) Hs)
      as [_ Hall].
    split; [|exact Hall]. cbn. by rewrite Hdelay. }
  split.
  { intros now s' [_ ->]%live_step_Some.
    destruct (supersede_consistent s (wizard s) now None Hs) as [_ Hall].
    split; [done|exact Hall]. }
  split.
  { intros now. unfold live_step. split.
    - case_bool_decide as Hclock; [|by intros ?%is_Some_None].
      intros [s' Hstart]. split; [done|].
      unfold callback_start in Hstart.
      destruct (elapse now (updateItemsDebouncer s)) as [[[srch tok] d']|] eqn:He;
        [|done].
      apply elapse_Some in He as (due & Htm & Hdue & _). by exists due, srch.
    - intros (Hclock & due & srch & Htm & Hdue).
      rewrite bool_decide_eq_true_2 by done.
      unfold callback_start, elapse. rewrite Htm.
      rewrite bool_decide_eq_true_2 by done. by eexists. }
  split.
  { intros due srch Htm.
    destruct (waiting_is_last_call t0 w ms s due srch Hrun Htm)
      as (ms0 & called & ms1 & s0 & ? & ? & ? & ? & ? & ?).
    by exists ms0, called, ms1, s0. }
  split.
  { intros tok es s' Htok Hes. by apply (live_run_cancelled s s' es). }
  split.
  { intros now tok r s' [_ Hstep]%live_step_Some.
    by apply (categorizedItems_resolved_quickpick now tok r). }
  split.
  { intros now tok connected s' Htok [_ Hstep]%live_step_Some.
    by apply (connectedIntegrations_resolved_cancelled now tok connected). }
  split.
  { intros now tok connected s' [_ Hstep]%live_step_Some Hchanged.
    destruct (isCancellationRequested tok (updateItemsDebouncer s)) eqn:Htok.
    { destruct Hchanged.
      by apply (connectedIntegrations_resolved_cancelled now tok connected). }
    destruct (callback_of tok s) as [c|] eqn:Hc;
      [|unfold connectedIntegrations_resolved in Hstep; by rewrite Hc in Hstep].
    apply callback_of_Some in Hc as Hc'. destruct Hc' as [Hin <-].
    destruct (running_is_last_start t0 w ms s c Hrun Hin Htok)
      as (ms0' & started & ms2 & s0' & due & -> & Hrun0' & Htm & Hdue & _ & Hms2).
    destruct (waiting_is_last_call t0 w ms0' s0' due (search c) Hrun0' Htm)
      as (ms0 & called & ms1 & s0 & -> & Hrun0 & _ & Hsrch & -> & Hms1).
    exists ms0, called, ms1, started, ms2, s0, c.
    split; [by rewrite <- app_assoc|]. by repeat (split; [done|]). }
  split; [exact (schedule_completed s Hs)|].
  split.
  { intros t1 t2 t3 t4 t5 t6 r connected s' Hsched.
    by rewrite (schedule_cancelled s Hs t1 t2 t3 t4 t5 t6 r connected s' Hsched). }
  intros t1 t2 t3 s' Hsched.
  destruct (schedule_dropped s t1 t2 t3 s' Hsched) as [-> Hnever]. done.
Qed.

End LaunchpadRefreshFacts.

Section LaunchpadRefreshWitnesses.
Import Launchpad AsyncDebouncer LaunchpadRefresh Demo DemoRefresh.

Lemma search_refresh_is_debounced_witness :
  ∃ w s s',
    Demo.opened = Some w
    ∧ live_run (opens 0 w) (typing w) = Some s
    ∧ live_step s (1950%Z, ConnectedIntegrations 0 [("github", true)]) = Some s'
    ∧ omap item_of (qp_items (quickpick (wizard s'))) = [pr1; pr2; pr3]
    ∧ delay (updateItemsDebouncer s) = 500%Z
    ∧ ∃ ms0 called ms1 started ms2 s0 c,
        typing w = ms0 ++ (called, UpdateItems) :: ms1
                       ++ (started, TimerElapses) :: ms2
        ∧ live_run (opens 0 w) ms0 = Some s0
        ∧ (called + 500 ≤ started)%Z
        ∧ Forall (λ e, waits e.2 = true) ms1
        ∧ Forall (λ e, supersedes e.2 = false) ms2
        ∧ callback_of 0 s = Some c
        ∧ search c = qp_value (quickpick (wizard s0)).
Proof.
  pose (w := default chosen_merge Demo.opened).
  pose (s := default (opens 0 w)
                     (live_run (opens 0 w) (typing w))).
  pose (s' := default s (live_step s (1950%Z,
                                      ConnectedIntegrations 0 [("github", true)]))).
  assert (Hrun : live_run (opens 0 w) (typing w) = Some s)
    by (vm_compute; reflexivity).
  assert (Hstep : live_step s (1950%Z, ConnectedIntegrations 0 [("github", true)])
                  = Some s') by (vm_compute; reflexivity).
  exists w, s, s'.
  split; [vm_compute; reflexivity|].
  split; [exact Hrun|]. split; [exact Hstep|].
  split; [vm_compute; reflexivity|].
  destruct (search_refresh_is_debounced _ _ _ _ Hrun)
    as (Hdelay & _ & _ & _ & _ & _ & _ & _ & Hchange & _).
  split; [exact Hdelay|].
  apply (Hchange _ _ _ _ Hstep). vm_compute. discriminate.
Defined.

End LaunchpadRefreshWitnesses.
